(** * VLTL-Bench: the LTL dataset generator

    A shallow embedding of [dataset_generators/LTL_dataset_generator.py]
    and of [dataset_generators/__init__.py], followed by the properties of
    the generator that the specification states and by further properties
    of the code.

    Conventions of the embedding.
    - A Python [str] is a [string] (a sequence of 8-bit characters); case
      mapping and character classes are the ASCII ones.  They are Python's
      on ASCII text ([PyStr.isascii]); on other text Python follows the
      Unicode database, which is not modelled, so a property that depends on
      the class or the case of a character is stated for ASCII text.  The
      three characters of the source that are not ASCII (the em dash, the
      en dash and the ellipsis of [_PUNCT] and of one sentence template)
      stand as their UTF-8 bytes; they have no case and are neither white
      space, digits nor [string.punctuation], in Python as in the embedding.
    - A Python [dict] is an insertion-ordered association list ([dict]).
    - An exception is a value of [exn]; a computation that can raise returns a
      [res]; a computation that also draws random numbers lives in the monad
      [M], whose state is the stream of numbers the generator will deliver.
    - The NLTK services (tokenizer, tagger, lemmatizer, detokenizer) are the
      fields of the class [NLP]: the generator is parametric in them.
    - [while] loops whose termination is not evident take a [fuel] argument
      and end in [Diverge] when it runs out. *)

From Stdlib Require Import String Ascii List Arith Bool Lia PeanoNat.
From Stdlib Require Import DecimalString DecimalNat.
Import ListNotations.
Open Scope list_scope.
Open Scope string_scope.
Open Scope nat_scope.

(* ====================================================================== *)
(** * Part I.  The embedding                                               *)
(* ====================================================================== *)

(** ** Python string primitives *)

Module PyStr.

Definition code (c : ascii) : nat := nat_of_ascii c.

Definition between (lo hi : nat) (c : ascii) : bool :=
  (lo <=? code c) && (code c <=? hi).

Definition is_upper (c : ascii) : bool := between 65 90 c.
Definition is_lower (c : ascii) : bool := between 97 122 c.
Definition is_alpha (c : ascii) : bool := is_upper c || is_lower c.
Definition is_digit (c : ascii) : bool := between 48 57 c.

(** [str.isspace] on the ASCII range: TAB, LF, VT, FF, CR, FS, GS, RS, US
    and the blank. *)
Definition is_space (c : ascii) : bool :=
  between 9 13 c || between 28 32 c.

(** [string.punctuation], as a predicate on characters: the 32 printable
    ASCII characters that are neither letters, digits nor the blank. *)
Definition is_punct (c : ascii) : bool :=
  between 33 47 c || between 58 64 c || between 91 96 c || between 123 126 c.

Definition to_lower (c : ascii) : ascii :=
  if is_upper c then ascii_of_nat (code c + 32) else c.

Definition to_upper (c : ascii) : ascii :=
  if is_lower c then ascii_of_nat (code c - 32) else c.

Fixpoint map_chars (f : ascii -> ascii) (s : string) : string :=
  match s with
  | EmptyString => EmptyString
  | String c r => String (f c) (map_chars f r)
  end.

Fixpoint filter_chars (p : ascii -> bool) (s : string) : string :=
  match s with
  | EmptyString => EmptyString
  | String c r => if p c then String c (filter_chars p r) else filter_chars p r
  end.

Fixpoint all_chars (p : ascii -> bool) (s : string) : bool :=
  match s with
  | EmptyString => true
  | String c r => p c && all_chars p r
  end.

(** [s.isascii()]: every character is below 128.  On such a string the
    classes and the case mappings of this module are those of Python. *)
Definition isascii (s : string) : bool :=
  all_chars (fun c => code c <? 128) s.

(** [s.lower()] on ASCII text: the 26 capital letters are mapped, every
    other character is kept. *)
Definition lower (s : string) : string := map_chars to_lower s.

(** [s.capitalize()] on ASCII text: first character upper-cased, the rest
    lower-cased. *)
Definition capitalize (s : string) : string :=
  match s with
  | EmptyString => EmptyString
  | String c r => String (to_upper c) (lower r)
  end.

(** [s.endswith(suf)]: some tail of [s] is [suf]. *)
Fixpoint endswith (s suf : string) : bool :=
  if String.eqb s suf then true
  else match s with
       | EmptyString => false
       | String _ r => endswith r suf
       end.

(** [sub in s] on strings: [sub] starts at some position of [s]. *)
Fixpoint contains (sub s : string) : bool :=
  if String.prefix sub s then true
  else match s with
       | EmptyString => false
       | String _ r => contains sub r
       end.

(** [s[:-n]] *)
Definition drop_last (n : nat) (s : string) : string :=
  String.substring 0 (String.length s - n) s.

(** [s[-n:]] for [n > 0] *)
Definition last_chars (n : nat) (s : string) : string :=
  String.substring (String.length s - n) n s.

(** [s.rstrip(chars)] with the character set given as a predicate. *)
Fixpoint rstrip (p : ascii -> bool) (s : string) : string :=
  match s with
  | EmptyString => EmptyString
  | String c r =>
      match rstrip p r with
      | EmptyString => if p c then EmptyString else String c EmptyString
      | r' => String c r'
      end
  end.

(** What [$] leaves unmatched at the end of a string: one final line feed. *)
Definition rstrip_one_newline (s : string) : string :=
  if endswith s (String (ascii_of_nat 10) EmptyString) then drop_last 1 s else s.

(** [s.replace(a, b)] for one-character [a] and [b]. *)
Definition replace_char (a b : ascii) (s : string) : string :=
  map_chars (fun c => if Ascii.eqb c a then b else c) s.

(** [sep.join(l)] *)
Definition join (sep : string) (l : list string) : string := String.concat sep l.

(** [s.split()] on ASCII text: the maximal runs of characters that are not
    white space, in order.  [cur] is the run being read. *)
Fixpoint split_from (cur : string) (s : string) : list string :=
  match s with
  | EmptyString => match cur with EmptyString => [] | _ => [cur] end
  | String c r =>
      if is_space c
      then match cur with
           | EmptyString => split_from EmptyString r
           | _ => cur :: split_from EmptyString r
           end
      else split_from (cur ++ String c EmptyString) r
  end.

Definition split (s : string) : list string := split_from EmptyString s.

(** [str(n)] for a natural number. *)
Definition str_of_nat (n : nat) : string :=
  NilEmpty.string_of_uint (Nat.to_uint n).

(** [x in l] for a list (or set) of strings. *)
Definition mem (x : string) (l : list string) : bool :=
  existsb (String.eqb x) l.

Arguments mem : simpl never.

(** [s.lstrip(chars)] with the character set given as a predicate. *)
Fixpoint lstrip (p : ascii -> bool) (s : string) : string :=
  match s with
  | EmptyString => EmptyString
  | String c r => if p c then lstrip p r else s
  end.

(** [s.strip()] on ASCII text *)
Definition strip (s : string) : string := rstrip is_space (lstrip is_space s).

(** [s.split(sep)] for a one-character separator: the pieces between the
    separators, empty ones included. *)
Fixpoint split_on (sep : ascii) (s : string) : list string :=
  match s with
  | EmptyString => [EmptyString]
  | String c r =>
      if Ascii.eqb c sep then EmptyString :: split_on sep r
      else match split_on sep r with
           | w :: ws => String c w :: ws
           | [] => [String c EmptyString]
           end
  end.

(** [s.split(sep, 1)]: cut at the first separator only. *)
Fixpoint split_once (sep : ascii) (s : string) : list string :=
  match s with
  | EmptyString => [EmptyString]
  | String c r =>
      if Ascii.eqb c sep then [EmptyString; r]
      else match split_once sep r with
           | w :: ws => String c w :: ws
           | [] => [String c EmptyString]
           end
  end.

End PyStr.

(** ** Simple inflection helper (source lines 94-101) *)

Definition is_vowel (c : ascii) : bool :=
  PyStr.mem (String c EmptyString) ["a"; "e"; "i"; "o"; "u"].

(** [re.match(r"[aeiou][^aeiouywx]$", s)] for a string [s] of at most two
    characters, as [word[-2:]] is: a vowel, then one character that is none
    of [a e i o u y w x], then the end. *)
Definition cvc_tail (s : string) : bool :=
  match s with
  | String c1 (String c2 EmptyString) =>
      is_vowel c1 &&
      negb (PyStr.mem (String c2 EmptyString) ["a"; "e"; "i"; "o"; "u"; "y"; "w"; "x"])
  | _ => false
  end.

Definition _to_gerund (word : string) : string :=
  if PyStr.endswith word "ie" then PyStr.drop_last 2 word ++ "ying"
  else if PyStr.endswith word "e" && negb (PyStr.endswith word "ee")
       then PyStr.drop_last 1 word ++ "ing"
  else if (2 <? String.length word) && cvc_tail (PyStr.last_chars 2 word)
       then word ++ "ing"
  else word ++ "ing".

(** ** Exceptions, results and the random-number monad *)

Inductive exn : Type :=
| IndexError                 (* index out of range, choice from an empty sequence *)
| KeyError (key : string)    (* missing dictionary key *)
| ValueError (msg : string). (* wrong value: bad unpacking, unknown kind, ... *)

(** The outcome of running a piece of the generator: a value, an uncaught
    exception, or no outcome within the fuel given to a [while] loop. *)
Inductive res (A : Type) : Type :=
| Ok (a : A)
| Raise (e : exn)
| Diverge.

Arguments Ok {A} a.
Arguments Raise {A} e.
Arguments Diverge {A}.

Definition rbind {A B : Type} (c : res A) (k : A -> res B) : res B :=
  match c with
  | Ok a => k a
  | Raise e => Raise e
  | Diverge => Diverge
  end.

Notation "x <~ c ;; k" := (rbind c (fun x => k))
  (at level 61, c at next level, right associativity).
Notation "' p <~ c ;; k" := (rbind c (fun p => k))
  (at level 61, p pattern, c at next level, right associativity).

Fixpoint rmap {A B : Type} (f : A -> res B) (l : list A) : res (list B) :=
  match l with
  | [] => Ok []
  | x :: r => y <~ f x ;; ys <~ rmap f r ;; Ok (y :: ys)
  end.

(** The state of Python's [random] module, seen as the stream of natural
    numbers it is going to deliver: [g 0] is the next draw. *)
Definition rng : Type := nat -> nat.

Definition M (A : Type) : Type := rng -> res (A * rng).

Definition ret {A : Type} (a : A) : M A := fun g => Ok (a, g).

Definition bind {A B : Type} (c : M A) (k : A -> M B) : M B :=
  fun g => match c g with
           | Ok (a, g') => k a g'
           | Raise e => Raise e
           | Diverge => Diverge
           end.

Definition lift {A : Type} (c : res A) : M A :=
  fun g => match c with
           | Ok a => Ok (a, g)
           | Raise e => Raise e
           | Diverge => Diverge
           end.

Notation "x <- c ;; k" := (bind c (fun x => k))
  (at level 61, c at next level, right associativity).
Notation "' p <- c ;; k" := (bind c (fun p => k))
  (at level 61, p pattern, c at next level, right associativity).

Definition next_rand : M nat := fun g => Ok (g 0, fun n => g (S n)).

(** [seq[i]] *)
Definition getitem {A : Type} (l : list A) (i : nat) : res A :=
  match nth_error l i with
  | Some x => Ok x
  | None => Raise IndexError
  end.

Notation "l .[ i ]" := (getitem l i) (at level 1, format "l .[ i ]").

(** [random.choice(seq)]: an element of [seq], [IndexError] on an empty one. *)
Definition random_choice {A : Type} (seq : list A) : M A :=
  match seq with
  | [] => lift (Raise IndexError)
  | _ => r <- next_rand ;; lift seq.[r mod length seq]
  end.

(** [random.randint(a, b)], that is [randrange(a, b + 1)]: a number of
    [a..b], [ValueError] on an empty range.  The message is that of
    Python 3.11, which shows the start, the stop and their difference. *)
Definition random_randint (a b : nat) : M nat :=
  if b <? a then
    let width := if a =? b + 1 then "0"
                 else "-" ++ NilEmpty.string_of_uint (Nat.to_uint (a - (b + 1))) in
    lift (Raise (ValueError
      ("empty range for randrange() ("
       ++ NilEmpty.string_of_uint (Nat.to_uint a) ++ ", "
       ++ NilEmpty.string_of_uint (Nat.to_uint (b + 1)) ++ ", " ++ width ++ ")")))
  else r <- next_rand ;; ret (a + r mod (b - a + 1)).

Fixpoint remove_nth {A : Type} (i : nat) (l : list A) : list A :=
  match l, i with
  | [], _ => []
  | _ :: r, 0 => r
  | x :: r, S i' => x :: remove_nth i' r
  end.

(** [random.sample(population, k)]: [k] elements at pairwise distinct
    positions, in the order drawn. *)
Fixpoint random_sample {A : Type} (population : list A) (k : nat) : M (list A) :=
  match k with
  | 0 => ret []
  | S k' =>
      match population with
      | [] => lift (Raise (ValueError "Sample larger than population or is negative"))
      | _ =>
          r <- next_rand ;;
          let i := r mod length population in
          x <- lift population.[i] ;;
          rest <- random_sample (remove_nth i population) k' ;;
          ret (x :: rest)
      end
  end.

(** [random.random() < 0.5] *)
Definition random_lt_half : M bool := r <- next_rand ;; ret (Nat.even r).

(** ** Dictionaries: insertion-ordered, one entry per key *)

Definition dict (V : Type) : Type := list (string * V).

Fixpoint dict_get {V : Type} (d : dict V) (k : string) : option V :=
  match d with
  | [] => None
  | (k', v) :: r => if String.eqb k' k then Some v else dict_get r k
  end.

(** [d[k]] *)
Definition dict_getitem {V : Type} (d : dict V) (k : string) : res V :=
  match dict_get d k with
  | Some v => Ok v
  | None => Raise (KeyError k)
  end.

(** [d[k] = v]: an existing key keeps its place, a new one goes last. *)
Fixpoint dict_set {V : Type} (d : dict V) (k : string) (v : V) : dict V :=
  match d with
  | [] => [(k, v)]
  | (k', v') :: r =>
      if String.eqb k' k then (k, v) :: r else (k', v') :: dict_set r k v
  end.

Definition dict_keys {V : Type} (d : dict V) : list string := map fst d.
Definition dict_values {V : Type} (d : dict V) : list V := map snd d.

(** [k in d] *)
Definition dict_mem {V : Type} (k : string) (d : dict V) : bool :=
  match dict_get d k with Some _ => true | None => false end.

(** [{f(x): g(x) for x in l}] *)
Definition dict_of {A V : Type} (f : A -> string) (g : A -> V) (l : list A) : dict V :=
  fold_left (fun d x => dict_set d (f x) (g x)) l [].

(** ** The NLTK services *)

Class NLP : Type := {
  (** [nltk.word_tokenize] *)
  word_tokenize : string -> list string;
  (** [nltk.pos_tag]: the tokens paired with their part-of-speech tags *)
  pos_tag : list string -> list (string * string);
  (** [WordNetLemmatizer().lemmatize(word, pos)] *)
  lemmatize : string -> string -> string;
  (** [TreebankWordDetokenizer().detokenize] *)
  detokenize : list string -> string;
  (** the tagger returns the tokens it was given, each with one tag *)
  pos_tag_tokens : forall toks, map fst (pos_tag toks) = toks
}.

(** [string.punctuation] as a string; the second character is the double
    quote (code 34). *)
Definition string_punctuation : string :=
  "!" ++ String (ascii_of_nat 34) "#$%&'()*+,-./:;<=>?@[\]^_`{|}~".

Definition _REQUIRES_GERUND : list string :=
  ["avoid"; "keep"; "stop"; "start"; "finish";
   "by"; "while"; "after"; "before"; "until"].

(** The last three entries are the em dash, the en dash and the ellipsis. *)
Definition _PUNCT : list string :=
  ["."; ","; ";"; ":"; "!"; "?"; "—"; "-"; "–"; "…"].

(** [_PLACEHOLDER_RE.match(tok)] for [^prop_\d+$] on ASCII text: "prop_",
    one or more digits, then the end of the string or a line feed that ends
    it. *)
Definition _PLACEHOLDER_RE (tok : string) : bool :=
  String.prefix "prop_" tok &&
  (let rest := String.substring 5 (String.length tok - 5) tok in
   let digits := PyStr.rstrip_one_newline rest in
   negb (String.eqb digits "") && PyStr.all_chars PyStr.is_digit digits).

(** [_same_word]: the tokens match literally or by verb lemma. *)
Definition _same_word `{NLP} (sent_tok targ_tok : string) : bool :=
  let s := PyStr.lower (PyStr.rstrip PyStr.is_punct sent_tok) in
  let t := PyStr.lower targ_tok in
  String.eqb s t || String.eqb (lemmatize s "v") t.

(** ** String formatting *)

(** [fmt.format( *args)] for a format string whose only replacement fields
    are [{}], as those of the catalog are: the fields take the arguments in
    order, arguments left over are ignored, a field without an argument
    raises [IndexError].  Any other use of a brace is reported as a
    [ValueError] (Python has more field syntax; the catalog uses none). *)
Fixpoint py_format (fmt : string) (args : list string) : res string :=
  match fmt with
  | EmptyString => Ok EmptyString
  | String ch rest =>
      if Ascii.eqb ch "{" then
        match rest with
        | String ch2 rest2 =>
            if Ascii.eqb ch2 "}" then
              match args with
              | a :: args' => s <~ py_format rest2 args' ;; Ok (a ++ s)
              | [] => Raise IndexError
              end
            else Raise (ValueError "unsupported replacement field")
        | EmptyString => Raise (ValueError "Single '{' encountered in format string")
        end
      else if Ascii.eqb ch "}" then
        Raise (ValueError "Single '}' encountered in format string")
      else s <~ py_format rest args ;; Ok (String ch s)
  end.

(** An f-string, or [fmt.format(P[i], P[j], ...)]: the indexed arguments
    are evaluated from left to right, then formatted. *)
Definition fstr (fmt : string) (idx : list nat) (P : list string) : res string :=
  args <~ rmap (getitem P) idx ;; py_format fmt args.

(** ** LTL skeletons (source lines 108-117 and 442-593) *)

Definition skeleton : Type := list string -> res (list string).

(** [lambda P: fmt.format( *P).split()] *)
Definition format_all (fmt : string) : skeleton :=
  fun P => s <~ py_format fmt P ;; Ok (PyStr.split s).

(** [lambda P: fmt.format(P[i], ...).split()], also for an f-string *)
Definition format_at (fmt : string) (idx : list nat) : skeleton :=
  fun P => s <~ fstr fmt idx P ;; Ok (PyStr.split s).

Definition BASE_LTL_TEMPLATES_STATE : list (string * nat * skeleton) :=
  [ ("F_NOT", 1, fun P => p0 <~ P.[0] ;; Ok ["finally"; "("; "not"; p0; ")"]);
    ("G_NOT", 1, fun P => p0 <~ P.[0] ;; Ok ["globally"; "("; "not"; p0; ")"]);
    ("F_AND", 2, fun P => p0 <~ P.[0] ;; p1 <~ P.[1] ;;
                          Ok ["finally"; "("; p0; "and"; p1; ")"]);
    ("G_AND", 2, fun P => p0 <~ P.[0] ;; p1 <~ P.[1] ;;
                          Ok ["globally"; "("; p0; "and"; p1; ")"]);
    ("F_OR", 2, fun P => p0 <~ P.[0] ;; p1 <~ P.[1] ;;
                         Ok ["finally"; "("; p0; "or"; p1; ")"]);
    ("G_OR", 2, fun P => p0 <~ P.[0] ;; p1 <~ P.[1] ;;
                         Ok ["globally"; "("; p0; "or"; p1; ")"]);
    ("X", 1, fun P => p0 <~ P.[0] ;; Ok ["next"; p0]);
    ("U", 2, fun P => p0 <~ P.[0] ;; p1 <~ P.[1] ;;
                      Ok ["("; p0; "until"; p1; ")"]) ].

Definition ADDITIONAL_LTL_TEMPLATES_STATE : list (string * nat * skeleton) :=
  [ ("G_IMPL_F", 2, format_all "globally ( {} implies finally {} )");
    ("G_NOT_AND", 2, format_all "globally ( not ( {} and {} ) )");
    ("G_IMPL_XXX", 2,
       format_all "globally ( {} implies next ( next ( next {} ) ) )");
    ("U_GF", 2, format_all "{} until ( globally ( finally {} ) )");
    ("F_B_IMPL_A_BEFORE", 2,
       format_at "( finally {} ) implies ( not {} until ( {} and not {} ) )"
                 [1; 1; 0; 1]);
    ("G_IMPL", 2, format_all "globally ( {} implies {} )");
    ("G_AND_PAIR", 2, format_all "globally ( {} and {} )");
    ("G_A_AND_G_B_IMPL_NOT_C", 3,
       format_at "globally {} and globally ( {} implies not {} )" [0; 1; 2]);
    ("G_IMPL_F_IMPL_GF", 3,
       format_at "globally ( {} implies finally {} ) implies globally finally {}"
                 [0; 1; 2]);
    ("GF_IMPL_GF", 2, format_all "globally finally {} implies globally finally {}");
    ("GF_OR_GF", 2, format_all "globally finally {} or globally finally {}");
    ("FG_NOT", 1, format_at "finally globally not {}" [0]);
    ("G_NOT_AND_IMPL_F", 3,
       format_all "globally ( not ( {} and {} ) implies finally {} )");
    ("EXCLUSIVE_ALWAYS_ONE", 2,
       format_at "globally ( not ( {} and {} ) ) and globally ( {} or {} )"
                 [0; 1; 0; 1]);
    ("G_EQ_IMPL_EQ", 3,
       format_at
         "globally ( ( {} double_implies {} ) implies ( {} double_implies {} ) )"
         [0; 1; 1; 2]);
    ("NOT_A_UNTIL_B", 2, format_all "not {} until {}");
    ("G_A_IMPL_XG_NOT_B", 2,
       format_all "globally ( {} implies next globally not {} )");
    ("A_RELEASES_B", 2,
       format_at "( {} until ( {} and not {} ) ) or globally {}" [1; 1; 0; 1]);
    ("G_NOT_AND_ALT", 2, format_all "globally not ( {} and {} )");
    ("TWO_STEP_TRIGGER", 3,
       format_all "globally ( {} and next {} implies next next {} )");
    ("NEXT_EVENTUAL", 2, format_all "globally ( {} implies next finally {} )");
    ("EVERY_FIFTH_STEP", 1,
       format_at
         ("{} and " ++
          "globally ( " ++
          "{} implies next not {} and next next not {} and " ++
          "next next next not {} and next next next next not {} and " ++
          "next next next next next {} )")
         [0; 0; 0; 0; 0; 0; 0]);
    ("GF_A_OR_NEXT_B", 2, format_all "globally finally {} or next {}");
    ("G_ALWAYS_A", 1, format_at "globally {}" [0]);
    ("A_IMPL_B_WITHIN_1", 2,
       format_at "globally ( {} implies ( {} or next {} ) )" [0; 1; 1]);
    ("G_ONE_OF_ABC", 3, format_all "globally ( {} or {} or {} )");
    ("A_IMPL_EVENTUAL_B", 2, format_all "globally ( {} implies finally {} )");
    ("ALMOST_ALWAYS_A", 1,
       format_at "not globally ( not ( {} and next {} ) )" [0; 0]);
    ("NOT_A_AT_MOST_TWO", 1,
       format_at "not globally ( not ( {} and next {} ) )" [0; 0]);
    ("A_EVERY_THIRD_STEP", 1,
       format_at
         "globally ( {} implies ( next not {} or next next not {} or next next next {} ) )"
         [0; 0; 0; 0]);
    ("NEXT_FOLLOW", 2, format_all "globally ( {} implies next {} )");
    ("EVENTUALLY_BOTH", 2, format_all "finally ( {} and {} )");
    ("BOTH_EVENTUAL", 2, format_all "finally {} and finally {}");
    ("STEPWISE_EQUALITY", 2, format_all "globally ( {} double_implies next {} )");
    ("RESPONSE_UNTIL_OR_ALWAYS", 3,
       format_at "{} implies next ( ( {} until {} ) or globally {} )"
                 [1; 2; 0; 2]);
    ("UNTIL_OR_ALWAYS", 2,
       format_at "( {} until {} ) or globally {}" [0; 1; 0]) ].

(** [LTL_TEMPLATES_STATE] after [extend] (source line 637). *)
Definition LTL_TEMPLATES_STATE : list (string * nat * skeleton) :=
  (BASE_LTL_TEMPLATES_STATE ++ ADDITIONAL_LTL_TEMPLATES_STATE)%list.

(** ** Natural-language templates (source lines 119-135 and 598-639) *)

Definition sentence_template : Type := list string -> res string.

Definition BASE_SEMANTIC_TEMPLATES : dict (list sentence_template) :=
  [ ("F_NOT", [fstr "eventually, avoid {}." [0]]);
    ("G_NOT", [fstr "always avoid {}." [0]]);
    ("F_AND", [fstr "eventually {} and {}." [0; 1]]);
    ("G_AND", [fstr "always maintain both {} and {}." [0; 1]]);
    ("F_OR", [fstr "eventually {} or {}." [0; 1]]);
    ("G_OR", [fstr "always have either {} or {}." [0; 1]]);
    ("NOT", [fstr "never {}." [0]; fstr "avoid {} at all costs." [0]]);
    ("AND", [fstr "{} and {}." [0; 1]; fstr "ensure both {} and {}." [0; 1]]);
    ("OR", [fstr "{} or {}." [0; 1]]) ].

Definition ADDITIONAL_SEMANTIC_TEMPLATES : dict (list sentence_template) :=
  [ ("G_IMPL_F", [fstr "Globally, if {} occurs then finally {} happens." [0; 1]]);
    ("G_NOT_AND",
       [fstr "Globally, it is not the case that both {} and {} hold simultaneously."
             [0; 1]]);
    ("G_IMPL_XXX",
       [fstr "Whenever {} holds, {} holds exactly three steps later." [0; 1]]);
    ("U_GF",
       [fstr "{} must keep holding until, from some point on, {} holds infinitely often."
             [0; 1]]);
    ("F_B_IMPL_A_BEFORE",
       [fstr "If {} ever holds, {} must have held beforehand." [1; 0]]);
    ("G_IMPL", [fstr "Whenever {} holds, {} holds as well." [0; 1]]);
    ("G_AND_PAIR", [fstr "Both {} and {} hold at every step." [0; 1]]);
    ("G_A_AND_G_B_IMPL_NOT_C",
       [fstr "{} holds always, and whenever {} holds, {} does not." [0; 1; 2]]);
    ("G_IMPL_F_IMPL_GF",
       [fstr "If every {} is eventually followed by {}, then {} must occur infinitely often."
             [0; 1; 2]]);
    ("GF_IMPL_GF",
       [fstr "If {} happens infinitely often, then so does {}." [0; 1]]);
    ("GF_OR_GF", [fstr "Either {} or {} happens infinitely often." [0; 1]]);
    ("FG_NOT", [fstr "From some point onwards, {} never occurs again." [0]]);
    ("G_NOT_AND_IMPL_F",
       [fstr "Whenever neither {} nor {} holds, {} eventually holds." [0; 1; 2]]);
    ("EXCLUSIVE_ALWAYS_ONE",
       [fstr "{} and {} never coincide, yet one of them is always true." [0; 1]]);
    ("G_EQ_IMPL_EQ",
       [fstr "Whenever {} and {} are equal, {} and {} are equal as well."
             [0; 1; 1; 2]]);
    ("NOT_A_UNTIL_B", [fstr "{} can only happen after {}." [0; 1]]);
    ("G_A_IMPL_XG_NOT_B",
       [fstr "Once {} has occurred, {} will never occur again." [0; 1]]);
    ("A_RELEASES_B",
       [fstr "{} releases {} — after {} ends, {} must hold continuously."
             [0; 1; 0; 1]]);
    ("G_NOT_AND_ALT",
       [fstr "{} and {} are mutually exclusive at all times." [0; 1]]);
    ("TWO_STEP_TRIGGER",
       [fstr "If {} holds and {} holds next, then {} holds in the step after that."
             [0; 1; 2]]);
    ("NEXT_EVENTUAL",
       [fstr "Whenever {} holds, from the next step onwards {} will eventually hold."
             [0; 1]]);
    ("EVERY_FIFTH_STEP", [fstr "{} holds exactly every fifth step." [0]]);
    ("GF_A_OR_NEXT_B",
       [fstr "Either {} happens infinitely often, or {} happens in the next step."
             [0; 1]]);
    ("G_ALWAYS_A", [fstr "{} holds at all times." [0]]);
    ("A_IMPL_B_WITHIN_1",
       [fstr "When {} happens, {} must hold now or in the next step." [0; 1]]);
    ("G_ONE_OF_ABC",
       [fstr "At every moment, at least one of {}, {}, or {} holds." [0; 1; 2]]);
    ("A_IMPL_EVENTUAL_B",
       [fstr "Whenever {} holds, eventually {} will hold." [0; 1]]);
    ("ALMOST_ALWAYS_A",
       [fstr "{} should always hold, with at most a two-step grace period for recovery."
             [0]]);
    ("NOT_A_AT_MOST_TWO",
       [fstr "Not {} may last at most two consecutive steps." [0]]);
    ("A_EVERY_THIRD_STEP",
       [fstr "{} occurs at most once every three steps." [0]]);
    ("NEXT_FOLLOW",
       [fstr "Every {} is directly followed by {} in the next step." [0; 1]]);
    ("EVENTUALLY_BOTH",
       [fstr "Eventually, both {} and {} hold simultaneously." [0; 1]]);
    ("BOTH_EVENTUAL", [fstr "{} and {} will each happen at some point." [0; 1]]);
    ("STEPWISE_EQUALITY",
       [fstr "At every step, {} equals the value of {} in the next step." [0; 1]]);
    ("RESPONSE_UNTIL_OR_ALWAYS",
       [fstr "If {} holds, then in the next step {} persists until {} holds, or else {} holds forever."
             [1; 2; 0; 2]]);
    ("UNTIL_OR_ALWAYS",
       [fstr "{} must hold until {} does, or else {} holds forever." [0; 1; 0]]) ].

(** [SEMANTIC_TEMPLATES] after the loop of source lines 638-639:
    [setdefault(k, []).extend(v)] for each additional key. *)
Definition SEMANTIC_TEMPLATES : dict (list sentence_template) :=
  fold_left
    (fun d kv =>
       let old := match dict_get d (fst kv) with Some l => l | None => [] end in
       dict_set d (fst kv) (old ++ snd kv)%list)
    ADDITIONAL_SEMANTIC_TEMPLATES BASE_SEMANTIC_TEMPLATES.

Definition GENERIC_TEMPLATES : list sentence_template :=
  [ (fun s => Ok ("In this task, " ++ PyStr.join ", then " s ++ "."));
    (fun s => Ok ("Please " ++ PyStr.join " and then " s ++ ".")) ].

Definition VERB_LIKE_STARTS : list string :=
  ["never"; "avoid"; "always"; "grab"; "ensure"; "please";
   "eventually"; "do"; "keep"; "ultimately"; "make"].

Definition EGO_REFS : list string :=
  ["The robot"; "You"; "Our agent"; "The system"; "This controller"].

(** ** Trace builders (source lines 143-438) *)

(** A moment is the list of the atoms true at it; a trace is a list of
    moments. *)
Definition moment : Type := list string.
Definition trace : Type := list moment.

Definition _trace_for_NOT (p : string) (good : bool) : trace :=
  if good then [[]] else [[p]].

Definition _trace_for_F_NOT (p : string) (good : bool) : trace :=
  if good then [[p]; []; []] else repeat [p] 3.

Definition _trace_for_G_NOT (p : string) (good : bool) : trace :=
  if good then repeat [] 3 else ([[p]] ++ repeat [] 2)%list.

Definition _trace_for_X (p : string) (good : bool) : trace :=
  if good then [[]; [p]] else [[p]].

Definition _trace_for_NOT_A_UNTIL_B (a b : string) (good : bool) : trace :=
  if good then [[]; []; [b]] else repeat [a] 3.

Definition _trace_for_F_AND (p q : string) (good : bool) : trace :=
  if good then [[]; [p]; [p; q]] else [[]; [p]; []].

Definition _trace_for_G_AND (p q : string) (good : bool) : trace :=
  if good then repeat [p; q] 3 else [[p]; [p]; [q]].

Definition _trace_for_F_OR (p q : string) (good : bool) : trace :=
  if good then [[]; [p]] else repeat [] 3.

Definition _trace_for_G_OR (p q : string) (good : bool) : trace :=
  if good then [[p]; [q]; [p]] else [[p]; []; []].

Definition _trace_for_AND (p q : string) (good : bool) : trace :=
  if good then [[p; q]] else [[p]].

Definition _trace_for_OR (p q : string) (good : bool) : trace :=
  if good then [[p]] else [[]].

Definition trace_builder : Type := list string -> bool -> res trace.

(** The entry "G_NOT_AND", which "G_NOT_AND_ALT" looks up when called. *)
Definition build_G_NOT_AND : trace_builder :=
  fun (L : list string) (g : bool) =>
    if g then a <~ L.[0] ;; b <~ L.[1] ;; Ok [[a]; [b]; []]
    else a <~ L.[0] ;; b <~ L.[1] ;; Ok [[a; b]].

(** [_TRACE_BUILDERS] after [update] (source lines 198-425).  In each entry
    the elements of [L] are read in the order in which the Python
    expression reads them, and only those of the branch taken. *)
Definition _TRACE_BUILDERS : dict trace_builder :=
  [ ("NOT", fun (L : list string) (g : bool) => p <~ L.[0] ;; Ok (_trace_for_NOT p g));
    ("F_NOT", fun (L : list string) (g : bool) => p <~ L.[0] ;; Ok (_trace_for_F_NOT p g));
    ("G_NOT", fun (L : list string) (g : bool) => p <~ L.[0] ;; Ok (_trace_for_G_NOT p g));
    ("X", fun (L : list string) (g : bool) => p <~ L.[0] ;; Ok (_trace_for_X p g));
    ("NOT_A_UNTIL_B",
       fun (L : list string) (g : bool) => a <~ L.[0] ;; b <~ L.[1] ;; Ok (_trace_for_NOT_A_UNTIL_B a b g));
    ("F_AND", fun (L : list string) (g : bool) => p <~ L.[0] ;; q <~ L.[1] ;; Ok (_trace_for_F_AND p q g));
    ("G_AND", fun (L : list string) (g : bool) => p <~ L.[0] ;; q <~ L.[1] ;; Ok (_trace_for_G_AND p q g));
    ("F_OR", fun (L : list string) (g : bool) => p <~ L.[0] ;; q <~ L.[1] ;; Ok (_trace_for_F_OR p q g));
    ("G_OR", fun (L : list string) (g : bool) => p <~ L.[0] ;; q <~ L.[1] ;; Ok (_trace_for_G_OR p q g));
    ("AND", fun (L : list string) (g : bool) => p <~ L.[0] ;; q <~ L.[1] ;; Ok (_trace_for_AND p q g));
    ("OR", fun (L : list string) (g : bool) => p <~ L.[0] ;; q <~ L.[1] ;; Ok (_trace_for_OR p q g));
    (* 1  G(a => F b) *)
    ("G_IMPL_F", fun (L : list string) (g : bool) =>
       if g then a <~ L.[0] ;; b <~ L.[1] ;; Ok [[a]; []; [b]]
       else a <~ L.[0] ;; Ok [[a]; []; []]);
    (* 2  G not(a and b) *)
    ("G_NOT_AND", build_G_NOT_AND);
    (* 3  G(a => XXX b) *)
    ("G_IMPL_XXX", fun (L : list string) (g : bool) =>
       if g then a <~ L.[0] ;; b <~ L.[1] ;; Ok [[a]; []; []; [b]]
       else a <~ L.[0] ;; Ok [[a]; []; []; []]);
    (* 4  a U (GF b) *)
    ("U_GF", fun (L : list string) (g : bool) =>
       if g then a <~ L.[0] ;; a' <~ L.[0] ;; b <~ L.[1] ;; Ok [[a]; [a']; [b]]
       else a <~ L.[0] ;; Ok (repeat [a] 3));
    (* 5  (F b) => (not b U (a and not b)) *)
    ("F_B_IMPL_A_BEFORE", fun (L : list string) (g : bool) =>
       if g then a <~ L.[0] ;; b <~ L.[1] ;; Ok [[a]; [b]]
       else b <~ L.[1] ;; Ok [[b]]);
    (* 6  G(a => b) *)
    ("G_IMPL", fun (L : list string) (g : bool) =>
       if g then a <~ L.[0] ;; b <~ L.[1] ;; b' <~ L.[1] ;; Ok [[a; b]; [b']]
       else a <~ L.[0] ;; Ok [[a]; []]);
    (* 7  G(a and b) *)
    ("G_AND_PAIR", fun (L : list string) (g : bool) =>
       if g then a <~ L.[0] ;; b <~ L.[1] ;; Ok [[a; b]]
       else a <~ L.[0] ;; Ok [[a]; []]);
    (* 8  G a  and  G(b => not c) *)
    ("G_A_AND_G_B_IMPL_NOT_C", fun (L : list string) (g : bool) =>
       if g then a <~ L.[0] ;; a' <~ L.[0] ;; b <~ L.[1] ;; a'' <~ L.[0] ;;
                 Ok [[a]; [a'; b]; [a'']]
       else a <~ L.[0] ;; c <~ L.[2] ;; Ok [[a; c]]);
    (* 9  (G(a => F b)) => G F c *)
    ("G_IMPL_F_IMPL_GF", fun (L : list string) (g : bool) =>
       if g then a <~ L.[0] ;; b <~ L.[1] ;; c <~ L.[2] ;; Ok [[a]; [b; c]]
       else a <~ L.[0] ;; b <~ L.[1] ;; Ok [[a]; [b]]);
    (* 10 GF a => GF b *)
    ("GF_IMPL_GF", fun (L : list string) (g : bool) =>
       if g then (Ok [[]] : res trace)
       else a <~ L.[0] ;; Ok [[a]]);
    (* 11 GF a or GF b *)
    ("GF_OR_GF", fun (L : list string) (g : bool) =>
       if g then a <~ L.[0] ;; Ok [[a]]
       else Ok [[]]);
    (* 12 F G not a *)
    ("FG_NOT", fun (L : list string) (g : bool) =>
       if g then a <~ L.[0] ;; Ok [[a]; []; []]
       else a <~ L.[0] ;; a' <~ L.[0] ;; Ok [[a]; []; [a']]);
    (* 13 G(not(a and b) => F c) *)
    ("G_NOT_AND_IMPL_F", fun (L : list string) (g : bool) =>
       if g then a <~ L.[0] ;; b <~ L.[1] ;; Ok [[a; b]]
       else Ok [[]]);
    (* 14 not(a and b)  &  G(a or b) *)
    ("EXCLUSIVE_ALWAYS_ONE", fun (L : list string) (g : bool) =>
       if g then a <~ L.[0] ;; b <~ L.[1] ;; a' <~ L.[0] ;; Ok [[a]; [b]; [a']]
       else Ok [[]; []]);
    (* 15 G((a <-> b) => (b <-> c)) *)
    ("G_EQ_IMPL_EQ", fun (L : list string) (g : bool) =>
       if g then a <~ L.[0] ;; b <~ L.[1] ;; c <~ L.[2] ;; Ok [[a; b; c]]
       else a <~ L.[0] ;; b <~ L.[1] ;; Ok [[a; b]]);
    (* 17 G(a => X G not b) *)
    ("G_A_IMPL_XG_NOT_B", fun (L : list string) (g : bool) =>
       if g then a <~ L.[0] ;; Ok [[a]; []; []]
       else a <~ L.[0] ;; b <~ L.[1] ;; Ok [[a]; []; [b]]);
    (* 18 a releases b *)
    ("A_RELEASES_B", fun (L : list string) (g : bool) =>
       if g then b <~ L.[1] ;; Ok [[b]]
       else b <~ L.[1] ;; Ok [[b]; []]);
    (* 19 same as G_NOT_AND *)
    ("G_NOT_AND_ALT", fun (L : list string) (g : bool) => build_G_NOT_AND L g);
    (* 20 G(a and X b => X X c) *)
    ("TWO_STEP_TRIGGER", fun (L : list string) (g : bool) =>
       if g then a <~ L.[0] ;; b <~ L.[1] ;; c <~ L.[2] ;; Ok [[a]; [b]; [c]]
       else a <~ L.[0] ;; b <~ L.[1] ;; Ok [[a]; [b]; []]);
    (* 21 G(a => X F b) *)
    ("NEXT_EVENTUAL", fun (L : list string) (g : bool) =>
       if g then a <~ L.[0] ;; b <~ L.[1] ;; Ok [[a]; []; [b]]
       else a <~ L.[0] ;; Ok [[a]; []; []]);
    (* 22 every fifth step a *)
    ("EVERY_FIFTH_STEP", fun (L : list string) (g : bool) =>
       if g then a <~ L.[0] ;; a' <~ L.[0] ;; Ok [[a]; []; []; []; []; [a']]
       else a <~ L.[0] ;; a' <~ L.[0] ;; Ok [[a]; []; []; [a']]);
    (* 23 GF a or X b *)
    ("GF_A_OR_NEXT_B", fun (L : list string) (g : bool) =>
       if g then a <~ L.[0] ;; Ok [[a]]
       else Ok [[]; []]);
    (* 24 G a *)
    ("G_ALWAYS_A", fun (L : list string) (g : bool) =>
       if g then a <~ L.[0] ;; Ok [[a]]
       else a <~ L.[0] ;; Ok [[a]; []]);
    (* 25 G(a => (b or X b)) *)
    ("A_IMPL_B_WITHIN_1", fun (L : list string) (g : bool) =>
       if g then a <~ L.[0] ;; b <~ L.[1] ;; Ok [[a; b]]
       else a <~ L.[0] ;; Ok [[a]; []]);
    (* 26 G(a or b or c) *)
    ("G_ONE_OF_ABC", fun (L : list string) (g : bool) =>
       if g then a <~ L.[0] ;; b <~ L.[1] ;; c <~ L.[2] ;; Ok [[a]; [b]; [c]]
       else Ok [[]]);
    (* 27 G(a => F b) *)
    ("A_IMPL_EVENTUAL_B", fun (L : list string) (g : bool) =>
       if g then a <~ L.[0] ;; b <~ L.[1] ;; Ok [[a]; []; [b]]
       else a <~ L.[0] ;; Ok [[a]; []; []]);
    (* 28 almost always a *)
    ("ALMOST_ALWAYS_A", fun (L : list string) (g : bool) =>
       if g then a <~ L.[0] ;; a' <~ L.[0] ;; Ok [[a]; []; [a']]
       else a <~ L.[0] ;; Ok [[a]; []; []; []]);
    (* 29 not a for at most two ticks *)
    ("NOT_A_AT_MOST_TWO", fun (L : list string) (g : bool) =>
       if g then a <~ L.[0] ;; a' <~ L.[0] ;; Ok [[a]; []; []; [a']]
       else a <~ L.[0] ;; a' <~ L.[0] ;; Ok [[a]; []; []; []; [a']]);
    (* 30 a every third tick *)
    ("A_EVERY_THIRD_STEP", fun (L : list string) (g : bool) =>
       if g then a <~ L.[0] ;; a' <~ L.[0] ;; Ok [[a]; []; []; [a']]
       else a <~ L.[0] ;; a' <~ L.[0] ;; Ok [[a]; []; [a']]);
    (* 31 G(a => X b) *)
    ("NEXT_FOLLOW", fun (L : list string) (g : bool) =>
       if g then a <~ L.[0] ;; b <~ L.[1] ;; Ok [[a]; [b]]
       else a <~ L.[0] ;; Ok [[a]; []]);
    (* 32 F(a and b) *)
    ("EVENTUALLY_BOTH", fun (L : list string) (g : bool) =>
       if g then a <~ L.[0] ;; b <~ L.[1] ;; Ok [[a; b]]
       else Ok [[]; []; []]);
    (* 33 F a and F b *)
    ("BOTH_EVENTUAL", fun (L : list string) (g : bool) =>
       if g then a <~ L.[0] ;; b <~ L.[1] ;; Ok [[a]; [b]]
       else Ok [[]; []; []]);
    (* 34 G(a <-> X b) *)
    ("STEPWISE_EQUALITY", fun (L : list string) (g : bool) =>
       if g then a <~ L.[0] ;; b <~ L.[1] ;; Ok [[a]; [b]]
       else a <~ L.[0] ;; Ok [[a]; []]);
    (* 35 b => X((c U a) or G c) *)
    ("RESPONSE_UNTIL_OR_ALWAYS", fun (L : list string) (g : bool) =>
       if g then b <~ L.[1] ;; c <~ L.[2] ;; c' <~ L.[2] ;; a <~ L.[0] ;;
                 Ok [[b]; [c]; [c']; [a]]
       else b <~ L.[1] ;; Ok [[b]; []]);
    (* 36 (a U b) or G a *)
    ("UNTIL_OR_ALWAYS", fun (L : list string) (g : bool) =>
       if g then a <~ L.[0] ;; a' <~ L.[0] ;; b <~ L.[1] ;; Ok [[a]; [a']; [b]]
       else Ok [[]; []]) ].

(** [_make_traces]: the hand-written pair when the key has a builder, and
    otherwise every atom true at the first moment against three empty
    moments. *)
Definition _make_traces (key : string) (labels : list string) : res (trace * trace) :=
  if dict_mem key _TRACE_BUILDERS then
    b <~ dict_getitem _TRACE_BUILDERS key ;;
    good <~ b labels true ;;
    b' <~ dict_getitem _TRACE_BUILDERS key ;;
    bad <~ b' labels false ;;
    Ok (good, bad)
  else
    Ok ([labels], repeat [] 3).

(** ** Sentence utilities (source lines 644-685) *)

(** [l[i] = v] for an index inside the list (every assignment of the
    generator is: see the comment at each use). *)
Fixpoint set_nth {A : Type} (i : nat) (v : A) (l : list A) : list A :=
  match l, i with
  | [], _ => []
  | _ :: r, 0 => v :: r
  | x :: r, S i' => x :: set_nth i' v r
  end.

Definition add_ego_reference (sentence ego : string) : res string :=
  w <~ (PyStr.split sentence).[0] ;;
  let first := PyStr.lower (PyStr.filter_chars PyStr.is_alpha w) in
  if PyStr.mem first VERB_LIKE_STARTS
  then Ok (ego ++ " must " ++ sentence)
  else Ok sentence.

(** The inner loop [while j < len(tags) and tags[j][0] in _PUNCT: j += 1]:
    [count_punct] counts the punctuation tokens a list of tags starts with. *)
Fixpoint count_punct (tags : list (string * string)) : nat :=
  match tags with
  | (t, _) :: r => if PyStr.mem t _PUNCT then S (count_punct r) else 0
  | [] => 0
  end.

Definition skip_punct (tags : list (string * string)) (j : nat) : nat :=
  j + count_punct (skipn j tags).

Definition gerund_tags : list string := ["VB"; "VBP"; "NN"; "NNS"].

(** One turn of the gerund loop, at index [i].  The assignment [toks[j]]
    is inside the list: [j < len(tags)], and [pos_tag] returns one tag per
    token. *)
Definition gerund_step (tags : list (string * string)) (toks : list string)
  (i : nat) : list string :=
  match nth_error tags i with
  | Some (tok, _) =>
      if PyStr.mem (PyStr.lower tok) _REQUIRES_GERUND then
        let j := skip_punct tags (i + 1) in
        match nth_error tags j with
        | Some (nxt_tok, nxt_tag) =>
            if _PLACEHOLDER_RE nxt_tok
               || PyStr.endswith (PyStr.lower nxt_tok) "ing"
            then toks
            else if PyStr.mem nxt_tag gerund_tags
                 then set_nth j (_to_gerund (PyStr.lower nxt_tok)) toks
                 else toks
        | None => toks
        end
      else toks
  | None => toks
  end.

(** The gerund loop: [i] runs over [0 .. len(tags) - 2]. *)
Definition gerund_pass (tags : list (string * string)) (toks : list string)
  : list string :=
  fold_left (gerund_step tags) (seq 0 (length tags - 1)) toks.

(** [toks[0] = toks[0].capitalize()] when [toks] is not empty. *)
Definition capitalize_first (toks : list string) : list string :=
  match toks with
  | [] => []
  | t :: r => PyStr.capitalize t :: r
  end.

(** The loop over [enumerate(toks[:-1])]: the token after a full stop, an
    exclamation mark or a question mark is capitalized.  The tokens tested
    are those of the copy [toks[:-1]] made before the loop. *)
Definition capitalize_after_stops (toks : list string) : list string :=
  fold_left
    (fun cur kt =>
       if PyStr.mem (snd kt) ["."; "!"; "?"]
       then match nth_error cur (fst kt + 1) with
            | Some w => set_nth (fst kt + 1) (PyStr.capitalize w) cur
            | None => cur
            end
       else cur)
    (combine (seq 0 (length toks)) (removelast toks))
    toks.

Definition correct_sentence `{NLP} (sentence : string) : string :=
  let toks := word_tokenize sentence in
  let tags := pos_tag toks in
  let toks := gerund_pass tags toks in
  let toks := map (fun t => if String.eqb t "i" then "I" else t) toks in
  let toks := capitalize_first toks in
  let toks := capitalize_after_stops toks in
  detokenize toks.

Definition pick_sentence_template (key : string) : M sentence_template :=
  random_choice
    (match dict_get SEMANTIC_TEMPLATES key with
     | Some l => l
     | None => GENERIC_TEMPLATES
     end).

(** ** Propositions and entries *)

Record PropInfo : Type := {
  action_canon : string;
  action_ref : string;
  args_canon : list string;
  args_ref : list string
}.

Record Entry : Type := {
  id : nat;
  sentence : list string;
  tl : list string;
  masked_tl : list string;
  grounded_sentence : list string;
  lifted_sentence_prop_ids : list nat;
  prop_dict : dict PropInfo;
  good_trace : trace;
  bad_trace : trace
}.

(** [a, b = l], with the messages of Python 3.11 *)
Definition unpack2 (l : list string) : res (string * string) :=
  match l with
  | [a; b] => Ok (a, b)
  | [] => Raise (ValueError "not enough values to unpack (expected 2, got 0)")
  | [_] => Raise (ValueError "not enough values to unpack (expected 2, got 1)")
  | _ => Raise (ValueError "too many values to unpack (expected 2)")
  end.

Definition list_eqb (l1 l2 : list string) : bool :=
  if list_eq_dec string_dec l1 l2 then true else false.

(** ** Grounding and alignment (source lines 690-838) *)

(** [_atom]: [verb(arg1,...,argk)], or the bare verb without arguments. *)
Definition _atom (info : PropInfo) : string :=
  match args_canon info with
  | [] => action_canon info
  | _ => action_canon info ++ "(" ++ PyStr.join "," (args_canon info) ++ ")"
  end.

(** [actions_cfg] maps a verb to its ["params"] list (the argument kinds). *)
Definition _nl_segment (actions_cfg : dict (list string)) (info : PropInfo)
  : res string :=
  let verb := action_canon info in
  params <~ dict_getitem actions_cfg verb ;;
  let v_ref := action_ref info in
  match params with
  | [] => Ok v_ref
  | _ =>
      if list_eqb params ["item"] || list_eqb params ["person"]
         || list_eqb params ["threat"] || list_eqb params ["target"]
      then obj <~ (args_ref info).[0] ;; Ok (v_ref ++ " the " ++ obj)
      else if list_eqb params ["item"; "location"]
      then '(obj, loc) <~ unpack2 (args_ref info) ;;
           Ok (v_ref ++ " the " ++ obj ++ " to the " ++ loc)
      else if list_eqb params ["traffic_target"; "lane"]
      then '(tgt, lane) <~ unpack2 (args_ref info) ;;
           let prep :=
             if existsb (fun k => PyStr.contains k lane) ["street"; "avenue"; "road"]
             then "on" else "at" in
           Ok (v_ref ++ " the " ++ tgt ++ " " ++ prep ++ " " ++ lane)
      else Ok (v_ref ++ " " ++ PyStr.join " " (args_ref info))
  end.

(** One turn of the loop of source lines 770-774. *)
Definition update_action_ref (g_raw : string) (info : PropInfo) : res PropInfo :=
  bare <~ (PyStr.split (action_ref info)).[0] ;;
  let ger := _to_gerund bare in
  if negb (PyStr.contains bare g_raw) && PyStr.contains ger g_raw
  then Ok {| action_canon := action_canon info;
             action_ref := ger;
             args_canon := args_canon info;
             args_ref := args_ref info |}
  else Ok info.

(** The loop over [props.values()]; the propositions are distinct objects,
    as [build_dataset_entries] creates them. *)
Definition update_action_refs (g_raw : string) (props : dict PropInfo)
  : res (dict PropInfo) :=
  rmap (fun kv => info <~ update_action_ref g_raw (snd kv) ;; Ok (fst kv, info))
       props.

Definition _segment_tokens `{NLP} (actions_cfg : dict (list string))
  (props : dict PropInfo) (lbl : string) : res (list string) :=
  info <~ dict_getitem props lbl ;;
  seg_txt <~ _nl_segment actions_cfg info ;;
  let seg_txt := correct_sentence seg_txt in
  let toks := word_tokenize (PyStr.lower seg_txt) in
  Ok (map (PyStr.rstrip PyStr.is_punct)
          (filter (fun t => negb (PyStr.contains t string_punctuation)) toks)).

(** The test of source lines 805-807 for one label at position [i]. *)
Definition matches_at `{NLP} (g_tok : list string) (i : nat)
  (tok_seq : list string) : bool :=
  let L := length tok_seq in
  (i + L <=? length g_tok) &&
  forallb (fun j => _same_word (nth (i + j) g_tok "") (nth j tok_seq ""))
          (seq 0 L).

(** The [for lbl in labels_used] loop up to its [break]: the first label
    whose tokens match at [i]. *)
Fixpoint first_match `{NLP} (g_tok : list string) (i : nat)
  (seg_tokens : dict (list string)) (labels : list string)
  : res (option (string * list string)) :=
  match labels with
  | [] => Ok None
  | lbl :: rest =>
      tok_seq <~ dict_getitem seg_tokens lbl ;;
      if matches_at g_tok i tok_seq then Ok (Some (lbl, tok_seq))
      else first_match g_tok i seg_tokens rest
  end.

(** [for j in range(L): ids[i + j] = pid]; the indices are inside [ids]
    because the match tested [i + L <= len(g_tok)]. *)
Definition assign_ids (ids : list nat) (i L pid : nat) : list nat :=
  fold_left (fun ids j => set_nth (i + j) pid ids) (seq 0 L) ids.

(** The labelling loop of source lines 799-817. *)
Fixpoint align `{NLP} (fuel : nat) (g_tok labels_used : list string)
  (seg_tokens : dict (list string)) (pid_map : dict nat)
  (mapping : dict string) (i : nat) (ids : list nat) (masked : list string)
  : res (list nat * list string) :=
  match fuel with
  | 0 => Diverge
  | S fuel' =>
      if i <? length g_tok then
        m <~ first_match g_tok i seg_tokens labels_used ;;
        match m with
        | Some (lbl, tok_seq) =>
            let L := length tok_seq in
            pid <~ (match L with
                    | 0 => Ok 0
                    | _ => dict_getitem pid_map lbl
                    end) ;;
            ph <~ dict_getitem mapping lbl ;;
            align fuel' g_tok labels_used seg_tokens pid_map mapping
                  (i + L) (assign_ids ids i L pid) (masked ++ [ph])%list
        | None =>
            w <~ g_tok.[i] ;;
            align fuel' g_tok labels_used seg_tokens pid_map mapping
                  (i + 1) ids (masked ++ [w])%list
        end
      else Ok (ids, masked)
  end.

Definition placeholder (n : nat) : string := "prop_" ++ PyStr.str_of_nat n.

(** [{lbl: i + 1 for i, lbl in enumerate(labels)}] *)
Definition pid_map_of (labels : list string) : dict nat :=
  dict_of snd (fun il : nat * string => fst il + 1)
          (combine (seq 0 (length labels)) labels).

Definition build_entry_for_props `{NLP} (fuel : nat) (idx : nat)
  (props : dict PropInfo) (actions_cfg : dict (list string)) : M Entry :=
  (* 1) pick a skeleton *)
  let arity := length props in
  let exact := filter (fun tpl => snd (fst tpl) =? arity) LTL_TEMPLATES_STATE in
  let viable :=
    match exact with
    | [] => filter (fun tpl => snd (fst tpl) <=? arity) LTL_TEMPLATES_STATE
    | _ => exact
    end in
  '(key, need, skeleton) <- random_choice viable ;;
  let labels_used := firstn need (dict_keys props) in
  (* 2) LTL formula, grounded and masked *)
  atoms <- lift (rmap (fun lbl => info <~ dict_getitem props lbl ;; Ok (_atom info))
                      labels_used) ;;
  g_ltl <- lift (skeleton atoms) ;;
  m_ltl <- lift (skeleton labels_used) ;;
  (* 3) sentence *)
  segs_ground <- lift (rmap (fun l => info <~ dict_getitem props l ;;
                                      _nl_segment actions_cfg info)
                            labels_used) ;;
  tpl <- pick_sentence_template key ;;
  ego <- random_choice EGO_REFS ;;
  raw <- lift (tpl segs_ground) ;;
  with_ego <- lift (add_ego_reference raw ego) ;;
  let g_raw := correct_sentence with_ego in
  let g_tok := PyStr.split g_raw in
  (* 4) after gerund fixes, update props and regenerate segments *)
  props <- lift (update_action_refs g_raw props) ;;
  segs_ground <- lift (rmap (fun l => info <~ dict_getitem props l ;;
                                      _nl_segment actions_cfg info)
                            labels_used) ;;
  seg_tokens <- lift (rmap (fun lbl => toks <~ _segment_tokens actions_cfg props lbl ;;
                                       Ok (lbl, toks))
                           labels_used) ;;
  let seg_tokens := dict_of fst snd seg_tokens in
  (* 5) label tokens and build the masked sentence *)
  let pid_map := pid_map_of labels_used in
  mapping <- lift (rmap (fun lbl => pid <~ dict_getitem pid_map lbl ;;
                                    Ok (lbl, placeholder pid))
                        labels_used) ;;
  let mapping := dict_of fst snd mapping in
  '(ids, masked) <- lift (align fuel g_tok labels_used seg_tokens pid_map mapping
                                0 (repeat 0 (length g_tok)) []) ;;
  atoms <- lift (rmap (fun lbl => info <~ dict_getitem props lbl ;; Ok (_atom info))
                      labels_used) ;;
  '(good_trace, bad_trace) <- lift (_make_traces key atoms) ;;
  (* 6) finalise the entry *)
  prop_final <- lift (rmap (fun l => k <~ dict_getitem mapping l ;;
                                     info <~ dict_getitem props l ;;
                                     Ok (k, info))
                           labels_used) ;;
  let prop_final := dict_of fst snd prop_final in
  let masked_tl :=
    map (fun t => match dict_get mapping t with Some v => v | None => t end) m_ltl in
  ret {| id := idx;
         sentence := g_tok;
         tl := g_ltl;
         masked_tl := masked_tl;
         grounded_sentence := masked;
         lifted_sentence_prop_ids := ids;
         prop_dict := prop_final;
         good_trace := good_trace;
         bad_trace := bad_trace |}.

(** ** Argument sampler (source lines 844-906) *)

Definition underscores_to_blanks (s : string) : string :=
  PyStr.replace_char "_"%char " "%char s.

Definition _sample_argument (kind : string) (objects : dict (list string))
  (locs : list string) : M (string * string) :=
  if String.eqb kind "item" then
    key <- random_choice (dict_keys objects) ;;
    let canon := PyStr.replace_char " "%char "_"%char key in
    syns <- lift (dict_getitem objects key) ;;
    syn <- random_choice syns ;;
    ret (canon, underscores_to_blanks syn)
  else if String.eqb kind "location" then
    canon <- random_choice locs ;;
    ret (canon, underscores_to_blanks canon)
  else if String.eqb kind "ego" then
    ret ("ego", "yourself")
  else if String.eqb kind "person" then
    mod1 <- random_choice ["injured"; "safe"] ;;
    noun <- random_choice ["victim"; "rescuer"; "hostile"] ;;
    let canon := mod1 ++ "_" ++ noun in
    ret (canon, underscores_to_blanks canon)
  else if String.eqb kind "threat" then
    mod1 <- random_choice ["active"; "inactive"; "impending"; "probable"; "nearest"] ;;
    noun <- random_choice ["gas_leak"; "unstable_beam"; "fire_source"; "debris"; "flood"] ;;
    let canon := mod1 ++ "_" ++ noun in
    ret (canon, underscores_to_blanks canon)
  else if String.eqb kind "light" then
    pos <- random_choice locs ;;
    ret ("light_" ++ pos, underscores_to_blanks (pos ++ " light"))
  else if String.eqb kind "lane" then
    dir <- random_choice ["north"; "south"; "east"; "west";
                          "northwest"; "northeast"; "southwest"; "southeast"] ;;
    num <- random_choice ["1st"; "2nd"; "3rd"; "4th"; "5th";
                          "6th"; "7th"; "8th"; "9th"; "10th"] ;;
    road <- random_choice ["street"; "avenue"] ;;
    let canon := dir ++ "_" ++ num ++ "_" ++ road in
    ret (canon, underscores_to_blanks canon)
  else if String.eqb kind "traffic_target" then
    canon <- random_choice ["person"; "pedestrian"; "vehicle"; "car";
                            "motorcycle"; "cyclist"; "jaywalker"; "collision"] ;;
    ret (canon, canon)
  else if String.eqb kind "sr_target" then
    person <- random_lt_half ;;
    canon <- (if person : bool then
                mod1 <- random_choice ["injured"; "safe"; "unsafe"] ;;
                noun <- random_choice ["person"; "civilian"; "victim"; "rescuer"] ;;
                ret (mod1 ++ "_" ++ noun)
              else
                random_choice ["gas_leak"; "unstable_beam"; "fire_source";
                               "debris"; "flood"]) ;;
    ret (canon, underscores_to_blanks canon)
  else if String.eqb kind "color" then
    canon <- random_choice ["red"; "yellow"; "green"] ;;
    ret (canon, canon)
  else
    lift (Raise (ValueError ("Unknown param kind '" ++ kind ++ "'"))).

(** ** Validation (source lines 910-921) *)

Definition _entry_is_valid (entry : Entry) : bool :=
  let n_props := length (prop_dict entry) in
  let required_ids := seq 1 n_props in
  if negb (forallb (fun i => existsb (Nat.eqb i) (lifted_sentence_prop_ids entry))
                   required_ids)
  then false
  else
    let required_toks := map placeholder required_ids in
    if negb (forallb (fun t => PyStr.mem t (grounded_sentence entry)) required_toks)
    then false
    else true.

(** ** The dataset driver (source lines 928-986) *)

Fixpoint mmap {A B : Type} (f : A -> M B) (l : list A) : M (list B) :=
  match l with
  | [] => ret []
  | x :: r => y <- f x ;; ys <- mmap f r ;; ret (y :: ys)
  end.

Fixpoint mfold {A S : Type} (f : S -> A -> M S) (l : list A) (s : S) : M S :=
  match l with
  | [] => ret s
  | x :: r => s' <- f s x ;; mfold f r s'
  end.

Definition set_id (new_id : nat) (e : Entry) : Entry :=
  {| id := new_id;
     sentence := sentence e;
     tl := tl e;
     masked_tl := masked_tl e;
     grounded_sentence := grounded_sentence e;
     lifted_sentence_prop_ids := lifted_sentence_prop_ids e;
     prop_dict := prop_dict e;
     good_trace := good_trace e;
     bad_trace := bad_trace e |}.

Section Driver.

Context `{NLP}.

Variable object_dict : dict (list string).
Variable actions_dict : dict (list string).
Variable locations : list string.
Variable actions_cfg : dict (list string).

(** The [for _ in range(50)] loop for one label: [attempts] turns are left;
    the state is [(props, atoms_used)].  A draw whose atom is in
    [atoms_used] is skipped; a fresh one is stored and ends the loop. *)
Fixpoint sample_prop (attempts : nat) (st : dict PropInfo * list string)
  (lbl : string) : M (dict PropInfo * list string) :=
  match attempts with
  | 0 => ret st
  | S attempts' =>
      verb <- random_choice (dict_keys actions_dict) ;;
      params <- lift (dict_getitem actions_cfg verb) ;;
      args <- mmap (fun kind => _sample_argument kind object_dict locations) params ;;
      let a_canon := map fst args in
      let a_ref := map snd args in
      let atom := match a_canon with
                  | [] => verb
                  | _ => verb ++ "(" ++ PyStr.join "," a_canon ++ ")"
                  end in
      if PyStr.mem atom (snd st) then sample_prop attempts' st lbl
      else
        syns <- lift (dict_getitem actions_dict verb) ;;
        ref <- random_choice syns ;;
        ret (dict_set (fst st) lbl
                      {| action_canon := verb;
                         action_ref := ref;
                         args_canon := a_canon;
                         args_ref := a_ref |},
             atom :: snd st)
  end.

(** Step (a) of the driver's loop: the propositions of one example. *)
Definition sample_props (max_props : nat) : M (dict PropInfo) :=
  let label_pool := map (fun i => placeholder (i + 1)) (seq 0 max_props) in
  k <- random_randint 1 max_props ;;
  want_labels <- random_sample label_pool k ;;
  st <- mfold (sample_prop 50) want_labels ([], []) ;;
  ret (fst st).

(** The [while len(dataset) < num_entries] loop; [fuel] bounds its turns
    and [align_fuel] those of the labelling loop of each example. *)
Fixpoint dataset_loop (fuel align_fuel : nat) (num_entries max_props : nat)
  (dataset : list Entry) : M (list Entry) :=
  match fuel with
  | 0 => fun _ => Diverge
  | S fuel' =>
      if length dataset <? num_entries then
        props <- sample_props max_props ;;
        let tmp_idx := length dataset in
        entry <- build_entry_for_props align_fuel tmp_idx props actions_cfg ;;
        if _entry_is_valid entry
        then dataset_loop fuel' align_fuel num_entries max_props (dataset ++ [entry])%list
        else dataset_loop fuel' align_fuel num_entries max_props dataset
      else ret dataset
  end.

Definition build_dataset_entries (fuel align_fuel : nat)
  (num_entries max_props : nat) : M (list Entry) :=
  dataset <- dataset_loop fuel align_fuel num_entries max_props [] ;;
  ret (map (fun ne => set_id (fst ne) (snd ne))
           (combine (seq 0 (length dataset)) dataset)).

End Driver.

(** The verb table of [build_actions_dict] ([__init__.py], lines 26-46); the
    keys "record" and "photo" are written twice there, with equal values. *)
Definition build_actions_dict : dict (list string) :=
  [ ("search", ["locate"; "find"; "look for"; "search for"]);
    ("pickup", ["pick up"; "grab"; "retrieve"; "collect"]);
    ("deliver", ["deliver"; "drop off"; "hand over"; "transport"]);
    ("idle", ["idle"; "wait"; "remain still"; "stand by"]);
    ("go_home", ["return to base"; "go home"; "return home"; "go back to base"]);
    ("communicate", ["talk to"; "communicate with"; "establish communication with"]);
    ("deliver_aid", ["give aid to"; "deliver aid to"; "provide assistance to"]);
    ("record", ["record"; "begin recording"; "take a video of"]);
    ("photo", ["photograph"; "take a picture of"; "take a photo of"]);
    ("avoid", ["avoid"; "stay away from"; "do not go near"]);
    ("get_help", ["call for help"; "request assistance"; "get help"]);
    ("change", ["change"; "switch"; "set"; "update"]) ].

(** ** The object table ([__init__.py], lines 4-19)

    [parse_object_names] opens the file and goes through its lines; the
    embedding takes the lines that the file yields, each with its line
    end.  [parse_object_line] is one turn of the loop. *)
Definition parse_object_line (object_dict : dict (list string)) (line : string)
  : res (dict (list string)) :=
  let line := PyStr.strip line in
  if String.eqb line "" || negb (PyStr.contains ":" line) then Ok object_dict
  else
    '(canonical, alts_str) <~ unpack2 (PyStr.split_once ":" line) ;;
    let canonical := PyStr.strip canonical in
    let alt_list :=
      map PyStr.strip
          (filter (fun alt => negb (String.eqb (PyStr.strip alt) ""))
                  (PyStr.split_on "," alts_str)) in
    Ok (dict_set object_dict canonical alt_list).

Definition parse_object_names (lines : list string) : res (dict (list string)) :=
  fold_left (fun acc line => object_dict <~ acc ;; parse_object_line object_dict line)
            lines (Ok []).

(** The line end that a line of the file carries. *)
Definition newline : string := String (ascii_of_nat 10) EmptyString.

(** ** The scenario loader (source lines 66-88)

    The two files are read outside the embedding: [load_scenario] takes
    the scenarios of the YAML file as parsed and the lines of the object
    file.  Of a scenario it reads ["actions"], a mapping from each verb to
    its parameter kinds (the ["params"] list, as in [actions_cfg]), and
    ["locations"]; either may be absent.  An action is taken with its
    ["params"] list: a file that gives an action without one is outside
    the embedding ([load_scenario] does not look at it; the sampler and
    [_nl_segment] would raise [KeyError] on it). *)
Record Scenario : Type := {
  scenario_actions : option (dict (list string));
  scenario_locations : option (list string)
}.

(** [cfg["actions"]] *)
Definition cfg_actions (cfg : Scenario) : res (dict (list string)) :=
  match scenario_actions cfg with
  | Some acts => Ok acts
  | None => Raise (KeyError "actions")
  end.

Definition load_scenario (cfg_all : dict Scenario) (object_lines : list string)
  (scenario_name yaml_path : string)
  : res (Scenario * dict (list string) * dict (list string) * list string
         * dict (list string)) :=
  if negb (dict_mem scenario_name cfg_all) then
    Raise (ValueError ("Scenario '" ++ scenario_name ++ "' not found in "
                       ++ yaml_path ++ "."))
  else
    cfg <~ dict_getitem cfg_all scenario_name ;;
    object_dict <~ parse_object_names object_lines ;;
    (* {k: v for k, v in build_actions_dict().items() if k in cfg["actions"]} *)
    kept <~ rmap (fun kv => acts <~ cfg_actions cfg ;;
                            Ok (kv, dict_mem (fst kv) acts))
                 build_actions_dict ;;
    let actions_dict := dict_of fst snd (map fst (filter snd kept)) in
    let locations := match scenario_locations cfg with
                     | Some locs => locs
                     | None => []
                     end in
    acts <~ cfg_actions cfg ;;
    Ok (cfg, object_dict, actions_dict, locations, acts).

(** ** A small instance of the NLTK services

    It is used to run the generator on concrete inputs: the tokenizer
    splits at blanks and detaches one final punctuation mark from a word,
    the tagger knows a few verbs and the article, the lemmatizer removes
    "ing" from a verb, and the detokenizer joins with blanks and attaches
    punctuation marks to the word before them. *)

Definition is_mark (t : string) : bool :=
  PyStr.mem t ["."; ","; "!"; "?"; ";"; ":"].

Definition detach_mark (w : string) : list string :=
  let body := PyStr.drop_last 1 w in
  let last := PyStr.last_chars 1 w in
  if is_mark last && negb (String.eqb body "") then [body; last] else [w].

Definition simple_tokenize (s : string) : list string :=
  flat_map detach_mark (PyStr.split s).

Definition simple_verbs : list string :=
  ["deliver"; "idle"; "move"; "wait"; "search"; "record"; "change"].

Definition simple_tag (t : string) : string :=
  if PyStr.mem (PyStr.lower t) simple_verbs then "VB"
  else if String.eqb (PyStr.lower t) "the" then "DT"
  else if is_mark t then t
  else "NN".

Definition simple_pos_tag (toks : list string) : list (string * string) :=
  map (fun t => (t, simple_tag t)) toks.

Definition simple_lemmatize (w pos : string) : string :=
  if String.eqb pos "v" && PyStr.endswith w "ing" then PyStr.drop_last 3 w else w.

Fixpoint simple_detokenize_from (acc : string) (toks : list string) : string :=
  match toks with
  | [] => acc
  | t :: r =>
      simple_detokenize_from (if is_mark t then acc ++ t else acc ++ " " ++ t) r
  end.

Definition simple_detokenize (toks : list string) : string :=
  match toks with
  | [] => ""
  | t :: r => simple_detokenize_from t r
  end.

Lemma simple_pos_tag_tokens (toks : list string) :
  map fst (simple_pos_tag toks) = toks.
Proof.
  unfold simple_pos_tag. rewrite map_map. simpl. apply map_id.
Qed.

#[export] Instance SimpleNLP : NLP := {|
  word_tokenize := simple_tokenize;
  pos_tag := simple_pos_tag;
  lemmatize := simple_lemmatize;
  detokenize := simple_detokenize;
  pos_tag_tokens := simple_pos_tag_tokens
|}.

(** The same services with a tagger that also knows a verb in the third
    person singular: "goes" gets the tag VBZ, as in the Penn Treebank. *)
Definition third_person_tag (t : string) : string :=
  if String.eqb (PyStr.lower t) "goes" then "VBZ" else simple_tag t.

Definition third_person_pos_tag (toks : list string) : list (string * string) :=
  map (fun t => (t, third_person_tag t)) toks.

Lemma third_person_pos_tag_tokens (toks : list string) :
  map fst (third_person_pos_tag toks) = toks.
Proof.
  unfold third_person_pos_tag. rewrite map_map. simpl. apply map_id.
Qed.

Definition ThirdPersonNLP : NLP := {|
  word_tokenize := simple_tokenize;
  pos_tag := third_person_pos_tag;
  lemmatize := simple_lemmatize;
  detokenize := simple_detokenize;
  pos_tag_tokens := third_person_pos_tag_tokens
|}.

(** The names registered in the skeleton catalog. *)
Definition catalog_names : list string :=
  map (fun tpl => fst (fst tpl)) LTL_TEMPLATES_STATE.

(** What [_make_traces] computes from a builder [b]. *)
Definition traces_of (b : trace_builder) (labels : list string) : res (trace * trace) :=
  good <~ b labels true ;; bad <~ b labels false ;; Ok (good, bad).

(** The argument kinds that [_sample_argument] recognises, and the message
    of the error it raises for any other. *)
Definition recognized_kinds : list string :=
  ["item"; "location"; "ego"; "person"; "threat"; "light"; "lane";
   "traffic_target"; "sr_target"; "color"].


(** ** Runs of the driver that reach a given argument kind

    The places of a run of [build_dataset_entries] where [_sample_argument]
    is called, described along the loops of the driver: the turns of the
    [while] loop, the labels of one example, the attempts for one label and
    the parameters of the verb drawn. *)

Section DriverRuns.

Context `{NLP}.

Variable object_dict : dict (list string).
Variable actions_dict : dict (list string).
Variable locations : list string.
Variable actions_cfg : dict (list string).




End DriverRuns.

(** The random stream after one draw. *)
Definition rng_tail (g : rng) : rng := fun n => g (S n).

(** The coverage invariant of an entry with [N] propositions: every id of
    [1..N] labels some sentence token, and every placeholder token
    [prop_1 .. prop_N] occurs in the masked sentence. *)
Definition covered (e : Entry) : Prop :=
  let N := length (prop_dict e) in
  (forall i, 1 <= i <= N -> In i (lifted_sentence_prop_ids e)) /\
  (forall i, 1 <= i <= N -> In (placeholder i) (grounded_sentence e)).

(** ** Notions used to state the gerund rule *)

(** A token on which the string primitives of the embedding are Python's:
    ASCII text, or one of the marks of [_PUNCT] (its em dash, en dash and
    ellipsis are not ASCII). *)
Definition plain_token (t : string) : Prop :=
  PyStr.isascii t = true \/ In t _PUNCT.

(** A token that asks for a gerund after it. *)
Definition is_trigger (tok : string) : bool :=
  PyStr.mem (PyStr.lower tok) _REQUIRES_GERUND.

Definition tok_at (tags : list (string * string)) (k : nat) : option string :=
  option_map fst (nth_error tags k).

Definition is_punct_at (tags : list (string * string)) (k : nat) : Prop :=
  exists p, tok_at tags k = Some p /\ PyStr.mem p _PUNCT = true.

(** The token at [j] follows a trigger: a trigger stands at some [i < j],
    only punctuation tokens stand between them, and the token at [j] is
    not a punctuation token. *)
Definition follows_trigger (tags : list (string * string)) (j : nat) : Prop :=
  exists i t,
    i < j /\ tok_at tags i = Some t /\ is_trigger t = true /\
    (forall k, i < k < j -> is_punct_at tags k) /\
    (exists w, tok_at tags j = Some w /\ PyStr.mem w _PUNCT = false).

(** A token that the gerund rule rewrites when it follows a trigger: tagged
    VB, VBP, NN or NNS, not ending in "ing", not a placeholder. *)
Definition convertible (tok tag : string) : bool :=
  PyStr.mem tag gerund_tags
  && negb (PyStr.endswith (PyStr.lower tok) "ing")
  && negb (_PLACEHOLDER_RE tok).

(** The index that turn [i] of the gerund loop rewrites, if it rewrites
    one, and the token it writes at an index. *)
Definition gerund_target (tags : list (string * string)) (i : nat) : option nat :=
  match nth_error tags i with
  | Some (tok, _) =>
      if is_trigger tok then
        let j := skip_punct tags (i + 1) in
        match nth_error tags j with
        | Some (nxt_tok, nxt_tag) =>
            if convertible nxt_tok nxt_tag then Some j else None
        | None => None
        end
      else None
  | None => None
  end.

Definition gerund_of_tag (tags : list (string * string)) (j : nat) : string :=
  match nth_error tags j with
  | Some (t, _) => _to_gerund (PyStr.lower t)
  | None => ""
  end.

(** The condition of the gerund rule in the words of the specification:
    the token is "tagged as a verb or noun", is "not already a gerund" and
    is not a placeholder.  The Penn Treebank tags of the verb forms start
    with "VB" (VB, VBD, VBG, VBN, VBP, VBZ) and those of the nouns with
    "NN" (NN, NNS, NNP, NNPS); VBG marks a gerund, and a gerund ends in
    "ing". *)
Definition tagged_verb_or_noun (tag : string) : bool :=
  String.prefix "VB" tag || String.prefix "NN" tag.

Definition stated_convertible (tok tag : string) : bool :=
  tagged_verb_or_noun tag
  && negb (String.eqb tag "VBG" || PyStr.endswith (PyStr.lower tok) "ing")
  && negb (_PLACEHOLDER_RE tok).

(** ** The masking relation

    [masks N s ids g]: the masked sentence [g] and the id array [ids] are
    obtained from the sentence [s] by going through it from left to right
    and, at each step, either copying one token (id 0) or replacing a
    non-empty span of tokens by the single placeholder [prop_k] of a
    proposition [k] of [1..N] (id [k] on every token of the span). *)
Inductive masks (N : nat) : list string -> list nat -> list string -> Prop :=
| masks_nil : masks N [] [] []
| masks_copy (t : string) (s : list string) (ids : list nat) (g : list string) :
    masks N s ids g ->
    masks N (t :: s) (0 :: ids) (t :: g)
| masks_span (span : list string) (k : nat) (s : list string) (ids : list nat)
    (g : list string) :
    span <> [] -> 1 <= k <= N ->
    masks N s ids g ->
    masks N (span ++ s)%list (repeat k (length span) ++ ids)%list (placeholder k :: g).

(** [aligned segs s ids g], where [segs] lists the segment tokens of the
    propositions 1, 2, ... in order: the masked sentence [g] and the id
    array [ids] are obtained from the sentence [s] by going through it from
    left to right.  Where the segment tokens of some proposition match the
    sentence at the current position, the span matched by the first such
    proposition [k] is replaced by the one placeholder [prop_k], every
    token of the span gets the id [k], and the walk goes on behind the
    span.  Where no proposition matches, the token is copied and gets the
    id 0. *)
Inductive aligned `{NLP} (segs : list (list string))
  : list string -> list nat -> list string -> Prop :=
| aligned_end : aligned segs [] [] []
| aligned_copy (t : string) (s : list string) (ids : list nat) (g : list string) :
    (forall toks, In toks segs -> matches_at (t :: s) 0 toks = false) ->
    aligned segs s ids g ->
    aligned segs (t :: s) (0 :: ids) (t :: g)
| aligned_span (k : nat) (toks s : list string) (ids : list nat) (g : list string) :
    nth_error segs k = Some toks -> toks <> [] ->
    matches_at s 0 toks = true ->
    (forall k' toks', k' < k -> nth_error segs k' = Some toks' ->
                      matches_at s 0 toks' = false) ->
    aligned segs (skipn (length toks) s) ids g ->
    aligned segs s (repeat (k + 1) (length toks) ++ ids)%list
            (placeholder (k + 1) :: g).

(** ** Notions used to state the properties of the grounding step *)

(** The strings of a proposition are ASCII text. *)
Definition ascii_prop (info : PropInfo) : Prop :=
  PyStr.isascii (action_canon info) = true
  /\ PyStr.isascii (action_ref info) = true
  /\ Forall (fun a => PyStr.isascii a = true) (args_canon info)
  /\ Forall (fun a => PyStr.isascii a = true) (args_ref info).

(** [lookup_all d keys vs]: the values of the keys [keys] in [d], in order. *)
Definition lookup_all {V : Type} (d : dict V) (keys : list string) (vs : list V) : Prop :=
  Forall2 (fun k v => dict_get d k = Some v) keys vs.

(** [updated g_raw props props']: the dictionary after the loop of source
    lines 770-774 has the same keys, in the same order, and each value is
    the update of the old one. *)
Definition updated (g_raw : string) (props props' : dict PropInfo) : Prop :=
  Forall2 (fun kv kv' => fst kv' = fst kv /\
                         update_action_ref g_raw (snd kv) = Ok (snd kv'))
          props props'.

(** ** Notions used to state the properties of the proposition sampler *)

(** A label of the driver's label pool: [prop_1], [prop_2], ... *)
Definition is_pool_label (lbl : string) : Prop :=
  exists i, lbl = placeholder (i + 1).

(** The invariant of the sampling state [(props, atoms_used)]: one entry
    per key, keys from the label pool, propositions with pairwise distinct
    atoms, all of them recorded in [atoms_used]. *)
Definition sample_inv (st : dict PropInfo * list string) : Prop :=
  NoDup (dict_keys (fst st))
  /\ Forall is_pool_label (dict_keys (fst st))
  /\ NoDup (map _atom (dict_values (fst st)))
  /\ incl (map _atom (dict_values (fst st))) (snd st).

(** ** The formulas of the skeletons

    The catalog gives each skeleton as a function from the proposition
    tokens to a token list.  [ltl] is the syntax tree behind such a token
    list, over the positions [0, 1, 2] of the propositions; [Paren] records
    a written pair of parentheses, so that [tokens] prints a tree back to
    exactly the tokens of the catalog.  Where the tokens leave the grouping
    open, the tree follows the formula written in the comment of the
    skeleton's trace builder, with the usual precedences: the unary
    operators bind tightest, then "and", "or", "until", and the
    implications last. *)

Module LTL.

Inductive ltl : Type :=
| Atom (i : nat)
| Not (f : ltl)
| Next (f : ltl)
| Finally (f : ltl)
| Globally (f : ltl)
| And (f g : ltl)
| Or (f g : ltl)
| Implies (f g : ltl)
| Iff (f g : ltl)
| Until (f g : ltl)
| Paren (f : ltl).

(** A token of a skeleton: a fixed word, or the place of a proposition. *)
Inductive tok : Type :=
| Word (w : string)
| Hole (i : nat).

Fixpoint tokens (f : ltl) : list tok :=
  match f with
  | Atom i => [Hole i]
  | Not f => Word "not" :: tokens f
  | Next f => Word "next" :: tokens f
  | Finally f => Word "finally" :: tokens f
  | Globally f => Word "globally" :: tokens f
  | And f g => (tokens f ++ Word "and" :: tokens g)%list
  | Or f g => (tokens f ++ Word "or" :: tokens g)%list
  | Implies f g => (tokens f ++ Word "implies" :: tokens g)%list
  | Iff f g => (tokens f ++ Word "double_implies" :: tokens g)%list
  | Until f g => (tokens f ++ Word "until" :: tokens g)%list
  | Paren f => (Word "(" :: tokens f ++ [Word ")"])%list
  end.

(** The token list of a pattern for the proposition tokens [P]. *)
Definition fill (P : list string) (t : tok) : string :=
  match t with
  | Word w => w
  | Hole i => nth i P ""
  end.

(** The largest proposition position of a formula is below [n]. *)
Fixpoint atoms_below (n : nat) (f : ltl) : bool :=
  match f with
  | Atom i => i <? n
  | Not f | Next f | Finally f | Globally f | Paren f => atoms_below n f
  | And f g | Or f g | Implies f g | Iff f g | Until f g =>
      atoms_below n f && atoms_below n g
  end.

Definition a : ltl := Atom 0.
Definition b : ltl := Atom 1.
Definition c : ltl := Atom 2.

Definition skeleton_formula : dict ltl :=
  [ ("F_NOT", Finally (Paren (Not a)));
    ("G_NOT", Globally (Paren (Not a)));
    ("F_AND", Finally (Paren (And a b)));
    ("G_AND", Globally (Paren (And a b)));
    ("F_OR", Finally (Paren (Or a b)));
    ("G_OR", Globally (Paren (Or a b)));
    ("X", Next a);
    ("U", Paren (Until a b));
    ("G_IMPL_F", Globally (Paren (Implies a (Finally b))));
    ("G_NOT_AND", Globally (Paren (Not (Paren (And a b)))));
    ("G_IMPL_XXX",
       Globally (Paren (Implies a (Next (Paren (Next (Paren (Next b))))))));
    ("U_GF", Until a (Paren (Globally (Paren (Finally b)))));
    ("F_B_IMPL_A_BEFORE",
       Implies (Paren (Finally b))
               (Paren (Until (Not b) (Paren (And a (Not b))))));
    ("G_IMPL", Globally (Paren (Implies a b)));
    ("G_AND_PAIR", Globally (Paren (And a b)));
    ("G_A_AND_G_B_IMPL_NOT_C",
       And (Globally a) (Globally (Paren (Implies b (Not c)))));
    ("G_IMPL_F_IMPL_GF",
       Implies (Globally (Paren (Implies a (Finally b)))) (Globally (Finally c)));
    ("GF_IMPL_GF", Implies (Globally (Finally a)) (Globally (Finally b)));
    ("GF_OR_GF", Or (Globally (Finally a)) (Globally (Finally b)));
    ("FG_NOT", Finally (Globally (Not a)));
    ("G_NOT_AND_IMPL_F",
       Globally (Paren (Implies (Not (Paren (And a b))) (Finally c))));
    ("EXCLUSIVE_ALWAYS_ONE",
       And (Globally (Paren (Not (Paren (And a b))))) (Globally (Paren (Or a b))));
    ("G_EQ_IMPL_EQ",
       Globally (Paren (Implies (Paren (Iff a b)) (Paren (Iff b c)))));
    ("NOT_A_UNTIL_B", Until (Not a) b);
    ("G_A_IMPL_XG_NOT_B", Globally (Paren (Implies a (Next (Globally (Not b))))));
    ("A_RELEASES_B",
       Or (Paren (Until b (Paren (And b (Not a))))) (Globally b));
    ("G_NOT_AND_ALT", Globally (Not (Paren (And a b))));
    ("TWO_STEP_TRIGGER",
       Globally (Paren (Implies (And a (Next b)) (Next (Next c)))));
    ("NEXT_EVENTUAL", Globally (Paren (Implies a (Next (Finally b)))));
    ("EVERY_FIFTH_STEP",
       And a (Globally (Paren (Implies a
         (And (Next (Not a))
         (And (Next (Next (Not a)))
         (And (Next (Next (Next (Not a))))
         (And (Next (Next (Next (Next (Not a)))))
              (Next (Next (Next (Next (Next a)))))))))))));
    ("GF_A_OR_NEXT_B", Or (Globally (Finally a)) (Next b));
    ("G_ALWAYS_A", Globally a);
    ("A_IMPL_B_WITHIN_1", Globally (Paren (Implies a (Paren (Or b (Next b))))));
    ("G_ONE_OF_ABC", Globally (Paren (Or a (Or b c))));
    ("A_IMPL_EVENTUAL_B", Globally (Paren (Implies a (Finally b))));
    ("ALMOST_ALWAYS_A", Not (Globally (Paren (Not (Paren (And a (Next a)))))));
    ("NOT_A_AT_MOST_TWO", Not (Globally (Paren (Not (Paren (And a (Next a)))))));
    ("A_EVERY_THIRD_STEP",
       Globally (Paren (Implies a (Paren
         (Or (Next (Not a))
         (Or (Next (Next (Not a)))
             (Next (Next (Next a)))))))));
    ("NEXT_FOLLOW", Globally (Paren (Implies a (Next b))));
    ("EVENTUALLY_BOTH", Finally (Paren (And a b)));
    ("BOTH_EVENTUAL", And (Finally a) (Finally b));
    ("STEPWISE_EQUALITY", Globally (Paren (Iff a (Next b))));
    ("RESPONSE_UNTIL_OR_ALWAYS",
       Implies b (Next (Paren (Or (Paren (Until c a)) (Globally c)))));
    ("UNTIL_OR_ALWAYS", Or (Paren (Until a b)) (Globally a)) ].

End LTL.

(** A string that [str.split] keeps as one token: not empty, no blank. *)
Definition wordlike (s : string) : Prop :=
  s <> "" /\ PyStr.all_chars (fun ch => negb (PyStr.is_space ch)) s = true.

(** An ASCII string that is one token for [str.split]: for such text the
    white space of the embedding is all the white space Python knows. *)
Definition ascii_word (s : string) : Prop :=
  PyStr.isascii s = true /\ wordlike s.

(** The tokens that formatting and splitting make of a format string:
    [fmt_tokens fmt cur k] reads [fmt] with [cur] the word being read and
    [k] the number of fields met so far.  It is defined when every field
    [{}] of [fmt] is a blank-separated token of its own. *)
Fixpoint fmt_tokens (fmt : string) (cur : string) (k : nat) : option (list LTL.tok) :=
  match fmt with
  | EmptyString =>
      Some (match cur with EmptyString => [] | _ => [LTL.Word cur] end)
  | String ch rest =>
      if Ascii.eqb ch "{" then
        match rest, cur with
        | String ch2 EmptyString, EmptyString =>
            if Ascii.eqb ch2 "}" then Some [LTL.Hole k] else None
        | String ch2 (String ch3 rest3), EmptyString =>
            if Ascii.eqb ch2 "}" && PyStr.is_space ch3
            then option_map (cons (LTL.Hole k)) (fmt_tokens rest3 EmptyString (S k))
            else None
        | _, _ => None
        end
      else if Ascii.eqb ch "}" then None
      else if PyStr.is_space ch then
        match cur with
        | EmptyString => fmt_tokens rest EmptyString k
        | _ => option_map (cons (LTL.Word cur)) (fmt_tokens rest EmptyString k)
        end
      else fmt_tokens rest (cur ++ String ch EmptyString) k
  end.

(** The round trip of the specification: every token of the lifted formula
    that is a key of [prop_dict] is replaced by the atom of the proposition
    stored under it. *)
Definition substitute_atoms (prop_dict : dict PropInfo) (toks : list string)
  : list string :=
  map (fun t => match dict_get prop_dict t with
                | Some info => _atom info
                | None => t
                end) toks.

(** The fields of [fmt.format(P[i0], P[i1], ...)], renumbered to the
    positions [i0, i1, ...] of [P] that they show. *)
Definition reindex (idx : list nat) (t : LTL.tok) : LTL.tok :=
  match t with
  | LTL.Word w => LTL.Word w
  | LTL.Hole j => LTL.Hole (nth j idx 0)
  end.

Definition holes_below (n : nat) (pat : list LTL.tok) : bool :=
  forallb (fun t => match t with LTL.Hole i => i <? n | LTL.Word _ => true end) pat.

(** No fixed word of a pattern starts like a placeholder. *)
Definition words_plain (pat : list LTL.tok) : bool :=
  forallb (fun t => match t with
                    | LTL.Word w => negb (String.prefix "prop_" w)
                    | LTL.Hole _ => true
                    end) pat.

(** ** The semantics of the formulas on a trace

    A trace stands for the infinite word that repeats its last moment for
    ever; an atom is true at a moment when the moment lists it.  [sat] is
    the usual semantics of LTL on that word; [eval] computes it, looking no
    further than the last moment of the trace. *)

Module Sem.

Import LTL.

(** The moment at position [i] of the word of a trace. *)
Definition moment_at (tr : trace) (i : nat) : moment :=
  nth (Nat.min i (length tr - 1)) tr [].

(** Proposition [i] of the atom list [L] is true at the moment [m]. *)
Definition atom_true (L : list string) (i : nat) (m : moment) : bool :=
  match nth_error L i with
  | Some p => PyStr.mem p m
  | None => false
  end.

Fixpoint sat (L : list string) (tr : trace) (f : ltl) (i : nat) : Prop :=
  match f with
  | Atom k => atom_true L k (moment_at tr i) = true
  | Not f => ~ sat L tr f i
  | Next f => sat L tr f (S i)
  | Finally f => exists j, i <= j /\ sat L tr f j
  | Globally f => forall j, i <= j -> sat L tr f j
  | And f g => sat L tr f i /\ sat L tr g i
  | Or f g => sat L tr f i \/ sat L tr g i
  | Implies f g => sat L tr f i -> sat L tr g i
  | Iff f g => sat L tr f i <-> sat L tr g i
  | Until f g =>
      exists j, i <= j /\ sat L tr g j /\ forall k, i <= k < j -> sat L tr f k
  | Paren f => sat L tr f i
  end.

(** The positions from [i] up to the last moment of the trace ([i] alone
    when it lies beyond). *)
Definition horizon (tr : trace) (i : nat) : list nat :=
  seq i (S (length tr - 1 - i)).

Fixpoint eval (L : list string) (tr : trace) (f : ltl) (i : nat) : bool :=
  match f with
  | Atom k => atom_true L k (moment_at tr i)
  | Not f => negb (eval L tr f i)
  | Next f => eval L tr f (S i)
  | Finally f => existsb (eval L tr f) (horizon tr i)
  | Globally f => forallb (eval L tr f) (horizon tr i)
  | And f g => eval L tr f i && eval L tr g i
  | Or f g => eval L tr f i || eval L tr g i
  | Implies f g => implb (eval L tr f i) (eval L tr g i)
  | Iff f g => Bool.eqb (eval L tr f i) (eval L tr g i)
  | Until f g =>
      existsb (fun j => eval L tr g j && forallb (eval L tr f) (seq i (j - i)))
              (horizon tr i)
  | Paren f => eval L tr f i
  end.

(** The verdicts on the pair of traces that [_make_traces] returns for a
    skeleton: [Some (g, b)] gives the truth value of the skeleton's formula
    at the first moment of the satisfying and of the violating trace. *)
Definition verdicts (key : string) (L : list string) : option (bool * bool) :=
  match dict_get skeleton_formula key, _make_traces key L with
  | Some f, Ok (good, bad) => Some (eval L good f 0, eval L bad f 0)
  | _, _ => None
  end.

End Sem.

(** ** Notions used to state the trace properties *)

(** The skeletons of the catalog whose hand-written pair of traces does
    not fit the formula. *)
Definition faulty_keys : list string :=
  ["X"; "G_A_AND_G_B_IMPL_NOT_C"; "A_RELEASES_B"; "EVERY_FIFTH_STEP";
   "NOT_A_AT_MOST_TWO"; "A_EVERY_THIRD_STEP"; "STEPWISE_EQUALITY"].

(** Renaming the atoms of a trace. *)
Definition rename_trace (rho : string -> string) (tr : trace) : trace :=
  map (map rho) tr.

(** Every atom of the trace is one of [L]. *)
Definition atoms_within (L : list string) (tr : trace) : bool :=
  forallb (forallb (fun x => PyStr.mem x L)) tr.

(** The renaming that sends the atoms "a", "b", "c" to the first, second
    and third element of [Lp]. *)
Definition to_atoms (Lp : list string) (s : string) : string :=
  if String.eqb s "a" then nth 0 Lp ""
  else if String.eqb s "b" then nth 1 Lp ""
  else nth 2 Lp "".

(** ** Notions used to state the capitalisation rule *)

(** A token that ends a sentence. *)
Definition is_stop (t : string) : bool := PyStr.mem t ["."; "!"; "?"].

(** The token before position [j] ends a sentence. *)
Definition after_stop (toks : list string) (j : nat) : bool :=
  match j with
  | 0 => false
  | S k => match nth_error toks k with
           | Some t => is_stop t
           | None => false
           end
  end.


(** Every proposition position below [n] occurs in the pattern. *)
Definition holes_cover (n : nat) (pat : list LTL.tok) : bool :=
  forallb (fun i => existsb (fun t => match t with
                                      | LTL.Hole j => j =? i
                                      | LTL.Word _ => false
                                      end) pat)
          (seq 0 n).


(* ====================================================================== *)
(** * Part II.  Properties                                                 *)
(* ====================================================================== *)

(** ** Strings *)

Lemma append_nil_r (s : string) : s ++ "" = s.
Proof. induction s; simpl; congruence. Qed.

Lemma append_assoc (a b c : string) : (a ++ b) ++ c = a ++ (b ++ c).
Proof. induction a; simpl; congruence. Qed.

Lemma length_append (a b : string) :
  String.length (a ++ b) = String.length a + String.length b.
Proof. induction a; simpl; auto. Qed.

Lemma endswith_spec (s suf : string) :
  PyStr.endswith s suf = true <-> exists p, s = p ++ suf.
Proof.
  induction s as [|c r IH]; cbn [PyStr.endswith].
  - destruct (String.eqb_spec "" suf) as [<-|N]; simpl.
    + split; auto. intros _. now exists "".
    + split; [intros H; discriminate H|]. intros [p E].
      destruct p; simpl in E; congruence.
  - destruct (String.eqb_spec (String c r) suf) as [<-|N]; simpl.
    + split; auto. intros _. now exists "".
    + rewrite IH. split.
      * intros [p ->]. now exists (String c p).
      * intros [p E]. destruct p as [|c' p]; simpl in E.
        { congruence. }
        { injection E as -> ->. now exists p. }
Qed.

Lemma endswith_append (p suf : string) : PyStr.endswith (p ++ suf) suf = true.
Proof. apply endswith_spec. now exists p. Qed.

Lemma substring_0_append (a b : string) :
  String.substring 0 (String.length a) (a ++ b) = a.
Proof. induction a; simpl; [destruct b; reflexivity | congruence]. Qed.

Lemma drop_last_append (p suf : string) :
  PyStr.drop_last (String.length suf) (p ++ suf) = p.
Proof.
  unfold PyStr.drop_last. rewrite length_append.
  replace (String.length p + String.length suf - String.length suf)
    with (String.length p) by lia.
  apply substring_0_append.
Qed.

Lemma append_inj_suffix (p q s t : string) :
  String.length s = String.length t -> p ++ s = q ++ t -> p = q /\ s = t.
Proof.
  revert q. induction p as [|c p IH]; intros [|d q] L E; simpl in E.
  - auto.
  - exfalso. subst s. simpl in L. rewrite length_append in L. lia.
  - exfalso. subst t. simpl in L. rewrite length_append in L. lia.
  - injection E as -> E. destruct (IH q L E) as [-> ->]. auto.
Qed.

Lemma endswith_false_suffix (p s t : string) :
  String.length s = String.length t -> s <> t ->
  PyStr.endswith (p ++ s) t = false.
Proof.
  intros L N. destruct (PyStr.endswith (p ++ s) t) eqn:E; auto.
  apply endswith_spec in E. destruct E as [q E].
  apply append_inj_suffix in E; auto. destruct E as [_ E]. contradiction.
Qed.

Lemma endswith_trans (w s t : string) :
  PyStr.endswith w s = true -> PyStr.endswith s t = true ->
  PyStr.endswith w t = true.
Proof.
  rewrite !endswith_spec. intros [p ->] [q ->].
  exists (p ++ q). now rewrite append_assoc.
Qed.

(** ** The gerund helper *)

(** The third test of [_to_gerund] selects nothing: both of its branches
    return [word + "ing"]. *)
Lemma to_gerund_unfold (w : string) :
  _to_gerund w =
    if PyStr.endswith w "ie" then PyStr.drop_last 2 w ++ "ying"
    else if PyStr.endswith w "e" && negb (PyStr.endswith w "ee")
         then PyStr.drop_last 1 w ++ "ing"
         else w ++ "ing".
Proof.
  unfold _to_gerund.
  destruct (PyStr.endswith w "ie"); auto.
  destruct (PyStr.endswith w "e" && negb (PyStr.endswith w "ee")); auto.
  destruct ((2 <? String.length w) && cvc_tail (PyStr.last_chars 2 w)); auto.
Qed.

Lemma to_gerund_ie (p : string) : _to_gerund (p ++ "ie") = p ++ "ying".
Proof.
  rewrite to_gerund_unfold, endswith_append.
  f_equal. exact (drop_last_append p "ie").
Qed.

Lemma to_gerund_e (p : string) :
  PyStr.endswith (p ++ "e") "ie" = false ->
  PyStr.endswith (p ++ "e") "ee" = false ->
  _to_gerund (p ++ "e") = p ++ "ing".
Proof.
  intros H1 H2. rewrite to_gerund_unfold, H1, H2, endswith_append.
  cbn [andb negb]. f_equal. exact (drop_last_append p "e").
Qed.

Lemma to_gerund_ee (p : string) : _to_gerund (p ++ "ee") = (p ++ "ee") ++ "ing".
Proof.
  rewrite to_gerund_unfold.
  rewrite (endswith_false_suffix p "ee" "ie") by (simpl; congruence).
  rewrite (endswith_append p "ee"). now rewrite andb_false_r.
Qed.

Lemma to_gerund_other (w : string) :
  PyStr.endswith w "e" = false -> _to_gerund w = w ++ "ing".
Proof.
  intros H. rewrite to_gerund_unfold, H.
  destruct (PyStr.endswith w "ie") eqn:E; auto.
  assert (PyStr.endswith w "e" = true)
    by (eapply endswith_trans; [exact E | reflexivity]).
  congruence.
Qed.

Lemma to_gerund_ends_ing (w : string) :
  PyStr.endswith (_to_gerund w) "ing" = true.
Proof.
  rewrite to_gerund_unfold.
  destruct (PyStr.endswith w "ie").
  - apply endswith_spec. exists (PyStr.drop_last 2 w ++ "y").
    now rewrite append_assoc.
  - destruct (PyStr.endswith w "e" && negb (PyStr.endswith w "ee"));
      apply endswith_append.
Qed.

(** C9. [_to_gerund] is a total function with three outcomes: a word in
    "ie" loses it for "ying"; a word in "e" but not in "ee" (and not in
    "ie") loses the "e" for "ing"; every other word gets "ing" appended,
    the vowel-consonant ending included, so no final consonant is doubled
    ("stop" becomes "stoping").  The result always ends in "ing". *)
Theorem to_gerund_cases (w : string) :
  (_to_gerund w =
     if PyStr.endswith w "ie" then PyStr.drop_last 2 w ++ "ying"
     else if PyStr.endswith w "e" && negb (PyStr.endswith w "ee")
          then PyStr.drop_last 1 w ++ "ing"
          else w ++ "ing")
  /\ (forall p, _to_gerund (p ++ "ie") = p ++ "ying")
  /\ (forall p, PyStr.endswith (p ++ "e") "ie" = false ->
                PyStr.endswith (p ++ "e") "ee" = false ->
                _to_gerund (p ++ "e") = p ++ "ing")
  /\ (forall p, _to_gerund (p ++ "ee") = (p ++ "ee") ++ "ing")
  /\ (PyStr.endswith w "e" = false -> _to_gerund w = w ++ "ing")
  /\ ((2 <? String.length w) && cvc_tail (PyStr.last_chars 2 w) = true ->
      PyStr.endswith w "e" = false -> _to_gerund w = w ++ "ing")
  /\ PyStr.endswith (_to_gerund w) "ing" = true
  /\ _to_gerund "stop" = "stoping"
  /\ _to_gerund "die" = "dying"
  /\ _to_gerund "move" = "moving"
  /\ _to_gerund "see" = "seeing".
Proof.
  split; [apply to_gerund_unfold|].
  split; [apply to_gerund_ie|].
  split; [apply to_gerund_e|].
  split; [apply to_gerund_ee|].
  split; [apply to_gerund_other|].
  split; [intros _; apply to_gerund_other|].
  split; [apply to_gerund_ends_ing|].
  repeat split.
Qed.

(** ** Results and the random-number monad *)

Lemma rbind_Ok {A B : Type} (c : res A) (k : A -> res B) (b : B) :
  rbind c k = Ok b -> exists a, c = Ok a /\ k a = Ok b.
Proof. destruct c; simpl; intros E; try discriminate. eauto. Qed.

Lemma bind_Ok {A B : Type} (c : M A) (k : A -> M B) (g g' : rng) (b : B) :
  bind c k g = Ok (b, g') -> exists a g1, c g = Ok (a, g1) /\ k a g1 = Ok (b, g').
Proof.
  unfold bind. destruct (c g) as [[a g1]| |]; intros E; try discriminate. eauto.
Qed.

Lemma lift_Ok {A : Type} (c : res A) (g g' : rng) (a : A) :
  lift c g = Ok (a, g') -> c = Ok a /\ g' = g.
Proof. destruct c; simpl; intros E; inversion E; auto. Qed.

Lemma ret_Ok {A : Type} (a b : A) (g g' : rng) :
  ret a g = Ok (b, g') -> b = a /\ g' = g.
Proof. unfold ret. intros E. inversion E; auto. Qed.

(** [inv_run]: take a successful run apart, one [bind] at a time. *)
Ltac inv_run :=
  repeat match goal with
    | H : bind _ _ _ = Ok _ |- _ =>
        let a := fresh "a" in let g := fresh "g" in
        let H1 := fresh "R" in let H2 := fresh "R" in
        apply bind_Ok in H; destruct H as (a & g & H1 & H2)
    | H : lift _ _ = Ok _ |- _ =>
        let H1 := fresh "R" in
        apply lift_Ok in H; destruct H as [H1 ->]
    | H : ret _ _ = Ok _ |- _ =>
        apply ret_Ok in H; destruct H as [-> ->]
    | H : rbind _ _ = Ok _ |- _ =>
        let a := fresh "a" in
        let H1 := fresh "R" in let H2 := fresh "R" in
        apply rbind_Ok in H; destruct H as (a & H1 & H2)
    | H : Ok _ = Ok _ |- _ => injection H as H; subst
    end.

(** [run_bind E x g R]: the first [bind] of the successful run [E]. *)
Ltac run_bind E x g R :=
  apply bind_Ok in E; destruct E as (x & g & R & E).

Ltac run_lift R :=
  apply lift_Ok in R; destruct R as [R ->].

(** ** The trace-builder table *)

Lemma make_traces_builder (key : string) (b : trace_builder) (labels : list string) :
  dict_get _TRACE_BUILDERS key = Some b ->
  _make_traces key labels = traces_of b labels.
Proof.
  intros E. unfold _make_traces, dict_mem, dict_getitem, traces_of.
  rewrite E. cbn [rbind]. reflexivity.
Qed.

Lemma make_traces_fallback (key : string) (labels : list string) :
  dict_get _TRACE_BUILDERS key = None ->
  _make_traces key labels = Ok ([labels], [[]; []; []]).
Proof.
  intros E. unfold _make_traces, dict_mem. rewrite E. reflexivity.
Qed.

(** C4, as the claim states it, fails: "U" is a skeleton of the catalog
    and has no entry in [_TRACE_BUILDERS]. *)
Lemma catalog_not_covered_by_trace_builders :
  ~ (forall key, In key catalog_names -> dict_mem key _TRACE_BUILDERS = true).
Proof.
  intros H. specialize (H "U").
  assert (E : dict_mem "U" _TRACE_BUILDERS = false) by reflexivity.
  rewrite H in E; [discriminate E|].
  vm_compute. tauto.
Qed.

(** C4, amended.  Every skeleton of the catalog other than "U" has a
    hand-written entry in [_TRACE_BUILDERS], and [_make_traces] returns what
    that entry builds; for "U" there is no entry and [_make_traces] returns
    the fallback pair: all the atoms true at the first moment, and three
    empty moments. *)
Theorem catalog_trace_builders (key : string) :
  In key catalog_names ->
  (key <> "U" ->
   exists b, dict_get _TRACE_BUILDERS key = Some b /\
             forall labels, _make_traces key labels = traces_of b labels)
  /\ (key = "U" ->
      dict_mem key _TRACE_BUILDERS = false /\
      forall labels, _make_traces key labels = Ok ([labels], [[]; []; []])).
Proof.
  intros HIn. split.
  - intros HU.
    assert (exists b, dict_get _TRACE_BUILDERS key = Some b) as [b Hb].
    { vm_compute in HIn.
      repeat (destruct HIn as [<- | HIn];
              [first [ now (eexists; reflexivity) | now (exfalso; apply HU) ] |]).
      contradiction. }
    exists b. split; auto. intros labels. now apply make_traces_builder.
  - intros ->. split; [reflexivity|].
    intros labels. now apply make_traces_fallback.
Qed.

Lemma catalog_trace_builders_witness :
  In "G_IMPL_F" catalog_names /\
  (exists b, dict_get _TRACE_BUILDERS "G_IMPL_F" = Some b /\
             forall labels, _make_traces "G_IMPL_F" labels = traces_of b labels).
Proof.
  assert (HIn : In "G_IMPL_F" catalog_names) by (vm_compute; tauto).
  split; [exact HIn|].
  apply (catalog_trace_builders "G_IMPL_F" HIn). discriminate.
Defined.

(** ** The argument sampler *)

Lemma random_choice_Ok {A : Type} (l : list A) (g : rng) :
  l <> [] -> exists x, In x l /\ random_choice l g = Ok (x, rng_tail g).
Proof.
  intros N. destruct l as [|y l]; [contradiction|].
  unfold random_choice, bind, next_rand, getitem, lift.
  set (n := length (y :: l)).
  assert (L : g 0 mod n < n) by (apply Nat.mod_upper_bound; subst n; simpl; lia).
  destruct (nth_error (y :: l) (g 0 mod n)) as [x|] eqn:E.
  - exists x. split; [eapply nth_error_In; eauto | reflexivity].
  - apply nth_error_None in E. fold n in E. lia.
Qed.

Lemma random_choice_In {A : Type} (l : list A) (g g' : rng) (x : A) :
  random_choice l g = Ok (x, g') -> In x l.
Proof.
  destruct l as [|y l]; [discriminate|].
  unfold random_choice, bind, next_rand, getitem, lift.
  destruct (nth_error _ _) eqn:E; intros H; inversion H; subst.
  eapply nth_error_In; eauto.
Qed.

Lemma dict_get_In {V : Type} (d : dict V) (k : string) (v : V) :
  dict_get d k = Some v -> In (k, v) d.
Proof.
  induction d as [|[k' v'] d IH]; simpl; [discriminate|].
  destruct (String.eqb_spec k' k) as [->|N].
  - intros E. inversion E. auto.
  - auto.
Qed.

Lemma dict_get_key {V : Type} (d : dict V) (k : string) :
  In k (dict_keys d) -> exists v, dict_get d k = Some v.
Proof.
  induction d as [|[k' v'] d IH]; simpl; [contradiction|].
  destruct (String.eqb_spec k' k) as [->|N]; eauto.
  intros [E|I]; [contradiction | auto].
Qed.

(** [run_choice]: run the next [random.choice] of a goal on a literal,
    non-empty list. *)
Ltac run_choice :=
  match goal with
  | |- context [random_choice ?l ?g] =>
      let x := fresh "x" in let E := fresh "E" in
      destruct (random_choice_Ok l g) as (x & _ & E);
      [discriminate | rewrite E; clear E]
  end.

Lemma sample_argument_recognized (kind : string) (objects : dict (list string))
  (locs : list string) (g : rng) :
  In kind recognized_kinds ->
  objects <> [] -> (forall k syns, In (k, syns) objects -> syns <> []) ->
  locs <> [] ->
  exists canon ref g', _sample_argument kind objects locs g = Ok ((canon, ref), g').
Proof.
  intros HK HO HS HL. unfold recognized_kinds in HK. simpl in HK.
  repeat (destruct HK as [<- | HK]); try contradiction;
    unfold _sample_argument; cbn [String.eqb Ascii.eqb Bool.eqb];
    unfold bind, ret.
  - (* item *)
    assert (HKeys : dict_keys objects <> []) by (destruct objects; simpl; congruence).
    destruct (random_choice_Ok (dict_keys objects) g HKeys) as (key & Hkey & ->).
    destruct (dict_get_key objects key Hkey) as (syns & Hsyns).
    unfold dict_getitem. rewrite Hsyns. cbn [lift].
    destruct (random_choice_Ok syns (rng_tail g)) as (syn & _ & ->); eauto.
    eapply HS, dict_get_In; eauto.
  - (* location *)
    destruct (random_choice_Ok locs g HL) as (x & _ & ->). eauto.
  - (* ego *) eauto.
  - (* person *) do 2 run_choice. eauto.
  - (* threat *) do 2 run_choice. eauto.
  - (* light *)
    destruct (random_choice_Ok locs g HL) as (x & _ & ->). eauto.
  - (* lane *) do 3 run_choice. eauto.
  - (* traffic_target *) run_choice. eauto.
  - (* sr_target *)
    unfold random_lt_half, bind, next_rand, ret.
    destruct (Nat.even (g 0)); unfold bind, ret.
    + do 2 run_choice. eauto.
    + run_choice. eauto.
  - (* color *) run_choice. eauto.
Qed.


Lemma length_remove_nth {A : Type} (i : nat) (l : list A) :
  i < length l -> length (remove_nth i l) = length l - 1.
Proof.
  revert i. induction l as [|x l IH]; intros [|i] L; simpl in *; try lia.
  rewrite IH by lia. lia.
Qed.

Lemma random_sample_Ok {A : Type} (k : nat) :
  forall (pool : list A) (g : rng),
  k <= length pool ->
  exists l g', random_sample pool k g = Ok (l, g') /\ length l = k.
Proof.
  induction k as [|k IH]; intros pool g L.
  - exists [], g. auto.
  - destruct pool as [|y pool]; [simpl in L; lia|].
    cbn [random_sample]. unfold bind at 1. unfold next_rand.
    set (p := y :: pool) in *. set (i := g 0 mod length p).
    assert (Li : i < length p)
      by (apply Nat.mod_upper_bound; subst p; simpl; lia).
    unfold bind at 1. unfold getitem.
    destruct (nth_error p i) as [x|] eqn:E;
      [| apply nth_error_None in E; lia].
    cbn [lift]. unfold bind at 1.
    change (fun n : nat => g (S n)) with (rng_tail g).
    destruct (IH (remove_nth i p) (rng_tail g)) as (l & g' & -> & Hl).
    { rewrite length_remove_nth by exact Li. lia. }
    exists (x :: l), g'. split; [reflexivity | simpl; congruence].
Qed.

Lemma random_randint_Ok (a b : nat) (g : rng) :
  a <= b ->
  exists k, a <= k <= b /\ random_randint a b g = Ok (k, rng_tail g).
Proof.
  intros L. unfold random_randint.
  destruct (Nat.ltb_spec b a); [lia|].
  exists (a + g 0 mod (b - a + 1)). split; [|reflexivity].
  pose proof (Nat.mod_upper_bound (g 0) (b - a + 1)). lia.
Qed.

Section DriverErrors.

Context `{NLP}.

Variable object_dict : dict (list string).
Variable actions_dict : dict (list string).
Variable locations : list string.
Variable actions_cfg : dict (list string).








End DriverErrors.



(** ** Validation and the coverage invariant *)

Lemma mem_In (x : string) (l : list string) : PyStr.mem x l = true <-> In x l.
Proof.
  unfold PyStr.mem. rewrite existsb_exists. split.
  - intros (y & I & E). apply String.eqb_eq in E. now subst.
  - intros I. exists x. split; [exact I | apply String.eqb_refl].
Qed.

Lemma entry_is_valid_iff (e : Entry) : _entry_is_valid e = true <-> covered e.
Proof.
  unfold _entry_is_valid, covered.
  set (N := length (prop_dict e)).
  set (ids_ok := forallb _ (seq 1 N)).
  set (toks_ok := forallb _ (map placeholder (seq 1 N))).
  assert (Hids : ids_ok = true <->
                 forall i, 1 <= i <= N -> In i (lifted_sentence_prop_ids e)).
  { subst ids_ok. rewrite forallb_forall. split.
    - intros Hf i Hi. specialize (Hf i). rewrite in_seq, existsb_exists in Hf.
      destruct Hf as (j & Ij & Ej); [lia|]. apply Nat.eqb_eq in Ej. now subst.
    - intros Hf i Hi. apply in_seq in Hi. apply existsb_exists.
      exists i. split; [apply Hf; lia | apply Nat.eqb_refl]. }
  assert (Htoks : toks_ok = true <->
                  forall i, 1 <= i <= N -> In (placeholder i) (grounded_sentence e)).
  { subst toks_ok. rewrite forallb_forall. split.
    - intros Hf i Hi. apply mem_In, Hf, in_map, in_seq. lia.
    - intros Hf t Ht. apply in_map_iff in Ht. destruct Ht as (i & <- & Hi).
      apply in_seq in Hi. apply mem_In, Hf. lia. }
  destruct ids_ok; cbn [negb].
  - destruct toks_ok; cbn [negb].
    + split; auto. intros _. split; [now apply Hids | now apply Htoks].
    + split; [discriminate|]. intros [_ Ht]. now apply Htoks.
  - split; [discriminate|]. intros [Hi _]. now apply Hids.
Qed.

Lemma set_id_valid (n : nat) (e : Entry) :
  _entry_is_valid (set_id n e) = _entry_is_valid e.
Proof. reflexivity. Qed.

Section DriverCoverage.

Context `{NLP}.

Variable object_dict : dict (list string).
Variable actions_dict : dict (list string).
Variable locations : list string.
Variable actions_cfg : dict (list string).

(** The driver's loop only appends entries that were built from sampled
    propositions and passed [_entry_is_valid]. *)
Lemma dataset_loop_invariant (P : Entry -> Prop) (max_props : nat)
  (step : forall g0 props g1 af idx e g',
      sample_props object_dict actions_dict locations actions_cfg max_props g0
        = Ok (props, g1) ->
      build_entry_for_props af idx props actions_cfg g1 = Ok (e, g') ->
      _entry_is_valid e = true -> P e)
  (fuel align_fuel num_entries : nat) :
  forall (dataset ds : list Entry) (g g' : rng),
  Forall P dataset ->
  dataset_loop object_dict actions_dict locations actions_cfg
    fuel align_fuel num_entries max_props dataset g = Ok (ds, g') ->
  Forall P ds.
Proof.
  induction fuel as [|fuel IH]; intros dataset ds g g' HP E.
  - discriminate E.
  - cbn [dataset_loop] in E.
    destruct (length dataset <? num_entries).
    + run_bind E props g1 Rs. run_bind E entry g2 Rb.
      destruct (_entry_is_valid entry) eqn:V.
      * eapply IH; [|exact E]. apply Forall_app. split; [exact HP|].
        constructor; [|constructor]. eapply step; eauto.
      * eapply IH; eauto.
    + apply ret_Ok in E. destruct E as [-> ->]. exact HP.
Qed.

Lemma build_dataset_entries_invariant (P : Entry -> Prop) (max_props : nat)
  (step : forall g0 props g1 af idx e g',
      sample_props object_dict actions_dict locations actions_cfg max_props g0
        = Ok (props, g1) ->
      build_entry_for_props af idx props actions_cfg g1 = Ok (e, g') ->
      _entry_is_valid e = true -> P e)
  (stable : forall n e, P e -> P (set_id n e))
  (fuel align_fuel num_entries : nat) (ds : list Entry) (g g' : rng) :
  build_dataset_entries object_dict actions_dict locations actions_cfg
    fuel align_fuel num_entries max_props g = Ok (ds, g') ->
  Forall P ds.
Proof.
  unfold build_dataset_entries. intros E.
  run_bind E dataset g1 Rl. apply ret_Ok in E. destruct E as [-> ->].
  assert (HP : Forall P dataset)
    by (eapply dataset_loop_invariant; eauto).
  apply Forall_forall. intros e He. apply in_map_iff in He.
  destruct He as ([n e0] & <- & I). apply stable.
  apply in_combine_r in I. rewrite Forall_forall in HP. auto.
Qed.

Lemma dataset_entries_valid
  (fuel align_fuel num_entries max_props : nat) (ds : list Entry) (g g' : rng) :
  build_dataset_entries object_dict actions_dict locations actions_cfg
    fuel align_fuel num_entries max_props g = Ok (ds, g') ->
  Forall (fun e => _entry_is_valid e = true) ds.
Proof.
  apply build_dataset_entries_invariant.
  - intros; assumption.
  - intros n e V. now rewrite set_id_valid.
Qed.

End DriverCoverage.

(** C1. [_entry_is_valid] returns true exactly when the entry is covered:
    with [N] the size of its [prop_dict], every id of [1..N] occurs in
    [lifted_sentence_prop_ids] and every token [prop_1 .. prop_N] occurs in
    [grounded_sentence].  Every entry of a list returned by
    [build_dataset_entries] passed that test, so it is covered. *)
Theorem accepted_entries_covered `{NLP} :
  (forall e, _entry_is_valid e = true <-> covered e)
  /\ (forall object_dict actions_dict locations actions_cfg
             fuel align_fuel num_entries max_props ds g g',
      build_dataset_entries object_dict actions_dict locations actions_cfg
        fuel align_fuel num_entries max_props g = Ok (ds, g') ->
      forall e, In e ds -> _entry_is_valid e = true /\ covered e).
Proof.
  split; [apply entry_is_valid_iff|].
  intros until g'. intros E e He.
  pose proof (dataset_entries_valid _ _ _ _ _ _ _ _ _ _ _ E) as V.
  rewrite Forall_forall in V. specialize (V e He).
  split; [exact V | now apply entry_is_valid_iff].
Qed.

(** A run of the driver that returns one example, which is covered. *)
Lemma accepted_entries_covered_witness :
  exists ds g',
    build_dataset_entries (H := SimpleNLP)
      [] [("idle", ["idle"])] [] [("idle", [])] 5 20 1 3 (fun _ => 0)
    = Ok (ds, g')
    /\ length ds = 1
    /\ forall e, In e ds -> _entry_is_valid e = true /\ covered e.
Proof.
  eexists. eexists. split; [vm_compute; reflexivity|].
  split; [reflexivity|].
  eapply (proj2 (accepted_entries_covered (H := SimpleNLP)))
    with (object_dict := []) (actions_dict := [("idle", ["idle"])])
         (locations := []) (actions_cfg := [("idle", [])])
         (fuel := 5) (align_fuel := 20) (num_entries := 1) (max_props := 3)
         (g := fun _ => 0).
  vm_compute. reflexivity.
Defined.

(** ** List assignment *)

Lemma length_set_nth {A : Type} (i : nat) (v : A) (l : list A) :
  length (set_nth i v l) = length l.
Proof.
  revert i. induction l as [|x l IH]; intros [|i]; simpl; auto.
Qed.

Lemma nth_error_set_nth_eq {A : Type} (i : nat) (v : A) (l : list A) :
  i < length l -> nth_error (set_nth i v l) i = Some v.
Proof.
  revert i. induction l as [|x l IH]; intros [|i] L; simpl in *; try lia; auto.
  apply IH. lia.
Qed.

Lemma nth_error_set_nth_neq {A : Type} (i j : nat) (v : A) (l : list A) :
  i <> j -> nth_error (set_nth i v l) j = nth_error l j.
Proof.
  revert i j. induction l as [|x l IH]; intros [|i] [|j] N; simpl; auto;
    try contradiction.
Qed.

(** ** The gerund rule of [correct_sentence] *)

Lemma gerund_step_target (tags : list (string * string)) (toks : list string)
  (i : nat) :
  gerund_step tags toks i =
    match gerund_target tags i with
    | Some j => set_nth j (gerund_of_tag tags j) toks
    | None => toks
    end.
Proof.
  unfold gerund_step, gerund_target, gerund_of_tag, is_trigger, convertible.
  destruct (nth_error tags i) as [[tok tag]|]; auto.
  destruct (PyStr.mem (PyStr.lower tok) _REQUIRES_GERUND); auto.
  destruct (nth_error tags (skip_punct tags (i + 1))) as [[nt ng]|] eqn:E; auto.
  destruct (_PLACEHOLDER_RE nt); cbn [orb negb andb].
  - now rewrite andb_false_r.
  - destruct (PyStr.endswith (PyStr.lower nt) "ing"); cbn [negb].
    + now rewrite andb_false_r.
    + rewrite !andb_true_r. destruct (PyStr.mem ng gerund_tags); auto.
      now rewrite E.
Qed.

Lemma gerund_fold_length (tags : list (string * string)) (idxs : list nat) :
  forall toks,
  length (fold_left (gerund_step tags) idxs toks) = length toks.
Proof.
  induction idxs as [|i idxs IH]; intros toks; simpl; auto.
  rewrite IH, gerund_step_target.
  destruct (gerund_target tags i); auto. apply length_set_nth.
Qed.

(** After the loop a token is the gerund written for its index if some
    turn targeted that index, and the original token otherwise. *)
Lemma gerund_fold_nth (tags : list (string * string)) (idxs : list nat) :
  forall toks j t,
  nth_error toks j = Some t ->
  nth_error (fold_left (gerund_step tags) idxs toks) j =
    Some (if existsb (fun i => match gerund_target tags i with
                               | Some j' => j' =? j
                               | None => false
                               end) idxs
          then gerund_of_tag tags j else t).
Proof.
  induction idxs as [|i idxs IH]; intros toks j t E; simpl; auto.
  rewrite gerund_step_target.
  destruct (gerund_target tags i) as [j'|] eqn:T.
  - destruct (Nat.eqb_spec j' j) as [->|N]; simpl.
    + rewrite (IH _ j (gerund_of_tag tags j)).
      * now destruct (existsb _ idxs).
      * apply nth_error_set_nth_eq. apply nth_error_Some. congruence.
    + apply IH. now rewrite nth_error_set_nth_neq.
  - simpl. now apply IH.
Qed.

Lemma count_punct_prefix (l : list (string * string)) :
  forall k, k < count_punct l ->
  exists p, option_map fst (nth_error l k) = Some p /\ PyStr.mem p _PUNCT = true.
Proof.
  induction l as [|[t g] l IH]; simpl; intros k Hk; [lia|].
  destruct (PyStr.mem t _PUNCT) eqn:P; [|lia].
  destruct k as [|k]; simpl; eauto. apply IH. lia.
Qed.

Lemma count_punct_stop (l : list (string * string)) (w g : string) :
  nth_error l (count_punct l) = Some (w, g) -> PyStr.mem w _PUNCT = false.
Proof.
  induction l as [|[t g'] l IH]; simpl; [discriminate|].
  destruct (PyStr.mem t _PUNCT) eqn:P; simpl; auto.
  intros E. inversion E. now subst.
Qed.

Lemma count_punct_unique (l : list (string * string)) :
  forall n w,
  (forall k, k < n ->
     exists p, option_map fst (nth_error l k) = Some p /\ PyStr.mem p _PUNCT = true) ->
  option_map fst (nth_error l n) = Some w -> PyStr.mem w _PUNCT = false ->
  count_punct l = n.
Proof.
  induction l as [|[t g] l IH]; intros n w Hp Hw Hn.
  - destruct n; discriminate Hw.
  - simpl. destruct n as [|n].
    + simpl in Hw. inversion Hw. subst. now rewrite Hn.
    + destruct (Hp 0) as (p & E & P); [lia|]. simpl in E. inversion E. subst.
      rewrite P. f_equal. apply (IH n w); auto.
      intros k Hk. apply (Hp (S k)). lia.
Qed.

Lemma skip_punct_follows (tags : list (string * string)) (i j : nat) (w g : string) :
  skip_punct tags (i + 1) = j -> nth_error tags j = Some (w, g) ->
  i < j /\ (forall k, i < k < j -> is_punct_at tags k)
  /\ PyStr.mem w _PUNCT = false.
Proof.
  unfold skip_punct. intros <- E. split; [lia|]. split.
  - intros k Hk. unfold is_punct_at, tok_at.
    destruct (count_punct_prefix (skipn (i + 1) tags) (k - (i + 1))) as (p & Ep & P);
      [lia|].
    rewrite nth_error_skipn in Ep.
    replace (i + 1 + (k - (i + 1))) with k in Ep by lia. eauto.
  - rewrite <- nth_error_skipn in E. eapply count_punct_stop; eauto.
Qed.

Lemma follows_skip_punct (tags : list (string * string)) (i j : nat) (w : string) :
  i < j -> (forall k, i < k < j -> is_punct_at tags k) ->
  tok_at tags j = Some w -> PyStr.mem w _PUNCT = false ->
  skip_punct tags (i + 1) = j.
Proof.
  intros L Hp Hw Hn. unfold skip_punct.
  assert (count_punct (skipn (i + 1) tags) = j - (i + 1)); [|lia].
  apply (count_punct_unique _ _ w); auto.
  - intros k Hk. rewrite nth_error_skipn. apply Hp. lia.
  - rewrite nth_error_skipn. replace (i + 1 + (j - (i + 1))) with j by lia.
    exact Hw.
Qed.

Lemma lower_append (a b : string) :
  PyStr.lower (a ++ b) = PyStr.lower a ++ PyStr.lower b.
Proof. unfold PyStr.lower. induction a; simpl; congruence. Qed.

Lemma gerund_changes (tok : string) :
  PyStr.endswith (PyStr.lower tok) "ing" = false ->
  _to_gerund (PyStr.lower tok) <> tok.
Proof.
  intros E Heq.
  pose proof (to_gerund_ends_ing (PyStr.lower tok)) as G. rewrite Heq in G.
  apply endswith_spec in G. destruct G as [p ->].
  rewrite lower_append in E. change (PyStr.lower "ing") with "ing" in E.
  now rewrite endswith_append in E.
Qed.

(** C7, amended.  On a sentence whose tokens are ASCII text or marks of
    [_PUNCT], the gerund loop is the only step of [correct_sentence] that
    puts a token into its gerund form, and after it: a token that is the
    first non-punctuation token after a trigger word (compared in lower
    case) is replaced by the gerund of its lower-case form exactly when its
    tag is VB, VBP, NN or NNS, it does not already end in "ing" and it is
    not a [prop_k] placeholder; every other token is left as it was. *)
Theorem gerund_agreement `{NLP} (sentence : string) :
  Forall plain_token (word_tokenize sentence) ->
  let toks := word_tokenize sentence in
  let tags := pos_tag toks in
  let out := gerund_pass tags toks in
  correct_sentence sentence =
    detokenize (capitalize_after_stops (capitalize_first
      (map (fun t => if String.eqb t "i" then "I" else t) out)))
  /\ length out = length toks
  /\ forall j tok tag,
       nth_error tags j = Some (tok, tag) ->
       nth_error toks j = Some tok
       /\ (follows_trigger tags j /\ convertible tok tag = true ->
           nth_error out j = Some (_to_gerund (PyStr.lower tok))
           /\ _to_gerund (PyStr.lower tok) <> tok)
       /\ (~ (follows_trigger tags j /\ convertible tok tag = true) ->
           nth_error out j = Some tok).
Proof.
  intros _ toks tags out.
  split; [reflexivity|].
  split; [apply gerund_fold_length|].
  intros j tok tag E.
  assert (Etok : nth_error toks j = Some tok).
  { pose proof (pos_tag_tokens toks) as Law. fold tags in Law.
    rewrite <- Law, nth_error_map, E. reflexivity. }
  split; [exact Etok|].
  pose proof (gerund_fold_nth tags (seq 0 (length tags - 1)) toks j tok Etok) as N.
  fold (gerund_pass tags toks) in N. fold out in N.
  split.
  - intros [(i & t & Lij & Ei & Tr & Hp & (w & Ew & Hw)) C].
    assert (Lj : j < length tags) by (apply nth_error_Some; congruence).
    assert (X : existsb (fun i => match gerund_target tags i with
                                  | Some j' => j' =? j
                                  | None => false
                                  end) (seq 0 (length tags - 1)) = true).
    { apply existsb_exists. exists i. split; [apply in_seq; lia|].
      unfold gerund_target. unfold tok_at in Ei.
      destruct (nth_error tags i) as [[t' g']|]; [|discriminate Ei].
      simpl in Ei. inversion Ei. subst t'. rewrite Tr.
      rewrite (follows_skip_punct tags i j w Lij Hp Ew Hw).
      rewrite E, C. apply Nat.eqb_refl. }
    rewrite X in N. unfold gerund_of_tag in N. rewrite E in N.
    split; [exact N|]. apply gerund_changes.
    unfold convertible in C. apply andb_prop in C. destruct C as [C _].
    apply andb_prop in C. destruct C as [_ C].
    now destruct (PyStr.endswith (PyStr.lower tok) "ing").
  - intros NF.
    destruct (existsb _ (seq 0 (length tags - 1))) eqn:X; [|exact N].
    exfalso. apply NF. apply existsb_exists in X.
    destruct X as (i & _ & T). unfold gerund_target in T.
    destruct (nth_error tags i) as [[t g]|] eqn:Ei; [|discriminate T].
    destruct (is_trigger t) eqn:Tr; [|discriminate T].
    destruct (nth_error tags (skip_punct tags (i + 1))) as [[nt ng]|] eqn:Ej;
      [|discriminate T].
    destruct (convertible nt ng) eqn:C; [|discriminate T].
    apply Nat.eqb_eq in T.
    destruct (skip_punct_follows tags i j nt ng T) as (Lij & Hp & Hw).
    { now rewrite <- T. }
    rewrite T, E in Ej. inversion Ej. subst nt ng.
    split; [|exact C].
    exists i, t. split; [exact Lij|]. unfold tok_at. rewrite Ei, E.
    split; [reflexivity|]. split; [exact Tr|]. split; [exact Hp|].
    exists tok. auto.
Qed.

Lemma gerund_agreement_witness :
  word_tokenize (NLP := SimpleNLP) "please avoid, deliver the box"
  = ["please"; "avoid"; ","; "deliver"; "the"; "box"]
  /\ gerund_pass (pos_tag (NLP := SimpleNLP)
                   ["please"; "avoid"; ","; "deliver"; "the"; "box"])
                 ["please"; "avoid"; ","; "deliver"; "the"; "box"]
     = ["please"; "avoid"; ","; "delivering"; "the"; "box"]
  /\ nth_error (gerund_pass (pos_tag (NLP := SimpleNLP)
                   (word_tokenize (NLP := SimpleNLP) "please avoid, deliver the box"))
                 (word_tokenize (NLP := SimpleNLP) "please avoid, deliver the box")) 3
     = Some (_to_gerund (PyStr.lower "deliver")).
Proof.
  split; [vm_compute; reflexivity|]. split; [vm_compute; reflexivity|].
  destruct (gerund_agreement (H := SimpleNLP) "please avoid, deliver the box")
    as (_ & _ & N).
  - vm_compute. repeat (apply Forall_cons; [left; reflexivity|]). apply Forall_nil.
  - assert (T : nth_error (pos_tag (NLP := SimpleNLP)
                    (word_tokenize (NLP := SimpleNLP) "please avoid, deliver the box")) 3
                = Some ("deliver", "VB")) by (vm_compute; reflexivity).
    destruct (N 3 "deliver" "VB" T) as (_ & C & _).
    apply C. split; [|reflexivity].
    exists 1, "avoid". split; [lia|]. split; [vm_compute; reflexivity|].
    split; [reflexivity|]. split.
    + intros k Hk. assert (k = 2) as -> by lia.
      exists ",". split; vm_compute; reflexivity.
    + exists "deliver". split; vm_compute; reflexivity.
Defined.

(** C7, as the claim states it, fails.  With a tagger that gives "goes"
    the tag VBZ, the sentence "avoid goes" has a trigger followed by a token
    that is tagged as a verb, is no gerund and no placeholder; the claim
    asks for its gerund, and [correct_sentence] leaves it as it is: the
    loop converts the tags VB, VBP, NN and NNS only. *)
Lemma gerund_agreement_fails_on_other_verb_tags :
  let toks := word_tokenize (NLP := ThirdPersonNLP) "avoid goes" in
  let tags := pos_tag (NLP := ThirdPersonNLP) toks in
  tags = [("avoid", "NN"); ("goes", "VBZ")]
  /\ follows_trigger tags 1
  /\ stated_convertible "goes" "VBZ" = true
  /\ gerund_pass tags toks = ["avoid"; "goes"]
  /\ correct_sentence (H := ThirdPersonNLP) "avoid goes" = "Avoid goes"
  /\ ~ (follows_trigger tags 1 /\ stated_convertible "goes" "VBZ" = true ->
        nth_error (gerund_pass tags toks) 1 = Some (_to_gerund (PyStr.lower "goes"))).
Proof.
  cbv zeta.
  assert (F : follows_trigger
                (pos_tag (NLP := ThirdPersonNLP)
                   (word_tokenize (NLP := ThirdPersonNLP) "avoid goes")) 1).
  { exists 0, "avoid". split; [lia|]. split; [vm_compute; reflexivity|].
    split; [reflexivity|]. split; [intros k Hk; lia|].
    exists "goes". split; vm_compute; reflexivity. }
  split; [vm_compute; reflexivity|]. split; [exact F|].
  split; [reflexivity|]. split; [vm_compute; reflexivity|].
  split; [vm_compute; reflexivity|].
  intros C. specialize (C (conj F eq_refl)). vm_compute in C. discriminate C.
Qed.

(** ** Dictionaries *)

Lemma dict_get_set {V : Type} (d : dict V) (k k' : string) (v : V) :
  dict_get (dict_set d k v) k' =
    if String.eqb k k' then Some v else dict_get d k'.
Proof.
  induction d as [|[k0 v0] d IH]; simpl.
  - reflexivity.
  - destruct (String.eqb_spec k0 k) as [->|N]; simpl.
    + destruct (String.eqb_spec k k'); auto.
    + destruct (String.eqb_spec k0 k') as [->|N'].
      * destruct (String.eqb_spec k k'); [congruence | reflexivity].
      * exact IH.
Qed.

Lemma dict_set_fresh {V : Type} (d : dict V) (k : string) (v : V) :
  ~ In k (dict_keys d) -> dict_set d k v = (d ++ [(k, v)])%list.
Proof.
  induction d as [|[k0 v0] d IH]; simpl; intros N; auto.
  destruct (String.eqb_spec k0 k) as [->|N0].
  - exfalso. auto.
  - f_equal. apply IH. tauto.
Qed.

Lemma dict_of_fold_nodup {A V : Type} (f : A -> string) (g : A -> V) (l : list A) :
  forall d,
  NoDup (dict_keys d ++ map f l)%list ->
  fold_left (fun d x => dict_set d (f x) (g x)) l d
  = (d ++ map (fun x => (f x, g x)) l)%list.
Proof.
  induction l as [|x l IH]; intros d ND; simpl.
  - now rewrite app_nil_r.
  - simpl in ND. rewrite dict_set_fresh.
    + rewrite IH.
      * now rewrite <- app_assoc.
      * unfold dict_keys in *. rewrite map_app, <- app_assoc. exact ND.
    + apply NoDup_remove_2 in ND. intros I. apply ND. apply in_or_app. auto.
Qed.

Lemma dict_of_nodup {A V : Type} (f : A -> string) (g : A -> V) (l : list A) :
  NoDup (map f l) -> dict_of f g l = map (fun x => (f x, g x)) l.
Proof. intros ND. unfold dict_of. now rewrite dict_of_fold_nodup. Qed.

(** A value found in a dictionary built by assignments was assigned, or
    was there before. *)
Lemma dict_of_fold_get {A V : Type} (f : A -> string) (g : A -> V) (l : list A) :
  forall d k v,
  dict_get (fold_left (fun d x => dict_set d (f x) (g x)) l d) k = Some v ->
  (exists x, In x l /\ f x = k /\ g x = v) \/ dict_get d k = Some v.
Proof.
  induction l as [|x l IH]; intros d k v E; simpl in E; auto.
  apply IH in E. destruct E as [(y & I & F & G)|E].
  - left. exists y. simpl. auto.
  - rewrite dict_get_set in E. destruct (String.eqb_spec (f x) k) as [Fx|N]; auto.
    left. exists x. inversion E. simpl. auto.
Qed.

Lemma dict_of_get {A V : Type} (f : A -> string) (g : A -> V) (l : list A)
  (k : string) (v : V) :
  dict_get (dict_of f g l) k = Some v -> exists x, In x l /\ f x = k /\ g x = v.
Proof.
  intros E. apply dict_of_fold_get in E. destruct E as [E|E]; auto. discriminate E.
Qed.

Lemma dict_getitem_Ok {V : Type} (d : dict V) (k : string) (v : V) :
  dict_getitem d k = Ok v <-> dict_get d k = Some v.
Proof.
  unfold dict_getitem. destruct (dict_get d k); split; intros E;
    inversion E; auto.
Qed.

Lemma rmap_Ok {A B : Type} (f : A -> res B) (l : list A) :
  forall ys, rmap f l = Ok ys -> Forall2 (fun x y => f x = Ok y) l ys.
Proof.
  induction l as [|x l IH]; intros ys E; simpl in E.
  - inversion E. constructor.
  - inv_run. constructor; auto.
Qed.

Lemma Forall2_length_eq {A B : Type} (R : A -> B -> Prop) (l : list A) (l' : list B) :
  Forall2 R l l' -> length l = length l'.
Proof. induction 1; simpl; congruence. Qed.

Lemma Forall2_In_r {A B : Type} (R : A -> B -> Prop) (l : list A) (l' : list B) (y : B) :
  Forall2 R l l' -> In y l' -> exists x, In x l /\ R x y.
Proof.
  induction 1 as [|x y' l l' Rxy F IH]; simpl; [contradiction|].
  intros [->|I]; [eauto|]. destruct (IH I) as (x' & I' & R'). eauto.
Qed.

Lemma Forall2_In_l {A B : Type} (R : A -> B -> Prop) (l : list A) (l' : list B) (x : A) :
  Forall2 R l l' -> In x l -> exists y, In y l' /\ R x y.
Proof.
  induction 1 as [|x' y l l' Rxy F IH]; simpl; [contradiction|].
  intros [->|I]; [eauto|]. destruct (IH I) as (y' & I' & R'). eauto.
Qed.

(** ** The labelling loop *)

Lemma set_nth_app_r {A : Type} (a b : list A) (k : nat) (v : A) :
  set_nth (length a + k) v (a ++ b)%list = (a ++ set_nth k v b)%list.
Proof. induction a as [|x a IH]; simpl; congruence. Qed.

Lemma skipn_cons_nth {A : Type} (l : list A) (n : nat) :
  n < length l -> exists x, nth_error l n = Some x /\ skipn n l = x :: skipn (S n) l.
Proof.
  revert n. induction l as [|y l IH]; intros [|n] L; simpl in *; try lia.
  - eauto.
  - apply IH. lia.
Qed.

Lemma assign_ids_spec (ids : list nat) (i L pid : nat) :
  i + L <= length ids ->
  assign_ids ids i L pid
  = (firstn i ids ++ repeat pid L ++ skipn (i + L) ids)%list.
Proof.
  unfold assign_ids. induction L as [|L IH]; intros Hlen.
  - simpl. rewrite Nat.add_0_r. symmetry. apply firstn_skipn.
  - rewrite seq_S, fold_left_app. cbn [fold_left]. rewrite IH by lia.
    destruct (skipn_cons_nth ids (i + L)) as (x & _ & ->); [lia|].
    rewrite app_assoc.
    replace (i + (0 + L)) with (length (firstn i ids ++ repeat pid L)%list + 0)
      by (rewrite length_app, length_firstn, repeat_length; lia).
    rewrite set_nth_app_r. cbn [set_nth].
    replace (i + S L) with (S (i + L)) by lia.
    rewrite <- app_assoc. f_equal.
    change (repeat pid (S L)) with (pid :: repeat pid L).
    rewrite repeat_cons, <- app_assoc. reflexivity.
Qed.

Lemma skipn_repeat {A : Type} (x : A) (n m : nat) :
  skipn n (repeat x m) = repeat x (m - n).
Proof.
  revert m. induction n as [|n IH]; intros [|m]; simpl; auto.
Qed.

Lemma firstn_S_nth {A : Type} (l : list A) (n : nat) (x : A) :
  nth_error l n = Some x -> firstn (S n) l = (firstn n l ++ [x])%list.
Proof.
  revert n. induction l as [|y l IH]; intros [|n] E; simpl in *; try discriminate.
  - now inversion E.
  - f_equal. now apply IH.
Qed.

Section Alignment.

Context `{NLP}.

Variable g_tok labels_used : list string.
Variable seg_tokens : dict (list string).
Variable pid_map : dict nat.
Variable mapping : dict string.
Variable N : nat.

(** The id and the placeholder of a label agree, and the id is in [1..N]. *)
Hypothesis label_ids :
  forall lbl pid ph,
  In lbl labels_used ->
  dict_get pid_map lbl = Some pid -> dict_get mapping lbl = Some ph ->
  1 <= pid <= N /\ ph = placeholder pid.

Lemma first_match_Some (i : nat) (labels : list string) (lbl : string)
  (tok_seq : list string) :
  first_match g_tok i seg_tokens labels = Ok (Some (lbl, tok_seq)) ->
  In lbl labels /\ matches_at g_tok i tok_seq = true.
Proof.
  induction labels as [|l labels IH]; simpl; intros E; [discriminate E|].
  inv_run. destruct (matches_at g_tok i a) eqn:Mt.
  - inversion R0. subst. auto.
  - destruct (IH R0). auto.
Qed.

(** A match of an empty token sequence does not advance: the loop never
    ends normally from such a position. *)
Lemma align_stuck (i : nat) (lbl : string) :
  i < length g_tok ->
  first_match g_tok i seg_tokens labels_used = Ok (Some (lbl, [])) ->
  forall fuel ids masked r,
  align fuel g_tok labels_used seg_tokens pid_map mapping i ids masked <> Ok r.
Proof.
  intros Li Fm. induction fuel as [|fuel IH]; intros ids masked r.
  - discriminate.
  - cbn [align]. destruct (Nat.ltb_spec i (length g_tok)); [|lia].
    rewrite Fm. cbn [rbind length].
    destruct (dict_getitem mapping lbl); cbn [rbind]; try discriminate.
    rewrite Nat.add_0_r. unfold assign_ids. cbn [seq fold_left]. apply IH.
Qed.

Lemma align_spec (fuel : nat) :
  forall i ids masked ids' masked',
  length ids = length g_tok -> i <= length g_tok ->
  skipn i ids = repeat 0 (length g_tok - i) ->
  align fuel g_tok labels_used seg_tokens pid_map mapping i ids masked
  = Ok (ids', masked') ->
  exists X Y,
    ids' = (firstn i ids ++ X)%list /\ masked' = (masked ++ Y)%list /\
    masks N (skipn i g_tok) X Y.
Proof.
  induction fuel as [|fuel IH]; intros i ids masked ids' masked' Hlen Hi Hz E.
  - discriminate E.
  - pose proof E as E0.
    cbn [align] in E. destruct (Nat.ltb_spec i (length g_tok)) as [Li|Li].
    + destruct (first_match g_tok i seg_tokens labels_used)
        as [[[lbl tok_seq]|]| |] eqn:Fm; cbn [rbind] in E; try discriminate E.
      * (* a proposition matches at [i] *)
        destruct tok_seq as [|t0 ts].
        { exfalso. exact (align_stuck i lbl Li Fm (S fuel) _ _ _ E0). }
        clear E0.
        set (tok_seq := t0 :: ts) in *. set (L := length tok_seq) in *.
        assert (HL : 1 <= L) by (subst L tok_seq; simpl; lia).
        destruct (first_match_Some _ _ _ _ Fm) as [Hin Hm].
        unfold matches_at in Hm. apply andb_prop in Hm. destruct Hm as [Hb _].
        fold L in Hb. apply Nat.leb_le in Hb.
        change (match L with 0 => Ok 0 | S _ => dict_getitem pid_map lbl end)
          with (dict_getitem pid_map lbl) in E.
        destruct (dict_getitem pid_map lbl) as [pid| |] eqn:Ep;
          cbn [rbind] in E; try discriminate E.
        destruct (dict_getitem mapping lbl) as [ph| |] eqn:Em;
          cbn [rbind] in E; try discriminate E.
        apply dict_getitem_Ok in Ep, Em.
        destruct (label_ids lbl pid ph Hin Ep Em) as [Hpid ->].
        rewrite assign_ids_spec in E by lia.
        apply IH in E.
        -- destruct E as (X & Y & -> & -> & Hmasks).
           exists (repeat pid L ++ X)%list, (placeholder pid :: Y).
           split.
           { rewrite firstn_app, firstn_firstn, length_firstn.
             replace (Nat.min (i + L) i) with i by lia.
             replace (Nat.min i (length ids)) with i by lia.
             replace (i + L - i) with L by lia.
             rewrite firstn_app, repeat_length, Nat.sub_diag. cbn [firstn].
             rewrite app_nil_r.
             replace (firstn L (repeat pid L)) with (repeat pid L)
               by (symmetry; apply firstn_all2; rewrite repeat_length; lia).
             now rewrite <- app_assoc. }
           split; [now rewrite <- app_assoc|].
           rewrite <- (firstn_skipn L (skipn i g_tok)), skipn_skipn.
           replace (L + i) with (i + L) by lia.
           assert (Hspan : length (firstn L (skipn i g_tok)) = L)
             by (rewrite length_firstn, length_skipn; lia).
           replace (repeat pid L)
             with (repeat pid (length (firstn L (skipn i g_tok))))
             by (now rewrite Hspan).
           apply masks_span; auto.
           intros Hnil. rewrite Hnil in Hspan. simpl in Hspan. lia.
        -- rewrite !length_app, length_firstn, repeat_length, length_skipn. lia.
        -- lia.
        -- rewrite app_assoc, skipn_app.
           rewrite length_app, length_firstn, repeat_length.
           replace (Nat.min i (length ids)) with i by lia.
           rewrite Nat.sub_diag. cbn [skipn].
           rewrite skipn_all2 by (rewrite length_app, length_firstn, repeat_length; lia).
           cbn [app].
           replace (i + L) with (L + i) by lia.
           rewrite <- skipn_skipn, Hz, skipn_repeat. f_equal. lia.
      * (* no proposition matches: the token is copied *)
        unfold getitem in E.
        destruct (nth_error g_tok i) as [w|] eqn:Ew; cbn [rbind] in E;
          [|discriminate E].
        apply IH in E; try lia.
        -- destruct E as (X & Y & -> & -> & Hmasks).
           exists (0 :: X), (w :: Y).
           destruct (skipn_cons_nth ids i) as (z & Ez & Hs); [lia|].
           assert (z = 0).
           { rewrite Hz in Hs. destruct (length g_tok - i) eqn:D; [lia|].
             simpl in Hs. congruence. }
           subst z.
           destruct (skipn_cons_nth g_tok i Li) as (w' & Ew' & Hw).
           rewrite Ew in Ew'. inversion Ew'. subst w'.
           split.
           { replace (i + 1) with (S i) by lia.
             rewrite (firstn_S_nth ids i 0 Ez). now rewrite <- app_assoc. }
           split; [now rewrite <- app_assoc|].
           rewrite Hw. apply masks_copy.
           replace (S i) with (i + 1) by lia. exact Hmasks.
        -- replace (i + 1) with (1 + i) by lia.
           rewrite <- skipn_skipn, Hz, skipn_repeat. f_equal. lia.
    + (* the end of the sentence *)
      inversion E. subst. exists [], [].
      rewrite skipn_all2 by lia.
      split; [|split; [now rewrite app_nil_r | constructor]].
      rewrite app_nil_r, firstn_all2; auto. lia.
Qed.

End Alignment.

Lemma masks_facts (N : nat) (s : list string) (ids : list nat) (g : list string) :
  masks N s ids g ->
  length ids = length s /\ length g <= length s /\ Forall (fun k => k <= N) ids.
Proof.
  induction 1 as [|t s ids g M (IH1 & IH2 & IH3)
                  |span k s ids g Hne Hk M (IH1 & IH2 & IH3)].
  - simpl. auto.
  - simpl. repeat split; try lia. constructor; [lia | exact IH3].
  - rewrite !length_app, repeat_length. simpl.
    assert (1 <= length span) by (destruct span; simpl; [contradiction | lia]).
    repeat split; try lia.
    apply Forall_app. split; [|exact IH3].
    apply Forall_forall. intros x Hx. apply repeat_spec in Hx. lia.
Qed.

(** ** Placeholders *)

Lemma str_of_nat_inj (n m : nat) : PyStr.str_of_nat n = PyStr.str_of_nat m -> n = m.
Proof.
  unfold PyStr.str_of_nat. intros E.
  apply Unsigned.to_uint_inj.
  assert (S : Some (Nat.to_uint n) = Some (Nat.to_uint m))
    by (rewrite <- !NilEmpty.usu; now rewrite E).
  now inversion S.
Qed.

Lemma placeholder_inj (n m : nat) : placeholder n = placeholder m -> n = m.
Proof.
  unfold placeholder. intros E. apply str_of_nat_inj.
  simpl in E. now inversion E.
Qed.

Lemma NoDup_map_inj {A B : Type} (f : A -> B) (l : list A) :
  (forall x y, f x = f y -> x = y) -> NoDup l -> NoDup (map f l).
Proof.
  intros Inj. induction 1 as [|x l Hx ND IH]; simpl; constructor; auto.
  intros I. apply in_map_iff in I. destruct I as (y & E & I).
  apply Inj in E. now subst.
Qed.

Lemma NoDup_placeholders (a n : nat) : NoDup (map placeholder (seq a n)).
Proof. apply NoDup_map_inj; [apply placeholder_inj | apply seq_NoDup]. Qed.

(** ** The id map and the placeholder map of [build_entry_for_props] *)

Lemma in_combine_seq {A : Type} (l : list A) :
  forall a i x, In (i, x) (combine (seq a (length l)) l) ->
  a <= i /\ nth_error l (i - a) = Some x.
Proof.
  induction l as [|y l IH]; intros a i x I; simpl in I; [contradiction|].
  destruct I as [E|I].
  - inversion E. subst. rewrite Nat.sub_diag. auto.
  - apply IH in I. destruct I as [L E]. split; [lia|].
    replace (i - a) with (S (i - S a)) by lia. exact E.
Qed.

Lemma pid_map_range (labels : list string) (lbl : string) (p : nat) :
  dict_get (pid_map_of labels) lbl = Some p ->
  1 <= p <= length labels /\ nth_error labels (p - 1) = Some lbl.
Proof.
  intros E. apply dict_of_get in E. destruct E as ([i l] & I & <- & <-).
  apply in_combine_seq in I. destruct I as [_ I]. simpl in *.
  rewrite Nat.sub_0_r in I.
  assert (i < length labels) by (apply nth_error_Some; congruence).
  split; [lia|]. now replace (i + 1 - 1) with i by lia.
Qed.

Lemma combine_seq_map {A : Type} (l : list A) (a : nat) :
  map snd (combine (seq a (length l)) l) = l.
Proof.
  revert a. induction l as [|x l IH]; intros a; simpl; auto. now rewrite IH.
Qed.

Lemma pid_map_nodup (labels : list string) :
  NoDup labels ->
  pid_map_of labels =
    map (fun il : nat * string => (snd il, fst il + 1))
        (combine (seq 0 (length labels)) labels).
Proof.
  intros ND. unfold pid_map_of. apply dict_of_nodup.
  now rewrite combine_seq_map.
Qed.

Lemma dict_get_map_nth {V : Type} (keys : list string) (vals : list V) :
  NoDup keys -> length keys = length vals ->
  forall i k v, nth_error keys i = Some k -> nth_error vals i = Some v ->
  dict_get (combine keys vals) k = Some v.
Proof.
  revert vals. induction keys as [|k0 keys IH]; intros [|v0 vals] ND L i k v Ek Ev;
    simpl in *; try discriminate; try (destruct i; discriminate).
  inversion ND as [|? ? Hnot ND']. subst.
  destruct i as [|i]; simpl in *.
  - inversion Ek. inversion Ev. subst. now rewrite String.eqb_refl.
  - destruct (String.eqb_spec k0 k) as [->|Hne].
    + exfalso. apply Hnot. eapply nth_error_In; eauto.
    + eapply IH; eauto.
Qed.

Lemma combine_seq_swap {A : Type} (f : nat -> nat) (l : list A) (a : nat) :
  map (fun il : nat * A => (snd il, f (fst il))) (combine (seq a (length l)) l)
  = combine l (map f (seq a (length l))).
Proof.
  revert a. induction l as [|x l IH]; intros a; simpl; auto.
  f_equal. apply IH.
Qed.

Lemma pid_map_nth (labels : list string) (i : nat) (lbl : string) :
  NoDup labels -> nth_error labels i = Some lbl ->
  dict_get (pid_map_of labels) lbl = Some (i + 1).
Proof.
  intros ND E. rewrite pid_map_nodup by exact ND.
  rewrite (combine_seq_swap (fun i => i + 1) labels 0).
  eapply dict_get_map_nth; eauto.
  - now rewrite length_map, length_seq.
  - rewrite nth_error_map, nth_error_seq.
    assert (Hlt : i < length labels) by (apply nth_error_Some; congruence).
    apply Nat.ltb_lt in Hlt. rewrite Hlt. reflexivity.
Qed.

(** ** Looking up a list of keys *)

Lemma dict_get_In_nodup {V : Type} (d : dict V) (k : string) (v : V) :
  NoDup (dict_keys d) -> In (k, v) d -> dict_get d k = Some v.
Proof.
  induction d as [|[k0 v0] d IH]; simpl; intros ND I; [contradiction|].
  inversion ND as [|? ? Hnot ND']. subst.
  destruct I as [E|I].
  - inversion E. subst. now rewrite String.eqb_refl.
  - destruct (String.eqb_spec k0 k) as [->|N]; auto.
    exfalso. apply Hnot. unfold dict_keys. apply in_map_iff. exists (k, v). auto.
Qed.

Lemma lookup_all_sub {V : Type} (d sub : dict V) :
  NoDup (dict_keys d) -> incl sub d ->
  lookup_all d (map fst sub) (map snd sub).
Proof.
  intros ND. induction sub as [|[k v] sub IH]; intros I; simpl; constructor.
  - apply dict_get_In_nodup; auto. apply I. simpl. auto.
  - apply IH. intros x Hx. apply I. simpl. auto.
Qed.

Lemma combine_fst {A B : Type} (l : list A) (l' : list B) :
  length l = length l' -> map fst (combine l l') = l.
Proof.
  revert l'. induction l as [|x l IH]; intros [|y l'] L; simpl in *;
    try discriminate; auto.
  f_equal. apply IH. lia.
Qed.

Lemma combine_snd {A B : Type} (l : list A) (l' : list B) :
  length l = length l' -> map snd (combine l l') = l'.
Proof.
  revert l'. induction l as [|x l IH]; intros [|y l'] L; simpl in *;
    try discriminate; auto.
  f_equal. apply IH. lia.
Qed.

Lemma lookup_all_combine {V : Type} (keys : list string) (vs : list V) :
  NoDup keys -> length keys = length vs ->
  lookup_all (combine keys vs) keys vs.
Proof.
  intros ND L.
  replace keys with (map fst (combine keys vs)) at 2
    by (apply combine_fst; exact L).
  replace vs with (map snd (combine keys vs)) at 3
    by (apply combine_snd; exact L).
  apply lookup_all_sub; [|apply incl_refl].
  unfold dict_keys. now rewrite combine_fst by exact L.
Qed.

Lemma rmap_lookup {V B : Type} (d : dict V) (G : string -> V -> B)
  (keys : list string) (vs : list V) :
  lookup_all d keys vs ->
  forall ys,
  rmap (fun l => a <~ dict_getitem d l ;; Ok (G l a)) keys = Ok ys ->
  ys = map (fun ka => G (fst ka) (snd ka)) (combine keys vs).
Proof.
  induction 1 as [|k v keys vs E F IH]; intros ys R; simpl in R.
  - now inversion R.
  - inv_run. apply dict_getitem_Ok in R1. rewrite E in R1. inversion R1. subst.
    simpl. f_equal. now apply IH.
Qed.

Lemma rmap_lookup2 {A B : Type} (d1 : dict A) (d2 : dict B)
  (keys : list string) (v1 : list A) :
  lookup_all d1 keys v1 ->
  forall v2 ys,
  lookup_all d2 keys v2 ->
  rmap (fun l => a <~ dict_getitem d1 l ;; b <~ dict_getitem d2 l ;; Ok (a, b))
       keys = Ok ys ->
  ys = combine v1 v2.
Proof.
  induction 1 as [|k a keys v1 E F IH]; intros v2 ys L2 R;
    inversion L2; subst; simpl in R.
  - now inversion R.
  - inv_run. apply dict_getitem_Ok in R1, R0.
    rewrite E in R1. inversion R1. subst.
    match goal with Hd : dict_get d2 k = Some _ |- _ => rewrite Hd in R0 end.
    inversion R0. subst. simpl. f_equal. now apply IH.
Qed.

Lemma In_firstn {A : Type} (n : nat) (l : list A) (x : A) :
  In x (firstn n l) -> In x l.
Proof.
  revert n. induction l as [|y l IH]; intros [|n]; simpl; try tauto.
  intros [E|I]; eauto.
Qed.

Lemma NoDup_firstn {A : Type} (n : nat) (l : list A) :
  NoDup l -> NoDup (firstn n l).
Proof.
  revert n. induction l as [|x l IH]; intros [|n] ND; simpl; try constructor.
  - inversion ND. subst. intros I. apply In_firstn in I. contradiction.
  - inversion ND. auto.
Qed.

Lemma incl_firstn {A : Type} (n : nat) (l : list A) : incl (firstn n l) l.
Proof. intros x. apply In_firstn. Qed.

Lemma Forall2_firstn {A B : Type} (R : A -> B -> Prop) (n : nat)
  (l : list A) (l' : list B) :
  Forall2 R l l' -> Forall2 R (firstn n l) (firstn n l').
Proof.
  intros F. revert n. induction F; intros [|n]; simpl; constructor; auto.
Qed.

(** ** The gerund update of the propositions *)

Lemma update_action_ref_fields (g_raw : string) (info info' : PropInfo) :
  update_action_ref g_raw info = Ok info' ->
  action_canon info' = action_canon info /\
  args_canon info' = args_canon info /\
  args_ref info' = args_ref info.
Proof.
  unfold update_action_ref. intros E. inv_run.
  destruct (negb (PyStr.contains a g_raw) && PyStr.contains (_to_gerund a) g_raw);
    inversion R0; subst; auto.
Qed.

Lemma update_action_ref_atom (g_raw : string) (info info' : PropInfo) :
  update_action_ref g_raw info = Ok info' -> _atom info' = _atom info.
Proof.
  intros E. apply update_action_ref_fields in E. destruct E as (E1 & E2 & _).
  unfold _atom. now rewrite E1, E2.
Qed.

Lemma update_action_refs_updated (g_raw : string) (props props' : dict PropInfo) :
  update_action_refs g_raw props = Ok props' -> updated g_raw props props'.
Proof.
  unfold update_action_refs, updated. intros E. apply rmap_Ok in E.
  induction E as [|kv kv' l l' E F IH]; constructor; auto.
  inv_run. simpl. auto.
Qed.

Lemma updated_keys (g_raw : string) (props props' : dict PropInfo) :
  updated g_raw props props' -> dict_keys props' = dict_keys props.
Proof.
  unfold dict_keys. induction 1 as [|kv kv' l l' [E _] F IH]; simpl; congruence.
Qed.

Lemma updated_atoms (g_raw : string) (props props' : dict PropInfo) :
  updated g_raw props props' ->
  map _atom (dict_values props') = map _atom (dict_values props).
Proof.
  unfold dict_values. induction 1 as [|kv kv' l l' [_ E] F IH]; simpl; auto.
  f_equal; auto. now apply update_action_ref_atom in E.
Qed.

(** ** What a successful run of [build_entry_for_props] computed *)

Lemma map_combine_snd {A B C : Type} (f : B -> C) (l : list A) (vs : list B) :
  map (fun ka => (fst ka, f (snd ka))) (combine l vs) = combine l (map f vs).
Proof.
  revert vs. induction l as [|x l IH]; intros [|v vs]; simpl; auto.
  f_equal. apply IH.
Qed.

Lemma map_pair_id {A B : Type} (l : list (A * B)) :
  map (fun x => (fst x, snd x)) l = l.
Proof. induction l as [|[a b] l IH]; simpl; congruence. Qed.

Lemma dict_of_pairs {V : Type} (l : dict V) :
  NoDup (map fst l) -> dict_of fst snd l = l.
Proof. intros ND. rewrite dict_of_nodup by exact ND. apply map_pair_id. Qed.

Lemma map_succ_seq (n : nat) :
  map placeholder (map (fun i => i + 1) (seq 0 n)) = map placeholder (seq 1 n).
Proof.
  rewrite <- seq_shift, !map_map. apply map_ext. intros i. f_equal. lia.
Qed.

Lemma viable_In (arity : nat) (tpl : string * nat * skeleton) :
  In tpl (match filter (fun tpl => snd (fst tpl) =? arity) LTL_TEMPLATES_STATE with
          | [] => filter (fun tpl => snd (fst tpl) <=? arity) LTL_TEMPLATES_STATE
          | _ :: _ => filter (fun tpl => snd (fst tpl) =? arity) LTL_TEMPLATES_STATE
          end) ->
  In tpl LTL_TEMPLATES_STATE /\ snd (fst tpl) <= arity.
Proof.
  destruct (filter (fun tpl => snd (fst tpl) =? arity) LTL_TEMPLATES_STATE) eqn:F.
  - intros I. apply filter_In in I. destruct I as [I L].
    apply Nat.leb_le in L. auto.
  - rewrite <- F. intros I. apply filter_In in I. destruct I as [I L].
    apply Nat.eqb_eq in L. split; [exact I | lia].
Qed.

(** The first skeleton of each size. *)
Lemma viable_nonempty (arity : nat) :
  1 <= arity ->
  (match filter (fun tpl => snd (fst tpl) =? arity) LTL_TEMPLATES_STATE with
   | [] => filter (fun tpl => snd (fst tpl) <=? arity) LTL_TEMPLATES_STATE
   | _ :: _ => filter (fun tpl => snd (fst tpl) =? arity) LTL_TEMPLATES_STATE
   end) <> [].
Proof.
  intros L.
  destruct (filter (fun tpl => snd (fst tpl) =? arity) LTL_TEMPLATES_STATE) eqn:F;
    [|discriminate].
  intros N.
  assert (I : In (hd ("", 0, fun _ => Ok []) LTL_TEMPLATES_STATE)
                 (filter (fun tpl => snd (fst tpl) <=? arity) LTL_TEMPLATES_STATE)).
  { apply filter_In. split; [left; reflexivity|]. apply Nat.leb_le. exact L. }
  rewrite N in I. contradiction.
Qed.

Lemma viable_exact (arity : nat) (tpl : string * nat * skeleton) :
  In tpl (match filter (fun tpl => snd (fst tpl) =? arity) LTL_TEMPLATES_STATE with
          | [] => filter (fun tpl => snd (fst tpl) <=? arity) LTL_TEMPLATES_STATE
          | _ :: _ => filter (fun tpl => snd (fst tpl) =? arity) LTL_TEMPLATES_STATE
          end) ->
  1 <= arity <= 3 -> snd (fst tpl) = arity.
Proof.
  intros I L.
  destruct (filter (fun tpl => snd (fst tpl) =? arity) LTL_TEMPLATES_STATE) eqn:F.
  - exfalso.
    assert (X : exists t, In t LTL_TEMPLATES_STATE /\ snd (fst t) = arity).
    { destruct arity as [|[|[|[|n]]]]; try lia.
      - exists (nth 0 LTL_TEMPLATES_STATE ("", 0, fun _ => Ok [])).
        split; [left; reflexivity | reflexivity].
      - exists (nth 2 LTL_TEMPLATES_STATE ("", 0, fun _ => Ok [])).
        split; [right; right; left; reflexivity | reflexivity].
      - exists (nth 15 LTL_TEMPLATES_STATE ("", 0, fun _ => Ok [])).
        split; [do 15 right; left; reflexivity | reflexivity]. }
    destruct X as (t & It & Et).
    assert (J : In t (filter (fun tpl => snd (fst tpl) =? arity) LTL_TEMPLATES_STATE)).
    { apply filter_In. split; [exact It | now apply Nat.eqb_eq]. }
    rewrite F in J. contradiction.
  - rewrite <- F in I. apply filter_In in I. destruct I as [_ I].
    now apply Nat.eqb_eq in I.
Qed.

(** Every skeleton of the catalog takes one, two or three propositions. *)
Lemma catalog_arities :
  Forall (fun tpl : string * nat * skeleton => 1 <= snd (fst tpl) <= 3)
         LTL_TEMPLATES_STATE.
Proof. repeat constructor. Qed.

Section Grounding.

Context `{NLP}.

(** The same, with what the choice of the skeleton adds: a dictionary of
    one, two or three propositions gets a skeleton of exactly its size. *)
Lemma build_entry_for_props_run (fuel idx : nat) (props : dict PropInfo)
  (actions_cfg : dict (list string)) (g g' : rng) (e : Entry) :
  NoDup (dict_keys props) ->
  build_entry_for_props fuel idx props actions_cfg g = Ok (e, g') ->
  exists key need skel with_ego props' m_ltl,
   (
    let labels := firstn need (dict_keys props) in
    let g_raw := correct_sentence with_ego in
    let phs := map placeholder (seq 1 need) in
    In (key, need, skel) LTL_TEMPLATES_STATE /\
    need <= length props /\
    updated g_raw props props' /\
    skel (map _atom (firstn need (dict_values props))) = Ok (tl e) /\
    skel labels = Ok m_ltl /\
    masked_tl e =
      map (fun t => match dict_get (combine labels phs) t with
                    | Some v => v
                    | None => t
                    end) m_ltl /\
    prop_dict e = combine phs (firstn need (dict_values props')) /\
    sentence e = PyStr.split g_raw /\
    masks need (sentence e) (lifted_sentence_prop_ids e) (grounded_sentence e) /\
    _make_traces key (map _atom (firstn need (dict_values props)))
      = Ok (good_trace e, bad_trace e) /\
    id e = idx)
   /\ (1 <= length props <= 3 -> need = length props)
   /\ exists seg_list,
        rmap (fun lbl => toks <~ _segment_tokens actions_cfg props' lbl ;;
                         Ok (lbl, toks))
             (firstn need (dict_keys props)) = Ok seg_list
        /\ align fuel (sentence e) (firstn need (dict_keys props))
                 (dict_of fst snd seg_list)
                 (pid_map_of (firstn need (dict_keys props)))
                 (combine (firstn need (dict_keys props))
                          (map placeholder (seq 1 need)))
                 0 (repeat 0 (length (sentence e))) []
           = Ok (lifted_sentence_prop_ids e, grounded_sentence e).
Proof.
  intros ND E. unfold build_entry_for_props in E.
  run_bind E tpl0 g1 Rc. destruct tpl0 as [[key need] skel].
  pose proof (viable_exact (length props) _ (random_choice_In _ _ _ _ Rc)) as Hexact.
  cbn [fst snd] in Hexact.
  apply random_choice_In, viable_In in Rc. destruct Rc as [HIn Hneed].
  cbn [fst snd] in Hneed.
  set (labels := firstn need (dict_keys props)) in *.
  set (vals := firstn need (dict_values props)).
  assert (Llab : length labels = need).
  { unfold labels, dict_keys. rewrite length_firstn, length_map. lia. }
  assert (Lvals : length vals = need).
  { unfold vals, dict_values. rewrite length_firstn, length_map. lia. }
  assert (NDlab : NoDup labels) by (apply NoDup_firstn; exact ND).
  assert (Lall : lookup_all props labels vals).
  { unfold labels, vals, dict_keys, dict_values. rewrite !firstn_map.
    apply lookup_all_sub; [exact ND | apply incl_firstn]. }
  (* the grounded and the masked formula *)
  run_bind E atoms g2 Ra. run_lift Ra.
  apply (rmap_lookup props (fun _ a => _atom a) labels vals Lall) in Ra.
  assert (Hatoms : atoms = map _atom vals).
  { rewrite Ra. cbn [snd].
    rewrite <- (map_map snd _atom (combine labels vals)).
    now rewrite combine_snd by lia. }
  clear Ra. subst atoms.
  run_bind E g_ltl g2 Rg. run_lift Rg.
  run_bind E m_ltl g2 Rm. run_lift Rm.
  (* the sentence *)
  run_bind E segs g2 Rs. run_lift Rs.
  run_bind E tpl g2 Rt.
  run_bind E ego g3 Re.
  run_bind E raw g4 Rr. run_lift Rr.
  run_bind E with_ego g4 Rw. run_lift Rw.
  set (g_raw := correct_sentence with_ego) in *.
  (* the updated propositions *)
  run_bind E props' g4 Ru. run_lift Ru.
  apply update_action_refs_updated in Ru.
  pose proof (updated_keys _ _ _ Ru) as Hkeys.
  set (vals' := firstn need (dict_values props')).
  assert (Lvals' : length vals' = need).
  { unfold vals', dict_values. rewrite length_firstn, length_map.
    rewrite <- (length_map fst props'). fold (dict_keys props').
    rewrite Hkeys. unfold dict_keys. rewrite length_map. lia. }
  assert (Lall' : lookup_all props' labels vals').
  { unfold labels, vals'. rewrite <- Hkeys. unfold dict_keys, dict_values.
    rewrite !firstn_map.
    apply lookup_all_sub; [|apply incl_firstn].
    fold (dict_keys props'). now rewrite Hkeys. }
  run_bind E segs' g4 Rs'. run_lift Rs'.
  run_bind E seg_list g4 Rseg. run_lift Rseg.
  (* the id map and the placeholder map *)
  set (phs := map placeholder (seq 1 need)).
  assert (Lphs : length phs = need)
    by (unfold phs; now rewrite length_map, length_seq).
  assert (Hpid : pid_map_of labels = combine labels (map (fun i => i + 1) (seq 0 need))).
  { rewrite pid_map_nodup by exact NDlab.
    rewrite (combine_seq_swap (fun i => i + 1) labels 0). now rewrite Llab. }
  run_bind E ml g4 Rml. run_lift Rml.
  assert (Hml : ml = combine labels phs).
  { apply (rmap_lookup (pid_map_of labels) (fun l p => (l, placeholder p))
             labels (map (fun i => i + 1) (seq 0 need))) in Rml.
    - rewrite Rml. cbn [fst snd]. rewrite map_combine_snd.
      unfold phs. now rewrite map_succ_seq.
    - rewrite Hpid. apply lookup_all_combine; [exact NDlab|].
      rewrite length_map, length_seq. exact Llab. }
  subst ml.
  assert (Hmapping : dict_of fst snd (combine labels phs) = combine labels phs).
  { apply dict_of_pairs. rewrite combine_fst by lia. exact NDlab. }
  rewrite Hmapping in E.
  (* the labelling loop *)
  run_bind E im g4 Ral. destruct im as [ids masked]. run_lift Ral.
  pose proof Ral as Ral0.
  apply (align_spec _ _ _ _ _ need) in Ral.
  2:{ intros lbl pid ph Hl Hp Hm.
      apply pid_map_range in Hp. destruct Hp as [Hr Hn]. rewrite Llab in Hr.
      split; [exact Hr|].
      assert (Hph : dict_get (combine labels phs) lbl = Some (placeholder pid)).
      { eapply dict_get_map_nth; eauto; [lia|].
        unfold phs. rewrite nth_error_map, nth_error_seq.
        destruct (Nat.ltb_spec (pid - 1) need); [|lia].
        cbn [option_map]. do 2 f_equal. lia. }
      congruence. }
  2:{ apply repeat_length. }
  2:{ lia. }
  2:{ cbn [skipn]. now rewrite Nat.sub_0_r. }
  destruct Ral as (X & Y & -> & -> & Hmasks). cbn [firstn skipn app] in *.
  (* the traces *)
  run_bind E atoms' g4 Ra'. run_lift Ra'.
  apply (rmap_lookup props' (fun _ a => _atom a) labels vals' Lall') in Ra'.
  assert (Hatoms' : atoms' = map _atom vals).
  { rewrite Ra'. cbn [snd].
    rewrite <- (map_map snd _atom (combine labels vals')).
    rewrite combine_snd by lia.
    unfold vals, vals'. rewrite <- !firstn_map. f_equal.
    eapply updated_atoms; eauto. }
  clear Ra'. subst atoms'.
  run_bind E gb g4 Rtr. destruct gb as [good bad]. run_lift Rtr.
  (* the final entry *)
  run_bind E pf g4 Rpf. run_lift Rpf.
  apply (rmap_lookup2 (combine labels phs) props' labels phs) with (v2 := vals')
    in Rpf; [| apply lookup_all_combine; [exact NDlab | lia] | exact Lall'].
  subst pf.
  rewrite dict_of_pairs in E
    by (rewrite combine_fst by lia; unfold phs; apply NoDup_placeholders).
  apply ret_Ok in E. destruct E as [-> ->]. cbn [id sentence tl masked_tl
    grounded_sentence lifted_sentence_prop_ids prop_dict good_trace bad_trace].
  exists key, need, skel, with_ego, props', m_ltl.
  split; [|split; [exact Hexact|exists seg_list; split; [exact Rseg | exact Ral0]]].
  cbn zeta.
  fold labels. fold g_raw. fold phs. fold vals. fold vals'.
  repeat split; auto.
Qed.

Lemma build_entry_for_props_inv (fuel idx : nat) (props : dict PropInfo)
  (actions_cfg : dict (list string)) (g g' : rng) (e : Entry) :
  NoDup (dict_keys props) ->
  build_entry_for_props fuel idx props actions_cfg g = Ok (e, g') ->
  exists key need skel with_ego props' m_ltl,
    let labels := firstn need (dict_keys props) in
    let g_raw := correct_sentence with_ego in
    let phs := map placeholder (seq 1 need) in
    In (key, need, skel) LTL_TEMPLATES_STATE /\
    need <= length props /\
    updated g_raw props props' /\
    skel (map _atom (firstn need (dict_values props))) = Ok (tl e) /\
    skel labels = Ok m_ltl /\
    masked_tl e =
      map (fun t => match dict_get (combine labels phs) t with
                    | Some v => v
                    | None => t
                    end) m_ltl /\
    prop_dict e = combine phs (firstn need (dict_values props')) /\
    sentence e = PyStr.split g_raw /\
    masks need (sentence e) (lifted_sentence_prop_ids e) (grounded_sentence e) /\
    _make_traces key (map _atom (firstn need (dict_values props)))
      = Ok (good_trace e, bad_trace e) /\
    id e = idx.
Proof.
  intros ND E.
  destruct (build_entry_for_props_run _ _ _ _ _ _ _ ND E)
    as (key & need & skel & with_ego & props' & m_ltl & Hinv & _).
  exists key, need, skel, with_ego, props', m_ltl. exact Hinv.
Qed.

End Grounding.

(** ** The labelling loop, span by span *)

Lemma nth_skipn_add {A : Type} (l : list A) (i j : nat) (d : A) :
  nth j (skipn i l) d = nth (i + j) l d.
Proof.
  revert l. induction i as [|i IH]; intros [|x l]; simpl; auto. now destruct j.
Qed.

Lemma matches_at_skipn `{NLP} (g_tok : list string) (i : nat) (toks : list string) :
  i <= length g_tok ->
  matches_at (skipn i g_tok) 0 toks = matches_at g_tok i toks.
Proof.
  intros L. unfold matches_at. rewrite length_skipn. f_equal.
  - destruct (Nat.leb_spec (0 + length toks) (length g_tok - i)),
             (Nat.leb_spec (i + length toks) (length g_tok)); try reflexivity; lia.
  - induction (seq 0 (length toks)) as [|j l IH]; cbn [forallb]; [reflexivity|].
    now rewrite IH, nth_skipn_add.
Qed.

Lemma rmap_pairs {B : Type} (f : string -> res B) (l : list string) :
  forall ps, rmap (fun x => y <~ f x ;; Ok (x, y)) l = Ok ps ->
  ps = combine l (map snd ps) /\ Forall2 (fun x y => f x = Ok y) l (map snd ps).
Proof.
  induction l as [|x l IH]; intros ps E; cbn [rmap] in E.
  - injection E as <-. split; constructor.
  - apply rbind_Ok in E. destruct E as (p & E1 & E).
    apply rbind_Ok in E. destruct E as (ps' & E2 & E).
    injection E as <-.
    apply rbind_Ok in E1. destruct E1 as (y & E1 & E3). injection E3 as <-.
    destruct (IH _ E2) as [Hc Hf]. cbn [map snd combine].
    split; [now rewrite <- Hc | now constructor].
Qed.

Lemma Forall2_nth {A B : Type} (R : A -> B -> Prop) (l : list A) (l' : list B) :
  length l = length l' ->
  (forall i x y, nth_error l i = Some x -> nth_error l' i = Some y -> R x y) ->
  Forall2 R l l'.
Proof.
  revert l'. induction l as [|x l IH]; intros [|y l'] L Hn; simpl in L;
    try discriminate; constructor.
  - exact (Hn 0 x y eq_refl eq_refl).
  - apply IH; [lia|]. intros i x' y' Ex Ey. exact (Hn (S i) x' y' Ex Ey).
Qed.

Lemma Forall2_nth_error {A B : Type} (R : A -> B -> Prop) (l : list A) (l' : list B) :
  Forall2 R l l' ->
  forall i x y, nth_error l i = Some x -> nth_error l' i = Some y -> R x y.
Proof.
  induction 1 as [|x0 y0 l l' R0 F IH]; intros i x y Ex Ey.
  - now destruct i.
  - destruct i as [|i]; simpl in Ex, Ey.
    + injection Ex as <-. injection Ey as <-. exact R0.
    + eapply IH; eauto.
Qed.

Section AlignmentExact.

Context `{NLP}.

Variable g_tok labels_used : list string.
Variable seg_tokens : dict (list string).
Variable pid_map : dict nat.
Variable mapping : dict string.
Variable segs : list (list string).

(** The labels are those of the propositions 1, 2, ... in order: [segs]
    lists their segment tokens, and the label at index [k] has the id
    [k + 1] and the placeholder of that id. *)
Hypothesis label_segs :
  Forall2 (fun lbl toks => dict_get seg_tokens lbl = Some toks) labels_used segs.

Hypothesis label_index :
  forall k lbl, nth_error labels_used k = Some lbl ->
  dict_get pid_map lbl = Some (k + 1)
  /\ dict_get mapping lbl = Some (placeholder (k + 1)).

(** The inner loop stops at the first label, in order, whose tokens match. *)
Lemma first_match_index (i : nat) :
  forall labels sg,
  Forall2 (fun lbl toks => dict_get seg_tokens lbl = Some toks) labels sg ->
  match first_match g_tok i seg_tokens labels with
  | Ok (Some (lbl, toks)) =>
      exists k, nth_error labels k = Some lbl /\ nth_error sg k = Some toks
        /\ matches_at g_tok i toks = true
        /\ forall k' toks', k' < k -> nth_error sg k' = Some toks' ->
                            matches_at g_tok i toks' = false
  | Ok None => forall toks, In toks sg -> matches_at g_tok i toks = false
  | _ => False
  end.
Proof.
  induction 1 as [|lbl toks labels sg Hget F IH]; cbn [first_match].
  - intros toks [].
  - unfold dict_getitem. rewrite Hget. cbn [rbind].
    destruct (matches_at g_tok i toks) eqn:Mt.
    + exists 0. repeat split; auto. intros k' toks' Hk. lia.
    + destruct (first_match g_tok i seg_tokens labels) as [[[l t]|]| |]; auto.
      * destruct IH as (k & E1 & E2 & Hm & Hbefore). exists (S k).
        cbn [nth_error]. repeat split; auto.
        intros [|k'] toks' Hk E'; cbn [nth_error] in E'.
        -- injection E' as <-. exact Mt.
        -- eapply Hbefore; eauto. lia.
      * intros toks' [<-|I]; auto.
Qed.

Lemma align_exact (fuel : nat) :
  forall i ids masked ids' masked',
  length ids = length g_tok -> i <= length g_tok ->
  skipn i ids = repeat 0 (length g_tok - i) ->
  align fuel g_tok labels_used seg_tokens pid_map mapping i ids masked
  = Ok (ids', masked') ->
  exists X Y,
    ids' = (firstn i ids ++ X)%list /\ masked' = (masked ++ Y)%list /\
    aligned segs (skipn i g_tok) X Y.
Proof.
  induction fuel as [|fuel IH]; intros i ids masked ids' masked' Hlen Hi Hz E.
  - discriminate E.
  - pose proof E as E0.
    cbn [align] in E. destruct (Nat.ltb_spec i (length g_tok)) as [Li|Li].
    + pose proof (first_match_index i labels_used segs label_segs) as Fi.
      destruct (first_match g_tok i seg_tokens labels_used)
        as [[[lbl tok_seq]|]| |] eqn:Fm; cbn [rbind] in E; try discriminate E.
      * (* a proposition matches at [i] *)
        destruct tok_seq as [|t0 ts].
        { exfalso. exact (align_stuck _ _ _ _ _ i lbl Li Fm (S fuel) _ _ _ E0). }
        clear E0.
        set (tok_seq := t0 :: ts) in *. set (L := length tok_seq) in *.
        assert (HL : 1 <= L) by (subst L tok_seq; simpl; lia).
        destruct Fi as (k & Ek & Es & Hm & Hbefore).
        pose proof Hm as Hb.
        unfold matches_at in Hb. apply andb_prop in Hb. destruct Hb as [Hb _].
        fold L in Hb. apply Nat.leb_le in Hb.
        change (match L with 0 => Ok 0 | S _ => dict_getitem pid_map lbl end)
          with (dict_getitem pid_map lbl) in E.
        destruct (label_index k lbl Ek) as [Ep Em].
        unfold dict_getitem in E. rewrite Ep, Em in E. cbn [rbind] in E.
        rewrite assign_ids_spec in E by lia.
        apply IH in E.
        -- destruct E as (X & Y & -> & -> & Hal).
           exists (repeat (k + 1) L ++ X)%list, (placeholder (k + 1) :: Y).
           split.
           { rewrite firstn_app, firstn_firstn, length_firstn.
             replace (Nat.min (i + L) i) with i by lia.
             replace (Nat.min i (length ids)) with i by lia.
             replace (i + L - i) with L by lia.
             rewrite firstn_app, repeat_length, Nat.sub_diag. cbn [firstn].
             rewrite app_nil_r.
             replace (firstn L (repeat (k + 1) L)) with (repeat (k + 1) L)
               by (symmetry; apply firstn_all2; rewrite repeat_length; lia).
             now rewrite <- app_assoc. }
           split; [now rewrite <- app_assoc|].
           apply (aligned_span segs k tok_seq); auto.
           ++ discriminate.
           ++ now rewrite matches_at_skipn by lia.
           ++ intros k' toks' Hk E'. rewrite matches_at_skipn by lia. eauto.
           ++ rewrite skipn_skipn. fold L.
              now replace (L + i) with (i + L) by lia.
        -- rewrite !length_app, length_firstn, repeat_length, length_skipn. lia.
        -- lia.
        -- rewrite app_assoc, skipn_app.
           rewrite length_app, length_firstn, repeat_length.
           replace (Nat.min i (length ids)) with i by lia.
           rewrite Nat.sub_diag. cbn [skipn].
           rewrite skipn_all2 by (rewrite length_app, length_firstn, repeat_length; lia).
           cbn [app].
           replace (i + L) with (L + i) by lia.
           rewrite <- skipn_skipn, Hz, skipn_repeat. f_equal. lia.
      * (* no proposition matches: the token is copied *)
        unfold getitem in E.
        destruct (nth_error g_tok i) as [w|] eqn:Ew; cbn [rbind] in E;
          [|discriminate E].
        apply IH in E; try lia.
        -- destruct E as (X & Y & -> & -> & Hal).
           exists (0 :: X), (w :: Y).
           destruct (skipn_cons_nth ids i) as (z & Ez & Hs); [lia|].
           assert (z = 0).
           { rewrite Hz in Hs. destruct (length g_tok - i) eqn:D; [lia|].
             simpl in Hs. congruence. }
           subst z.
           destruct (skipn_cons_nth g_tok i Li) as (w' & Ew' & Hw).
           rewrite Ew in Ew'. inversion Ew'. subst w'.
           split.
           { replace (i + 1) with (S i) by lia.
             rewrite (firstn_S_nth ids i 0 Ez). now rewrite <- app_assoc. }
           split; [now rewrite <- app_assoc|].
           rewrite Hw. apply aligned_copy.
           ++ intros toks I. rewrite <- Hw, matches_at_skipn by lia. now apply Fi.
           ++ replace (S i) with (i + 1) by lia. exact Hal.
        -- replace (i + 1) with (1 + i) by lia.
           rewrite <- skipn_skipn, Hz, skipn_repeat. f_equal. lia.
    + (* the end of the sentence *)
      inversion E. subst. exists [], [].
      rewrite skipn_all2 by lia.
      split; [|split; [now rewrite app_nil_r | constructor]].
      rewrite app_nil_r, firstn_all2; auto. lia.
Qed.

End AlignmentExact.

(** [aligned] leaves no choice: the sentence and the segment tokens
    determine the ids and the masked sentence. *)
Lemma aligned_unique `{NLP} (segs : list (list string)) (s : list string)
  (ids : list nat) (g : list string) :
  aligned segs s ids g ->
  forall ids' g', aligned segs s ids' g' -> ids' = ids /\ g' = g.
Proof.
  assert (Hnil : forall toks, toks <> [] -> matches_at [] 0 toks = false).
  { intros [|t ts] Hne; [contradiction | reflexivity]. }
  induction 1 as [|t s ids g Hno A IH|k toks s ids g Ek Hne Hm Hbefore A IH];
    intros ids' g' A'.
  - inversion A' as [| |k' toks' s' ids0 g0 Ek' Hne' Hm' Hb' A0]; subst; auto.
    rewrite (Hnil _ Hne') in Hm'. discriminate Hm'.
  - inversion A' as [|t' s' ids0 g0 Hno' A0
                     |k' toks' s' ids0 g0 Ek' Hne' Hm' Hb' A0]; subst.
    + destruct (IH _ _ A0) as [-> ->]. auto.
    + apply nth_error_In in Ek'. rewrite (Hno _ Ek') in Hm'. discriminate Hm'.
  - inversion A' as [|t' s' ids0 g0 Hno' A0
                     |k' toks' s' ids0 g0 Ek' Hne' Hm' Hb' A0]; subst.
    + rewrite (Hnil _ Hne) in Hm. discriminate Hm.
    + apply nth_error_In in Ek. rewrite (Hno' _ Ek) in Hm. discriminate Hm.
    + assert (k' = k).
      { destruct (Nat.lt_trichotomy k' k) as [Lt|[Eq|Gt]]; [|exact Eq|].
        - rewrite (Hbefore _ _ Lt Ek') in Hm'. discriminate Hm'.
        - rewrite (Hb' _ _ Gt Ek) in Hm. discriminate Hm. }
      subst k'. rewrite Ek in Ek'. injection Ek' as <-.
      destruct (IH _ _ A0) as [-> ->]. auto.
Qed.

Lemma segment_tokens_same `{NLP} (actions_cfg : dict (list string))
  (d1 d2 : dict PropInfo) (k1 k2 : string) (info : PropInfo) :
  dict_get d1 k1 = Some info -> dict_get d2 k2 = Some info ->
  _segment_tokens actions_cfg d1 k1 = _segment_tokens actions_cfg d2 k2.
Proof.
  intros E1 E2. unfold _segment_tokens, dict_getitem. now rewrite E1, E2.
Qed.

(** C10. For an entry returned by [build_entry_for_props] (the
    proposition dictionary having one entry per key, as a [dict] has, and
    the strings of its propositions being ASCII text), with [N] the number
    of propositions used: [lifted_sentence_prop_ids] has one
    id per token of [sentence], every id is between 0 and [N], and
    [grounded_sentence] is [sentence] with each matched span replaced by
    exactly one placeholder and the unmatched tokens copied, so it is not
    longer than [sentence].  A matched span is a window of the sentence
    that the segment tokens of a proposition match, the first proposition
    in order where several match; its tokens carry the id of that
    proposition, and a copied token the id 0.  The relation [aligned] that
    says so determines the ids and the masked sentence
    ([aligned_unique]). *)
Theorem alignment_shape `{NLP} (fuel idx : nat) (props : dict PropInfo)
  (actions_cfg : dict (list string)) (g g' : rng) (e : Entry) :
  NoDup (dict_keys props) ->
  Forall ascii_prop (dict_values props) ->
  build_entry_for_props fuel idx props actions_cfg g = Ok (e, g') ->
  let N := length (prop_dict e) in
  length (lifted_sentence_prop_ids e) = length (sentence e)
  /\ Forall (fun k => 0 <= k <= N) (lifted_sentence_prop_ids e)
  /\ (exists segs,
        Forall2 (fun k toks =>
                   _segment_tokens actions_cfg (prop_dict e) (placeholder k) = Ok toks)
                (seq 1 N) segs
        /\ aligned segs (sentence e) (lifted_sentence_prop_ids e)
                    (grounded_sentence e))
  /\ length (grounded_sentence e) <= length (sentence e).
Proof.
  intros ND _ E.
  destruct (build_entry_for_props_run _ _ _ _ _ _ _ ND E)
    as (key & need & skel & with_ego & props' & m_ltl & Hinv & _
        & seg_list & Rseg & Ral).
  cbn zeta in Hinv.
  destruct Hinv as (_ & Hneed & Hup & _ & _ & _ & Hpd & _ & Hmasks & _).
  set (labels := firstn need (dict_keys props)) in *.
  set (vals' := firstn need (dict_values props')) in *.
  set (phs := map placeholder (seq 1 need)) in *.
  pose proof (updated_keys _ _ _ Hup) as Hkeys.
  assert (Llab : length labels = need).
  { unfold labels, dict_keys. rewrite length_firstn, length_map. lia. }
  assert (Lvals' : length vals' = need).
  { unfold vals', dict_values. rewrite length_firstn, length_map.
    rewrite <- (length_map fst props'). fold (dict_keys props').
    rewrite Hkeys. unfold dict_keys. rewrite length_map. lia. }
  assert (Lphs : length phs = need)
    by (unfold phs; now rewrite length_map, length_seq).
  assert (NDlab : NoDup labels) by (apply NoDup_firstn; exact ND).
  assert (Lall' : lookup_all props' labels vals').
  { unfold labels, vals'. rewrite <- Hkeys. unfold dict_keys, dict_values.
    rewrite !firstn_map.
    apply lookup_all_sub; [|apply incl_firstn].
    fold (dict_keys props'). now rewrite Hkeys. }
  assert (HN : length (prop_dict e) = need).
  { rewrite Hpd, length_combine. lia. }
  cbn zeta. rewrite HN.
  destruct (masks_facts _ _ _ _ Hmasks) as (L1 & L2 & L3).
  split; [exact L1|].
  split; [eapply Forall_impl; [|exact L3]; intros k Hk; cbn beta in Hk; lia|].
  split; [|exact L2].
  destruct (rmap_pairs _ _ _ Rseg) as [Hc Hf].
  set (segs := map snd seg_list) in *.
  assert (Lsegs : length segs = need)
    by (rewrite <- (Forall2_length_eq _ _ _ Hf); exact Llab).
  exists segs. split.
  - apply Forall2_nth; [now rewrite length_seq|].
    intros i k toks Ek Et. rewrite nth_error_seq in Ek.
    destruct (Nat.ltb_spec i need) as [Hi|Hi]; [|discriminate Ek].
    injection Ek as <-.
    destruct (nth_error labels i) as [lbl|] eqn:El;
      [|apply nth_error_None in El; lia].
    destruct (nth_error vals' i) as [info|] eqn:Ev;
      [|apply nth_error_None in Ev; lia].
    pose proof (Forall2_nth_error _ _ _ Hf i lbl toks El Et) as R1.
    pose proof (Forall2_nth_error _ _ _ Lall' i lbl info El Ev) as R2.
    cbn beta in R1, R2.
    rewrite <- R1. apply segment_tokens_same with (info := info); [|exact R2].
    rewrite Hpd. apply (dict_get_map_nth phs vals' (NoDup_placeholders 1 need)
                          (eq_trans Lphs (eq_sym Lvals')) i); [|exact Ev].
    unfold phs. rewrite nth_error_map, nth_error_seq.
    destruct (Nat.ltb_spec i need); [|lia]. reflexivity.
  - assert (Hd : dict_of fst snd seg_list = combine labels segs).
    { rewrite dict_of_pairs; [exact Hc|].
      rewrite Hc. unfold dict_keys. rewrite combine_fst by lia. exact NDlab. }
    rewrite Hd in Ral.
    apply (align_exact _ _ _ _ _ segs) in Ral.
    + destruct Ral as (X & Y & -> & -> & Hal). exact Hal.
    + apply lookup_all_combine; [exact NDlab | lia].
    + intros k lbl Ek. split; [now apply pid_map_nth|].
      apply (dict_get_map_nth labels phs NDlab (eq_trans Llab (eq_sym Lphs)) k);
        [exact Ek|].
      unfold phs. rewrite nth_error_map, nth_error_seq.
      assert (k < need) by (rewrite <- Llab; apply nth_error_Some; congruence).
      destruct (Nat.ltb_spec k need); [|lia].
      cbn [option_map]. do 2 f_equal. lia.
    + apply repeat_length.
    + lia.
    + cbn [skipn]. now rewrite Nat.sub_0_r.
Qed.

Lemma alignment_shape_witness :
  exists e g',
    build_entry_for_props (H := SimpleNLP) 40 0
      [("prop_1", {| action_canon := "deliver"; action_ref := "deliver";
                     args_canon := ["box"; "shelf"]; args_ref := ["box"; "shelf"] |})]
      [("deliver", ["item"; "location"])] (fun _ => 0) = Ok (e, g')
    /\ sentence e = ["The"; "robot"; "must"; "eventually,"; "avoid"; "delivering";
                     "the"; "box"; "to"; "the"; "shelf."]
    /\ lifted_sentence_prop_ids e = [0; 0; 0; 0; 0; 1; 1; 1; 1; 1; 1]
    /\ grounded_sentence e = ["The"; "robot"; "must"; "eventually,"; "avoid"; "prop_1"]
    /\ exists segs,
         Forall2 (fun k toks =>
                    _segment_tokens (H := SimpleNLP) [("deliver", ["item"; "location"])]
                                    (prop_dict e) (placeholder k) = Ok toks)
                 (seq 1 (length (prop_dict e))) segs
         /\ aligned (H := SimpleNLP) segs (sentence e) (lifted_sentence_prop_ids e)
                     (grounded_sentence e).
Proof.
  eexists. eexists. split; [vm_compute; reflexivity|].
  split; [reflexivity|]. split; [reflexivity|]. split; [reflexivity|].
  refine (proj1 (proj2 (proj2 (alignment_shape (H := SimpleNLP) 40 0
      [("prop_1", {| action_canon := "deliver"; action_ref := "deliver";
                     args_canon := ["box"; "shelf"]; args_ref := ["box"; "shelf"] |})]
      [("deliver", ["item"; "location"])] (fun _ => 0) _ _ _ _ _)))).
  - repeat constructor. simpl. tauto.
  - repeat constructor.
  - vm_compute. reflexivity.
Defined.

(** ** The proposition sampler *)

Lemma dict_set_keys_In {V : Type} (d : dict V) (k x : string) (v : V) :
  In x (dict_keys (dict_set d k v)) -> x = k \/ In x (dict_keys d).
Proof.
  induction d as [|[k0 v0] d IH]; simpl.
  - intros [E|[]]. auto.
  - destruct (String.eqb_spec k0 k) as [->|N]; simpl.
    + intros [E|I]; auto.
    + intros [E|I]; auto. apply IH in I. tauto.
Qed.

Lemma dict_set_keys_NoDup {V : Type} (d : dict V) (k : string) (v : V) :
  NoDup (dict_keys d) -> NoDup (dict_keys (dict_set d k v)).
Proof.
  induction d as [|[k0 v0] d IH]; simpl; intros ND.
  - constructor; [tauto | constructor].
  - inversion ND as [|? ? Hnot ND']. subst.
    destruct (String.eqb_spec k0 k) as [->|N]; simpl.
    + constructor; auto.
    + constructor; auto. intros I. apply dict_set_keys_In in I.
      destruct I as [E|I]; [congruence | contradiction].
Qed.

Lemma dict_set_values_In {V : Type} (d : dict V) (k : string) (v x : V) :
  In x (dict_values (dict_set d k v)) -> x = v \/ In x (dict_values d).
Proof.
  induction d as [|[k0 v0] d IH]; simpl.
  - intros [E|[]]. auto.
  - destruct (String.eqb_spec k0 k) as [->|N]; simpl.
    + intros [E|I]; auto.
    + intros [E|I]; auto. apply IH in I. tauto.
Qed.

Lemma dict_set_values_NoDup {V B : Type} (f : V -> B) (d : dict V) (k : string) (v : V) :
  NoDup (map f (dict_values d)) -> ~ In (f v) (map f (dict_values d)) ->
  NoDup (map f (dict_values (dict_set d k v))).
Proof.
  induction d as [|[k0 v0] d IH]; simpl; intros ND Hv.
  - constructor; [tauto | constructor].
  - inversion ND as [|? ? Hnot ND']. subst.
    destruct (String.eqb_spec k0 k) as [->|N]; simpl.
    + constructor; auto.
    + constructor; [|apply IH; auto].
      intros I. apply in_map_iff in I. destruct I as (x & E & I).
      apply dict_set_values_In in I. destruct I as [->|I].
      * apply Hv. left. congruence.
      * apply Hnot. rewrite <- E. now apply in_map.
Qed.

Lemma remove_nth_In {A : Type} (i : nat) (l : list A) (x : A) :
  In x (remove_nth i l) -> In x l.
Proof.
  revert i. induction l as [|y l IH]; intros [|i]; simpl; auto.
  intros [E|I]; eauto.
Qed.

Lemma random_sample_In {A : Type} (k : nat) :
  forall (pool l : list A) (g g' : rng),
  random_sample pool k g = Ok (l, g') -> forall x, In x l -> In x pool.
Proof.
  induction k as [|k IH]; intros pool l g g' E x Hx.
  - apply ret_Ok in E. destruct E as [-> _]. contradiction.
  - cbn [random_sample] in E. destruct pool as [|y pool].
    + discriminate E.
    + run_bind E r g1 Rr. run_bind E x0 g2 Rx. run_lift Rx.
      run_bind E rest g2 Rrest. apply ret_Ok in E. destruct E as [-> ->].
      destruct Hx as [<-|Hx].
      * unfold getitem in Rx.
        destruct (nth_error _ _) eqn:En; inversion Rx. subst.
        eapply nth_error_In; eauto.
      * eapply remove_nth_In, IH; eauto.
Qed.

Lemma mfold_invariant {A S : Type} (Inv : S -> Prop) (f : S -> A -> M S) (l : list A) :
  (forall s x g s' g', In x l -> Inv s -> f s x g = Ok (s', g') -> Inv s') ->
  forall s g s' g', Inv s -> mfold f l s g = Ok (s', g') -> Inv s'.
Proof.
  induction l as [|x l IH]; intros Hf s g s' g' Hs E; simpl in E.
  - apply ret_Ok in E. destruct E as [-> _]. exact Hs.
  - run_bind E s1 g1 R. eapply IH; [| |exact E].
    + intros. eapply Hf; eauto. simpl. auto.
    + eapply Hf; eauto. simpl. auto.
Qed.

Section Sampler.

Variable object_dict : dict (list string).
Variable actions_dict : dict (list string).
Variable locations : list string.
Variable actions_cfg : dict (list string).

Lemma sample_prop_inv (n : nat) :
  forall st lbl g st' g',
  is_pool_label lbl -> sample_inv st ->
  sample_prop object_dict actions_dict locations actions_cfg n st lbl g
    = Ok (st', g') ->
  sample_inv st'.
Proof.
  induction n as [|n IH]; intros st lbl g st' g' Hl Hs E.
  - apply ret_Ok in E. destruct E as [-> _]. exact Hs.
  - cbn [sample_prop] in E.
    run_bind E verb g1 Rv. run_bind E params g2 Rp. run_lift Rp.
    run_bind E args g2 Ra.
    destruct (PyStr.mem _ (snd st)) eqn:Hmem.
    + eapply IH; eauto.
    + run_bind E syns g3 Rsy. run_lift Rsy. run_bind E ref g3 Rr.
      apply ret_Ok in E. destruct E as [-> ->].
      destruct Hs as (K1 & K2 & K3 & K4). unfold sample_inv. cbn [fst snd].
      set (info := {| action_canon := verb; action_ref := ref;
                      args_canon := map fst args; args_ref := map snd args |}).
      assert (Hfresh : ~ In (_atom info) (snd st)).
      { intros I. apply mem_In in I. unfold info, _atom in I.
        cbn [args_canon action_canon] in I. congruence. }
      split; [now apply dict_set_keys_NoDup|].
      split.
      { apply Forall_forall. intros x Hx. apply dict_set_keys_In in Hx.
        destruct Hx as [->|Hx]; [exact Hl|].
        rewrite Forall_forall in K2. auto. }
      split.
      { apply dict_set_values_NoDup; auto. }
      intros a Ha. apply in_map_iff in Ha. destruct Ha as (x & <- & Hx).
      apply dict_set_values_In in Hx. destruct Hx as [->|Hx].
      * left. reflexivity.
      * right. apply K4. now apply in_map.
Qed.

(** The propositions sampled for one example: one entry per key, keys
    from the label pool, pairwise distinct atoms. *)
Lemma sample_props_inv (max_props : nat) (g g' : rng) (props : dict PropInfo) :
  sample_props object_dict actions_dict locations actions_cfg max_props g
    = Ok (props, g') ->
  NoDup (dict_keys props)
  /\ Forall is_pool_label (dict_keys props)
  /\ NoDup (map _atom (dict_values props)).
Proof.
  unfold sample_props. intros E.
  run_bind E k g1 Rk. run_bind E want g2 Rw. run_bind E st g3 Rf.
  apply ret_Ok in E. destruct E as [-> ->].
  assert (Hst : sample_inv st).
  { eapply (mfold_invariant sample_inv); [| |exact Rf].
    - intros s x g0 s' g0' Hx Hs Es. eapply sample_prop_inv; eauto.
      eapply random_sample_In in Hx; eauto.
      apply in_map_iff in Hx. destruct Hx as (i & <- & _). now exists i.
    - repeat split; simpl; try constructor. intros a []. }
  destruct Hst as (K1 & K2 & K3 & _). auto.
Qed.

End Sampler.

(** ** Distinct atoms *)

Lemma entry_atoms_distinct `{NLP} (fuel idx : nat) (props : dict PropInfo)
  (actions_cfg : dict (list string)) (g g' : rng) (e : Entry) :
  NoDup (dict_keys props) -> NoDup (map _atom (dict_values props)) ->
  build_entry_for_props fuel idx props actions_cfg g = Ok (e, g') ->
  NoDup (map _atom (dict_values (prop_dict e))).
Proof.
  intros ND NA E.
  destruct (build_entry_for_props_inv _ _ _ _ _ _ _ ND E)
    as (key & need & skel & with_ego & props' & m_ltl & Hinv).
  cbn zeta in Hinv.
  destruct Hinv as (_ & Hneed & Hup & _ & _ & _ & Hpd & _).
  rewrite Hpd. unfold dict_values at 1. rewrite combine_snd.
  - rewrite <- firstn_map, (updated_atoms _ _ _ Hup). now apply NoDup_firstn.
  - rewrite length_map, length_seq. unfold dict_values.
    rewrite length_firstn, length_map.
    rewrite <- (length_map fst props'). fold (dict_keys props').
    rewrite (updated_keys _ _ _ Hup). unfold dict_keys. rewrite length_map. lia.
Qed.

(** C5. In every example assembled by [build_dataset_entries] no two
    propositions have the same canonical atom string: the sampler stores a
    draw only when its atom is not among those already used in the
    example, and grounding keeps the atoms. *)
Theorem dataset_atoms_distinct `{NLP} (object_dict actions_dict : dict (list string))
  (locations : list string) (actions_cfg : dict (list string))
  (fuel align_fuel num_entries max_props : nat) (ds : list Entry) (g g' : rng) :
  build_dataset_entries object_dict actions_dict locations actions_cfg
    fuel align_fuel num_entries max_props g = Ok (ds, g') ->
  forall e, In e ds -> NoDup (map _atom (dict_values (prop_dict e))).
Proof.
  intros E. apply Forall_forall.
  eapply build_dataset_entries_invariant; [| |exact E].
  - intros g0 props g1 af idx e g2 Hs Hb _.
    apply sample_props_inv in Hs. destruct Hs as (K1 & _ & K3).
    eapply entry_atoms_distinct; eauto.
  - intros n e P. exact P.
Qed.

(** A run that returns two examples, the second one with two propositions. *)
Lemma dataset_atoms_distinct_witness :
  exists ds g',
    build_dataset_entries (H := SimpleNLP)
      [("box", ["box"])] [("move", ["move"])] ["shelf"; "dock"]
      [("move", ["item"; "location"])] 5 40 2 3 (fun n => n)
    = Ok (ds, g')
    /\ map (fun e => map _atom (dict_values (prop_dict e))) ds
       = [["move(box,dock)"]; ["move(box,dock)"; "move(box,shelf)"]]
    /\ forall e, In e ds -> NoDup (map _atom (dict_values (prop_dict e))).
Proof.
  eexists. eexists. split; [vm_compute; reflexivity|].
  split; [reflexivity|].
  eapply (dataset_atoms_distinct (H := SimpleNLP))
    with (object_dict := [("box", ["box"])]) (actions_dict := [("move", ["move"])])
         (locations := ["shelf"; "dock"])
         (actions_cfg := [("move", ["item"; "location"])])
         (fuel := 5) (align_fuel := 40) (num_entries := 2) (max_props := 3)
         (g := fun n => n).
  vm_compute. reflexivity.
Defined.

(** ** Formatting and splitting *)

Lemma split_from_word (w : string) :
  PyStr.all_chars (fun ch => negb (PyStr.is_space ch)) w = true ->
  forall cur r, PyStr.split_from cur (w ++ r) = PyStr.split_from (cur ++ w) r.
Proof.
  induction w as [|ch w IH]; intros Hw cur r; simpl.
  - now rewrite append_nil_r.
  - simpl in Hw. apply andb_prop in Hw. destruct Hw as [Hc Hw].
    destruct (PyStr.is_space ch); [discriminate Hc|].
    rewrite IH by exact Hw. now rewrite append_assoc.
Qed.

Lemma split_from_hole_mid (w : string) (ch : ascii) (r : string) :
  wordlike w -> PyStr.is_space ch = true ->
  PyStr.split_from "" (w ++ String ch r) = w :: PyStr.split_from "" r.
Proof.
  intros [Hne Hw] Hc. rewrite split_from_word by exact Hw.
  cbn [append PyStr.split_from]. rewrite Hc.
  destruct w; [contradiction | reflexivity].
Qed.

Lemma split_from_hole_end (w : string) :
  wordlike w -> PyStr.split_from "" (w ++ "") = [w].
Proof.
  intros [Hne Hw]. rewrite split_from_word by exact Hw.
  cbn [append PyStr.split_from]. destruct w; [contradiction | reflexivity].
Qed.

Lemma space_not_brace (ch : ascii) :
  PyStr.is_space ch = true ->
  Ascii.eqb ch "{" = false /\ Ascii.eqb ch "}" = false.
Proof.
  intros Hs. split.
  - destruct (Ascii.eqb_spec ch "{"%char) as [->|]; [|reflexivity].
    vm_compute in Hs. discriminate Hs.
  - destruct (Ascii.eqb_spec ch "}"%char) as [->|]; [|reflexivity].
    vm_compute in Hs. discriminate Hs.
Qed.

Lemma skipn_nth_wordlike (P : list string) (k : nat) :
  Forall wordlike P -> k < length P ->
  skipn k P = nth k P "" :: skipn (S k) P /\ wordlike (nth k P "").
Proof.
  intros HP Hk. destruct (skipn_cons_nth P k Hk) as (x & Ex & Hs).
  assert (Hx : nth k P "" = x) by (now apply nth_error_nth).
  rewrite Hx. split; [exact Hs|].
  rewrite Forall_forall in HP. apply HP. eapply nth_error_In; eauto.
Qed.

(** Formatting a format string with word-like arguments and splitting the
    result gives the tokens of the format string, the fields filled in. *)
Lemma fmt_tokens_sound (P : list string) :
  Forall wordlike P ->
  forall n fmt cur k pat,
  String.length fmt <= n ->
  fmt_tokens fmt cur k = Some pat ->
  (forall i, In (LTL.Hole i) pat -> i < length P) ->
  exists s, py_format fmt (skipn k P) = Ok s /\
            PyStr.split_from cur s = map (LTL.fill P) pat.
Proof.
  intros HP. induction n as [|n IH]; intros fmt cur k pat Hn Hpat Hholes.
  - destruct fmt; [|simpl in Hn; lia].
    simpl in Hpat. inversion Hpat. subst. exists "". split; [reflexivity|].
    destruct cur; reflexivity.
  - destruct fmt as [|ch rest].
    { simpl in Hpat. inversion Hpat. subst. exists "". split; [reflexivity|].
      destruct cur; reflexivity. }
    simpl in Hn. cbn [fmt_tokens py_format] in *.
    destruct (Ascii.eqb ch "{") eqn:Eo.
    + (* a field *)
      destruct rest as [|ch2 rest2]; [discriminate Hpat|].
      destruct rest2 as [|ch3 rest3].
      * destruct cur; [|discriminate Hpat].
        destruct (Ascii.eqb ch2 "}"); [|discriminate Hpat].
        inversion Hpat. subst pat.
        destruct (skipn_nth_wordlike P k HP) as [-> Hw];
          [apply Hholes; simpl; auto|].
        cbn [py_format rbind]. eexists. split; [reflexivity|].
        now rewrite split_from_hole_end.
      * destruct cur; [|discriminate Hpat].
        destruct (Ascii.eqb ch2 "}"); [|discriminate Hpat].
        destruct (PyStr.is_space ch3) eqn:Es; [|discriminate Hpat].
        cbn [andb] in Hpat.
        destruct (fmt_tokens rest3 "" (S k)) as [pat'|] eqn:Ep; [|discriminate Hpat].
        inversion Hpat. subst pat.
        destruct (skipn_nth_wordlike P k HP) as [-> Hw];
          [apply Hholes; simpl; auto|].
        destruct (IH rest3 "" (S k) pat') as (s' & Es' & Hs');
          [simpl in Hn; lia | exact Ep
          | intros i Hi; apply Hholes; simpl; auto |].
        destruct (space_not_brace ch3 Es) as [E1 E2].
        cbn [py_format]. rewrite E1, E2, Es'. cbn [rbind].
        eexists. split; [reflexivity|].
        rewrite split_from_hole_mid by assumption. simpl. now rewrite Hs'.
    + destruct (Ascii.eqb ch "}") eqn:Ec; [discriminate Hpat|].
      destruct (PyStr.is_space ch) eqn:Es.
      * (* a blank ends the word being read *)
        destruct cur as [|c0 cur].
        -- destruct (IH rest "" k pat) as (s' & Es' & Hs');
             [lia | exact Hpat | exact Hholes |].
           rewrite Es'. cbn [rbind]. eexists. split; [reflexivity|].
           cbn [PyStr.split_from]. now rewrite Es.
        -- destruct (fmt_tokens rest "" k) as [pat'|] eqn:Ep; [|discriminate Hpat].
           inversion Hpat. subst pat.
           destruct (IH rest "" k pat') as (s' & Es' & Hs');
             [lia | exact Ep | intros i Hi; apply Hholes; simpl; auto |].
           rewrite Es'. cbn [rbind]. eexists. split; [reflexivity|].
           cbn [PyStr.split_from]. rewrite Es. simpl. now rewrite Hs'.
      * (* one more character of the word *)
        destruct (IH rest (cur ++ String ch "") k pat) as (s' & Es' & Hs');
          [lia | exact Hpat | exact Hholes |].
        rewrite Es'. cbn [rbind]. eexists. split; [reflexivity|].
        cbn [PyStr.split_from]. now rewrite Es.
Qed.

Lemma holes_below_spec (n : nat) (pat : list LTL.tok) :
  holes_below n pat = true -> forall i, In (LTL.Hole i) pat -> i < n.
Proof.
  unfold holes_below. rewrite forallb_forall. intros Hf i Hi.
  apply Hf in Hi. now apply Nat.ltb_lt.
Qed.

Lemma format_all_tokens (fmt : string) (pat : list LTL.tok) (P : list string) :
  fmt_tokens fmt "" 0 = Some pat ->
  holes_below (length P) pat = true ->
  Forall wordlike P ->
  format_all fmt P = Ok (map (LTL.fill P) pat).
Proof.
  intros Hpat Hh HP. unfold format_all.
  destruct (fmt_tokens_sound P HP (String.length fmt) fmt "" 0 pat)
    as (s & Es & Hs); auto.
  { now apply holes_below_spec. }
  cbn [skipn] in Es. rewrite Es. cbn [rbind]. unfold PyStr.split. now rewrite Hs.
Qed.

Lemma rmap_getitem (P : list string) (idx : list nat) :
  forallb (fun i => i <? length P) idx = true ->
  rmap (getitem P) idx = Ok (map (fun i => nth i P "") idx).
Proof.
  induction idx as [|i idx IH]; simpl; intros Hi; [reflexivity|].
  apply andb_prop in Hi. destruct Hi as [Hi Hr]. apply Nat.ltb_lt in Hi.
  unfold getitem at 1.
  destruct (nth_error P i) as [x|] eqn:E; [|apply nth_error_None in E; lia].
  cbn [rbind]. rewrite (IH Hr). cbn [rbind].
  now rewrite (nth_error_nth P i "" E).
Qed.

Lemma format_at_tokens (fmt : string) (idx : list nat) (pat pat' : list LTL.tok)
  (P : list string) :
  fmt_tokens fmt "" 0 = Some pat ->
  map (reindex idx) pat = pat' ->
  holes_below (length idx) pat = true ->
  forallb (fun i => i <? length P) idx = true ->
  Forall wordlike P ->
  format_at fmt idx P = Ok (map (LTL.fill P) pat').
Proof.
  intros Hpat <- Hh Hidx HP. unfold format_at, fstr.
  rewrite (rmap_getitem P idx Hidx). cbn [rbind].
  set (args := map (fun i => nth i P "") idx).
  assert (Hargs : Forall wordlike args).
  { apply Forall_forall. intros x Hx. apply in_map_iff in Hx.
    destruct Hx as (i & <- & Hi).
    rewrite forallb_forall in Hidx. apply Hidx, Nat.ltb_lt in Hi.
    rewrite Forall_forall in HP. apply HP, nth_In. exact Hi. }
  destruct (fmt_tokens_sound args Hargs (String.length fmt) fmt "" 0 pat)
    as (s & Es & Hs); auto.
  { intros i Hi. unfold args. rewrite length_map.
    eapply holes_below_spec; eauto. }
  cbn [skipn] in Es. rewrite Es. cbn [rbind]. unfold PyStr.split. rewrite Hs.
  f_equal. rewrite map_map. apply map_ext_in. intros t Ht.
  destruct t as [w|j]; [reflexivity|]. cbn [reindex LTL.fill].
  assert (Hj : j < length idx) by (eapply holes_below_spec; eauto).
  unfold args. rewrite (nth_indep _ "" (nth 0 P "")) by (now rewrite length_map).
  rewrite (map_nth (fun i => nth i P "") idx 0 j). reflexivity.
Qed.

(** ** The token lists of the catalog *)

(** [skeleton_case]: settle one entry of the catalog. *)
Ltac skeleton_case P HL HP :=
  first
    [ apply format_all_tokens;
      [vm_compute; reflexivity | rewrite HL; reflexivity | exact HP]
    | eapply format_at_tokens;
      [vm_compute; reflexivity | vm_compute; reflexivity | reflexivity
      | rewrite HL; reflexivity | exact HP]
    | destruct P as [|? [|? [|? [|? ?]]]]; simpl in HL; try discriminate HL;
      reflexivity ].

(** Every skeleton of the catalog prints the formula that
    [LTL.skeleton_formula] gives for its name, when the proposition tokens
    it is given are word-like. *)
Lemma skeleton_tokens (key : string) (need : nat) (skel : skeleton) :
  In (key, need, skel) LTL_TEMPLATES_STATE ->
  exists f,
    dict_get LTL.skeleton_formula key = Some f /\
    LTL.atoms_below need f = true /\
    words_plain (LTL.tokens f) = true /\
    forall P, length P = need -> Forall wordlike P ->
              skel P = Ok (map (LTL.fill P) (LTL.tokens f)).
Proof.
  intros HIn. unfold LTL_TEMPLATES_STATE, BASE_LTL_TEMPLATES_STATE,
    ADDITIONAL_LTL_TEMPLATES_STATE in HIn. cbn [app In] in HIn.
  repeat (destruct HIn as [E | HIn];
    [ injection E as <- <- <-;
      eexists; split; [reflexivity|];
      split; [reflexivity|]; split; [reflexivity|];
      intros P HL HP; skeleton_case P HL HP |]).
  contradiction.
Qed.

(** ** The round trip between the lifted and the grounded formula *)

Lemma dict_get_combine_None {V : Type} (keys : list string) (vs : list V) (k : string) :
  ~ In k keys -> dict_get (combine keys vs) k = None.
Proof.
  revert vs. induction keys as [|k0 keys IH]; intros [|v vs] N; simpl; auto.
  destruct (String.eqb_spec k0 k) as [->|Hne].
  - exfalso. apply N. simpl. auto.
  - apply IH. intros I. apply N. simpl. auto.
Qed.

Lemma placeholder_prefix (n : nat) : String.prefix "prop_" (placeholder n) = true.
Proof. unfold placeholder. simpl. now destruct (PyStr.str_of_nat n). Qed.

Lemma all_chars_append (p : ascii -> bool) (s t : string) :
  PyStr.all_chars p (s ++ t) = PyStr.all_chars p s && PyStr.all_chars p t.
Proof. induction s as [|ch s IH]; simpl; [reflexivity|]. now rewrite IH, andb_assoc. Qed.

Lemma uint_no_blank (d : Decimal.uint) :
  PyStr.all_chars (fun ch => negb (PyStr.is_space ch)) (NilEmpty.string_of_uint d) = true.
Proof. induction d; simpl; auto. Qed.

Lemma placeholder_wordlike (n : nat) : wordlike (placeholder n).
Proof.
  split; [discriminate|]. unfold placeholder, PyStr.str_of_nat.
  rewrite all_chars_append, uint_no_blank. reflexivity.
Qed.

Lemma pool_label_wordlike (lbl : string) : is_pool_label lbl -> wordlike lbl.
Proof. intros [i ->]. apply placeholder_wordlike. Qed.

Lemma plain_word_not_in (w : string) (l : list string) :
  String.prefix "prop_" w = false ->
  Forall (fun x => String.prefix "prop_" x = true) l -> ~ In w l.
Proof.
  intros Hw Hl I. rewrite Forall_forall in Hl. apply Hl in I. congruence.
Qed.

Lemma Forall_firstn {A : Type} (Q : A -> Prop) (n : nat) (l : list A) :
  Forall Q l -> Forall Q (firstn n l).
Proof.
  intros F. apply Forall_forall. intros x Hx. apply In_firstn in Hx.
  rewrite Forall_forall in F. auto.
Qed.

(** The round trip where it holds.  For an entry returned by
    [build_entry_for_props] on propositions labelled from the label pool,
    one per label, whose atom strings are ASCII text, not empty and without
    white space: replacing in [masked_tl] every key of [prop_dict] by the
    atom of its proposition gives [tl], whatever skeleton is drawn. *)
Theorem round_trip_substitution `{NLP} (fuel idx : nat) (props : dict PropInfo)
  (actions_cfg : dict (list string)) (g g' : rng) (e : Entry) :
  NoDup (dict_keys props) ->
  Forall is_pool_label (dict_keys props) ->
  Forall (fun info => ascii_word (_atom info)) (dict_values props) ->
  build_entry_for_props fuel idx props actions_cfg g = Ok (e, g') ->
  substitute_atoms (prop_dict e) (masked_tl e) = tl e.
Proof.
  intros ND HL HW E.
  destruct (build_entry_for_props_inv _ _ _ _ _ _ _ ND E)
    as (key & need & skel & with_ego & props' & m_ltl & Hinv).
  cbn zeta in Hinv.
  destruct Hinv as (HIn & Hneed & Hup & Htl & Hm & Hmtl & Hpd & _).
  set (labels := firstn need (dict_keys props)) in *.
  set (vals := firstn need (dict_values props)) in *.
  set (vals' := firstn need (dict_values props')) in *.
  set (phs := map placeholder (seq 1 need)) in *.
  assert (Llab : length labels = need).
  { unfold labels, dict_keys. rewrite length_firstn, length_map. lia. }
  assert (Lvals : length vals = need).
  { unfold vals, dict_values. rewrite length_firstn, length_map. lia. }
  assert (Lvals' : length vals' = need).
  { unfold vals', dict_values. rewrite length_firstn, length_map.
    rewrite <- (length_map fst props'). fold (dict_keys props').
    rewrite (updated_keys _ _ _ Hup). unfold dict_keys. rewrite length_map. lia. }
  assert (Lphs : length phs = need)
    by (unfold phs; now rewrite length_map, length_seq).
  assert (Hatoms : map _atom vals' = map _atom vals).
  { unfold vals, vals'. rewrite <- !firstn_map. f_equal.
    eapply updated_atoms; eauto. }
  assert (NDlab : NoDup labels) by (apply NoDup_firstn; exact ND).
  assert (Hlabs : Forall is_pool_label labels) by (now apply Forall_firstn).
  destruct (skeleton_tokens key need skel HIn) as (f & _ & Hb & Hplain & Hskel).
  rewrite Hskel in Htl, Hm.
  2:{ exact Llab. }
  2:{ eapply Forall_impl; [|exact Hlabs]. apply pool_label_wordlike. }
  2:{ now rewrite length_map. }
  2:{ apply Forall_forall. intros x Hx. apply in_map_iff in Hx.
      destruct Hx as (info & <- & Hi). apply In_firstn in Hi.
      rewrite Forall_forall in HW. apply HW. exact Hi. }
  inversion Htl as [Htl']. inversion Hm as [Hm']. clear Htl Hm.
  rewrite Hmtl, Hpd, <- Hm'. unfold substitute_atoms. rewrite !map_map.
  apply map_ext_in. intros t Ht.
  assert (Hlp : Forall (fun x => String.prefix "prop_" x = true) labels).
  { eapply Forall_impl; [|exact Hlabs]. intros x [i ->]. apply placeholder_prefix. }
  assert (Hpp : Forall (fun x => String.prefix "prop_" x = true) phs).
  { apply Forall_forall. intros x Hx. apply in_map_iff in Hx.
    destruct Hx as (i & <- & _). apply placeholder_prefix. }
  destruct t as [w|i]; cbn [LTL.fill].
  - (* a fixed word stays *)
    assert (Hw : String.prefix "prop_" w = false).
    { unfold words_plain in Hplain. rewrite forallb_forall in Hplain.
      specialize (Hplain _ Ht). cbn beta iota in Hplain.
      now destruct (String.prefix "prop_" w). }
    rewrite (dict_get_combine_None labels phs w)
      by (eapply plain_word_not_in; eauto).
    rewrite (dict_get_combine_None phs vals' w)
      by (eapply plain_word_not_in; eauto).
    reflexivity.
  - (* the place of proposition [i] *)
    assert (Hi : i < need).
    { clear - Hb Ht. revert Hb Ht. generalize need. intros n.
      induction f; cbn [LTL.tokens LTL.atoms_below]; intros Hb Ht;
        repeat match goal with
          | H : _ && _ = true |- _ => apply andb_prop in H; destruct H
          | H : In _ (_ ++ _)%list |- _ => apply in_app_or in H; destruct H
          | H : In _ (_ :: _) |- _ => destruct H
          | H : In _ [] |- _ => destruct H
          | H : LTL.Word _ = LTL.Hole _ |- _ => discriminate H
          | H : LTL.Hole _ = LTL.Hole _ |- _ => injection H as ->
          | H : (_ <? _) = true |- _ => apply Nat.ltb_lt in H
          end; auto. }
    destruct (nth_error labels i) as [l|] eqn:El;
      [|apply nth_error_None in El; lia].
    rewrite (nth_error_nth labels i "" El).
    assert (Eph : nth_error phs i = Some (placeholder (i + 1))).
    { unfold phs. rewrite nth_error_map, nth_error_seq.
      destruct (Nat.ltb_spec i need); [|lia]. cbn [option_map].
      do 2 f_equal. lia. }
    rewrite (dict_get_map_nth labels phs NDlab (eq_trans Llab (eq_sym Lphs))
               i l (placeholder (i + 1)) El Eph).
    destruct (nth_error vals' i) as [info'|] eqn:Ev;
      [|apply nth_error_None in Ev; lia].
    rewrite (dict_get_map_nth phs vals' (NoDup_placeholders 1 need)
               (eq_trans Lphs (eq_sym Lvals')) i _ info' Eph Ev).
    assert (Ea : nth_error (map _atom vals) i = Some (_atom info')).
    { rewrite <- Hatoms, nth_error_map, Ev. reflexivity. }
    now rewrite (nth_error_nth _ i "" Ea).
Qed.

Lemma round_trip_substitution_witness :
  exists e g',
    build_entry_for_props (H := SimpleNLP) 40 0
      [("prop_2", {| action_canon := "deliver"; action_ref := "deliver";
                     args_canon := ["box"; "shelf"]; args_ref := ["box"; "shelf"] |});
       ("prop_1", {| action_canon := "idle"; action_ref := "wait";
                     args_canon := []; args_ref := [] |})]
      [("deliver", ["item"; "location"]); ("idle", [])] (fun _ => 5)
    = Ok (e, g')
    /\ masked_tl e = ["globally"; "("; "prop_1"; "implies"; "finally"; "prop_2"; ")"]
    /\ tl e = ["globally"; "("; "deliver(box,shelf)"; "implies"; "finally"; "idle"; ")"]
    /\ substitute_atoms (prop_dict e) (masked_tl e) = tl e.
Proof.
  eexists. eexists. split; [vm_compute; reflexivity|].
  split; [reflexivity|]. split; [reflexivity|].
  eapply (round_trip_substitution (H := SimpleNLP))
    with (fuel := 40) (idx := 0) (g := fun _ => 5)
         (props :=
            [("prop_2", {| action_canon := "deliver"; action_ref := "deliver";
                           args_canon := ["box"; "shelf"];
                           args_ref := ["box"; "shelf"] |});
             ("prop_1", {| action_canon := "idle"; action_ref := "wait";
                           args_canon := []; args_ref := [] |})])
         (actions_cfg := [("deliver", ["item"; "location"]); ("idle", [])]).
  - repeat constructor; simpl; intuition discriminate.
  - repeat constructor; [now exists 1 | now exists 0].
  - repeat constructor; discriminate.
  - vm_compute. reflexivity.
Defined.

(** C2 on a concrete input.  With the location "loading dock" in the
    vocabulary the sampler builds the atom "move(box,loading dock)": it
    keeps the blank of a location in the canonical argument, while for an
    item it replaces blanks by underscores ("red box" gives "red_box").
    The skeleton drawn formats its formula and splits the string, which
    cuts this atom in two tokens of [tl], while [masked_tl] holds one
    placeholder for it: the substitution does not give [tl] back.  On the
    same proposition a skeleton of the base catalog, which lists its
    tokens, keeps the atom whole, and there the round trip holds. *)
Theorem round_trip_fails_on_blank_in_atom :
  exists props g1 e g2 e0 g0,
    sample_props [("box", ["box"])] [("move", ["move"])] ["shelf"; "loading dock"]
                 [("move", ["item"; "location"])] 3 (fun n => n)
    = Ok (props, g1)
    /\ map (fun kv => (fst kv, _atom (snd kv))) props
       = [("prop_2", "move(box,loading dock)")]
    /\ build_entry_for_props (H := SimpleNLP) 40 0 props
         [("move", ["item"; "location"])] g1 = Ok (e, g2)
    /\ masked_tl e
       = ["not"; "globally"; "("; "not"; "("; "prop_1"; "and"; "next"; "prop_1"; ")"; ")"]
    /\ tl e
       = ["not"; "globally"; "("; "not"; "("; "move(box,loading"; "dock)"; "and";
          "next"; "move(box,loading"; "dock)"; ")"; ")"]
    /\ substitute_atoms (prop_dict e) (masked_tl e) <> tl e
    /\ build_entry_for_props (H := SimpleNLP) 40 0 props
         [("move", ["item"; "location"])] (fun _ => 0) = Ok (e0, g0)
    /\ masked_tl e0 = ["finally"; "("; "not"; "prop_1"; ")"]
    /\ tl e0 = ["finally"; "("; "not"; "move(box,loading dock)"; ")"]
    /\ substitute_atoms (prop_dict e0) (masked_tl e0) = tl e0
    /\ (exists g3, _sample_argument "item" [("red box", ["crate"])] [] (fun _ => 0)
                   = Ok (("red_box", "crate"), g3)).
Proof.
  do 6 eexists.
  split; [vm_compute; reflexivity|].
  split; [reflexivity|].
  split; [vm_compute; reflexivity|].
  split; [reflexivity|]. split; [reflexivity|].
  split; [vm_compute; discriminate|].
  split; [vm_compute; reflexivity|].
  split; [reflexivity|]. split; [reflexivity|].
  split; [reflexivity|].
  eexists. vm_compute. reflexivity.
Qed.

(** ** The gerund update of [action_ref] *)

Lemma prefix_append_l (a b s : string) :
  String.prefix (a ++ b) s = true -> String.prefix a s = true.
Proof.
  revert s. induction a as [|ch a IH]; intros s Hp.
  - now destruct s.
  - destruct s as [|ch' s]; simpl in *; [discriminate Hp|].
    destruct (ascii_dec ch ch'); [|discriminate Hp]. now apply IH.
Qed.

Lemma contains_append_l (a b s : string) :
  PyStr.contains (a ++ b) s = true -> PyStr.contains a s = true.
Proof.
  induction s as [|ch s IH]; cbn [PyStr.contains]; intros Hc.
  - destruct (String.prefix (a ++ b) "") eqn:Hp; [|discriminate Hc].
    now rewrite (prefix_append_l _ _ _ Hp).
  - destruct (String.prefix (a ++ b) (String ch s)) eqn:Hp.
    + now rewrite (prefix_append_l _ _ _ Hp).
    + rewrite (IH Hc). now destruct (String.prefix a (String ch s)).
Qed.

(** What the loop of source lines 770-774 does to one proposition: the
    test is on substrings of the corrected sentence. *)
Lemma update_action_ref_spec (g_raw : string) (info : PropInfo) (bare : string) :
  (PyStr.split (action_ref info)).[0] = Ok bare ->
  exists info',
    update_action_ref g_raw info = Ok info' /\
    action_canon info' = action_canon info /\
    args_canon info' = args_canon info /\
    args_ref info' = args_ref info /\
    (PyStr.contains bare g_raw = false ->
     PyStr.contains (_to_gerund bare) g_raw = true ->
     action_ref info' = _to_gerund bare) /\
    (PyStr.contains bare g_raw = true -> info' = info) /\
    (PyStr.contains (_to_gerund bare) g_raw = false -> info' = info).
Proof.
  intros Hb. unfold update_action_ref. rewrite Hb. cbn [rbind].
  destruct (PyStr.contains bare g_raw);
    destruct (PyStr.contains (_to_gerund bare) g_raw); cbn [negb andb];
    eexists; (split; [reflexivity|]); cbn [action_canon args_canon args_ref action_ref];
    repeat split; auto; discriminate.
Qed.

(** A verb that does not end in "e" is a prefix of its gerund, so the test
    [bare not in g_raw and ger in g_raw] is false for it whatever the
    sentence: its [action_ref] is never rewritten. *)
Lemma update_action_ref_never (g_raw : string) (info : PropInfo) (bare : string) :
  (PyStr.split (action_ref info)).[0] = Ok bare ->
  PyStr.endswith bare "e" = false ->
  update_action_ref g_raw info = Ok info.
Proof.
  intros Hb He. unfold update_action_ref. rewrite Hb. cbn [rbind].
  rewrite (to_gerund_other bare He).
  destruct (PyStr.contains (bare ++ "ing") g_raw) eqn:Hg.
  - now rewrite (contains_append_l _ _ _ Hg).
  - now rewrite andb_false_r.
Qed.

(** C6 on a concrete input: a proposition with the verb reference
    "deliver" placed after "avoid".  The corrected sentence shows
    "delivering" and no token "deliver", and the stored [action_ref] is
    still "deliver". *)
Theorem gerund_rewrite_missed_for_deliver :
  exists e g',
    build_entry_for_props (H := SimpleNLP) 40 0
      [("prop_1", {| action_canon := "deliver"; action_ref := "deliver";
                     args_canon := ["box"; "shelf"]; args_ref := ["box"; "shelf"] |})]
      [("deliver", ["item"; "location"])] (fun _ => 0)
    = Ok (e, g')
    /\ sentence e = ["The"; "robot"; "must"; "eventually,"; "avoid"; "delivering";
                     "the"; "box"; "to"; "the"; "shelf."]
    /\ ~ In "deliver" (sentence e)
    /\ map (fun kv => (fst kv, action_ref (snd kv))) (prop_dict e)
       = [("prop_1", "deliver")]
    /\ _to_gerund "deliver" = "delivering".
Proof.
  eexists. eexists. split; [vm_compute; reflexivity|].
  split; [reflexivity|].
  split; [cbn [sentence In]; intuition discriminate|].
  split; reflexivity.
Qed.

(** ** The semantics on a trace: [eval] decides [sat] *)

Section Semantics.

Variable L : list string.
Variable tr : trace.

Local Notation "'K'" := (length tr - 1).

Lemma moment_at_stable (i : nat) :
  K <= i -> Sem.moment_at tr i = Sem.moment_at tr K.
Proof.
  intros Hi. unfold Sem.moment_at.
  now rewrite (Nat.min_r i K), (Nat.min_id K) by lia.
Qed.

(** From the last moment on, the word does not change, and neither does
    the truth of a formula. *)
Lemma sat_stable (f : LTL.ltl) :
  forall i j, K <= i -> K <= j -> (Sem.sat L tr f i <-> Sem.sat L tr f j).
Proof.
  induction f as [k|f IH|f IH|f IH|f IH|f IHf g IHg|f IHf g IHg|f IHf g IHg
                  |f IHf g IHg|f IHf g IHg|f IH];
    intros i j Hi Hj; cbn [Sem.sat].
  - now rewrite (moment_at_stable i), (moment_at_stable j).
  - now rewrite (IH i j).
  - apply IH; lia.
  - split.
    + intros (i' & Hi' & Hs). exists j. split; [lia|].
      apply (proj1 (IH i' j ltac:(lia) Hj)). exact Hs.
    + intros (j' & Hj' & Hs). exists i. split; [lia|].
      apply (proj1 (IH j' i ltac:(lia) Hi)). exact Hs.
  - split.
    + intros Hall j' Hj'. apply (proj1 (IH i j' Hi ltac:(lia))). apply Hall. lia.
    + intros Hall i' Hi'. apply (proj1 (IH j i' Hj ltac:(lia))). apply Hall. lia.
  - now rewrite (IHf i j), (IHg i j).
  - now rewrite (IHf i j), (IHg i j).
  - now rewrite (IHf i j), (IHg i j).
  - now rewrite (IHf i j), (IHg i j).
  - split.
    + intros (i' & Hi' & Hs & _). exists j. split; [lia|]. split.
      * apply (proj1 (IHg i' j ltac:(lia) Hj)). exact Hs.
      * intros k Hk. lia.
    + intros (j' & Hj' & Hs & _). exists i. split; [lia|]. split.
      * apply (proj1 (IHg j' i ltac:(lia) Hi)). exact Hs.
      * intros k Hk. lia.
  - now apply IH.
Qed.

Lemma horizon_In (i j : nat) :
  In j (Sem.horizon tr i) <-> i <= j <= Nat.max i K.
Proof. unfold Sem.horizon. rewrite in_seq. lia. Qed.

Lemma bool_eqb_iff (x y : bool) :
  Bool.eqb x y = true <-> (x = true <-> y = true).
Proof. destruct x, y; simpl; intuition discriminate. Qed.

Lemma implb_iff (x y : bool) : implb x y = true <-> (x = true -> y = true).
Proof. destruct x, y; simpl; intuition discriminate. Qed.

Theorem eval_sat (f : LTL.ltl) :
  forall i, Sem.eval L tr f i = true <-> Sem.sat L tr f i.
Proof.
  induction f as [k|f IH|f IH|f IH|f IH|f IHf g IHg|f IHf g IHg|f IHf g IHg
                  |f IHf g IHg|f IHf g IHg|f IH];
    intros i; cbn [Sem.eval Sem.sat].
  - reflexivity.
  - rewrite negb_true_iff, <- not_true_iff_false. now rewrite IH.
  - apply IH.
  - rewrite existsb_exists. split.
    + intros (j & Hj & He). apply horizon_In in Hj. exists j.
      split; [lia | now apply IH].
    + intros (j & Hj & Hs).
      destruct (Nat.le_gt_cases j (Nat.max i K)) as [Hle|Hgt].
      * exists j. split; [apply horizon_In; lia | now apply IH].
      * exists (Nat.max i K). split; [apply horizon_In; lia|].
        apply IH.
        apply (proj1 (sat_stable f j (Nat.max i K) ltac:(lia) ltac:(lia))).
        exact Hs.
  - rewrite forallb_forall. split.
    + intros Hall j Hj.
      destruct (Nat.le_gt_cases j (Nat.max i K)) as [Hle|Hgt].
      * apply IH, Hall, horizon_In. lia.
      * apply (proj1 (sat_stable f (Nat.max i K) j ltac:(lia) ltac:(lia))).
        apply IH, Hall, horizon_In. lia.
    + intros Hall j Hj. apply horizon_In in Hj. apply IH, Hall. lia.
  - now rewrite andb_true_iff, IHf, IHg.
  - now rewrite orb_true_iff, IHf, IHg.
  - now rewrite implb_iff, IHf, IHg.
  - now rewrite bool_eqb_iff, IHf, IHg.
  - rewrite existsb_exists. split.
    + intros (j & Hj & He). apply horizon_In in Hj.
      apply andb_prop in He. destruct He as [Hg Hf].
      exists j. split; [lia|]. split; [now apply IHg|].
      intros k Hk. apply IHf. rewrite forallb_forall in Hf.
      apply Hf, in_seq. lia.
    + intros (j & Hj & Hg & Hf).
      destruct (Nat.le_gt_cases j (Nat.max i K)) as [Hle|Hgt].
      * exists j. split; [apply horizon_In; lia|].
        apply andb_true_intro. split; [now apply IHg|].
        apply forallb_forall. intros k Hk. apply in_seq in Hk.
        apply IHf, Hf. lia.
      * exists (Nat.max i K). split; [apply horizon_In; lia|].
        apply andb_true_intro. split.
        -- apply IHg.
           apply (proj1 (sat_stable g j (Nat.max i K) ltac:(lia) ltac:(lia))).
           exact Hg.
        -- apply forallb_forall. intros k Hk. apply in_seq in Hk.
           apply IHf, Hf. lia.
  - apply IH.
Qed.

End Semantics.

(** ** Renaming the atoms *)

Lemma NoDup_map_inj_on {A B : Type} (f : A -> B) (l : list A) :
  NoDup (map f l) -> forall x y, In x l -> In y l -> f x = f y -> x = y.
Proof.
  induction l as [|z l IH]; simpl; intros ND x y Hx Hy E; [contradiction|].
  inversion ND as [|? ? Hnot ND']. subst.
  destruct Hx as [->|Hx], Hy as [->|Hy]; auto.
  - exfalso. apply Hnot. rewrite E. now apply in_map.
  - exfalso. apply Hnot. rewrite <- E. now apply in_map.
Qed.

Lemma mem_false_iff (x : string) (l : list string) :
  PyStr.mem x l = false <-> ~ In x l.
Proof.
  rewrite <- mem_In. destruct (PyStr.mem x l); split; congruence.
Qed.

Lemma mem_rename (rho : string -> string) (D : list string) (x : string)
  (m : list string) :
  (forall u v, In u D -> In v D -> rho u = rho v -> u = v) ->
  In x D -> (forall y, In y m -> In y D) ->
  PyStr.mem (rho x) (map rho m) = PyStr.mem x m.
Proof.
  intros Inj Hx Hm. destruct (PyStr.mem x m) eqn:E.
  - apply mem_In. apply mem_In in E. now apply in_map.
  - apply mem_false_iff. apply mem_false_iff in E. intros I.
    apply in_map_iff in I. destruct I as (y & Ey & Hy).
    apply Inj in Ey; auto. congruence.
Qed.

Lemma existsb_ext {A : Type} (f g : A -> bool) (l : list A) :
  (forall x, f x = g x) -> existsb f l = existsb g l.
Proof. intros E. induction l as [|x l IH]; simpl; [reflexivity|]. now rewrite E, IH. Qed.

Lemma forallb_ext {A : Type} (f g : A -> bool) (l : list A) :
  (forall x, f x = g x) -> forallb f l = forallb g l.
Proof. intros E. induction l as [|x l IH]; simpl; [reflexivity|]. now rewrite E, IH. Qed.

Section Renaming.

Variable rho : string -> string.
Variable L : list string.
Variable tr : trace.

Hypothesis rho_inj : NoDup (map rho L).
Hypothesis tr_atoms : atoms_within L tr = true.

Lemma moment_at_rename (i : nat) :
  Sem.moment_at (rename_trace rho tr) i = map rho (Sem.moment_at tr i).
Proof.
  unfold Sem.moment_at, rename_trace. rewrite length_map.
  change (@nil string) with (map rho []) at 1. apply map_nth.
Qed.

Lemma moment_at_within (i : nat) (y : string) :
  In y (Sem.moment_at tr i) -> In y L.
Proof.
  unfold Sem.moment_at. intros Hy.
  destruct (nth_in_or_default (Nat.min i (length tr - 1)) tr []) as [Hin|Hd].
  - unfold atoms_within in tr_atoms. rewrite forallb_forall in tr_atoms.
    specialize (tr_atoms _ Hin). rewrite forallb_forall in tr_atoms.
    apply mem_In. auto.
  - rewrite Hd in Hy. contradiction.
Qed.

Lemma eval_rename (f : LTL.ltl) :
  forall i, Sem.eval (map rho L) (rename_trace rho tr) f i = Sem.eval L tr f i.
Proof.
  assert (Hh : forall i, Sem.horizon (rename_trace rho tr) i = Sem.horizon tr i).
  { intros i. unfold Sem.horizon, rename_trace. now rewrite length_map. }
  induction f as [k|f IH|f IH|f IH|f IH|f IHf g IHg|f IHf g IHg|f IHf g IHg
                  |f IHf g IHg|f IHf g IHg|f IH];
    intros i; cbn [Sem.eval]; rewrite ?Hh, ?IH, ?IHf, ?IHg; auto.
  - unfold Sem.atom_true. rewrite nth_error_map, moment_at_rename.
    destruct (nth_error L k) as [p|] eqn:E; cbn [option_map]; auto.
    apply (mem_rename rho L).
    + now apply NoDup_map_inj_on.
    + eapply nth_error_In; eauto.
    + apply moment_at_within.
  - apply existsb_ext. intros j. apply IH.
  - apply forallb_ext. intros j. apply IH.
  - apply existsb_ext. intros j. rewrite IHg. f_equal.
    apply forallb_ext. intros k. apply IHf.
Qed.

End Renaming.

(** ** The pairs of traces of the catalog *)

(** A verdict computed on the atoms "a", "b", "c" holds for any list of
    pairwise distinct atoms. *)
Lemma verdict_transfer (key : string) (f : LTL.ltl) (L0 : list string)
  (g0 b0 : trace) (rho : string -> string) (vg vb : bool) :
  dict_get LTL.skeleton_formula key = Some f ->
  _make_traces key L0 = Ok (g0, b0) ->
  _make_traces key (map rho L0) = Ok (rename_trace rho g0, rename_trace rho b0) ->
  atoms_within L0 g0 = true -> atoms_within L0 b0 = true ->
  NoDup (map rho L0) ->
  Sem.eval L0 g0 f 0 = vg -> Sem.eval L0 b0 f 0 = vb ->
  Sem.verdicts key (map rho L0) = Some (vg, vb).
Proof.
  intros Hf _ Hr Hg Hb ND Eg Eb. unfold Sem.verdicts. rewrite Hf, Hr.
  now rewrite !eval_rename, Eg, Eb by assumption.
Qed.

Lemma verdicts_sat (key : string) (L : list string) (vg vb : bool) :
  Sem.verdicts key L = Some (vg, vb) ->
  exists f good bad,
    dict_get LTL.skeleton_formula key = Some f /\
    _make_traces key L = Ok (good, bad) /\
    (vg = true <-> Sem.sat L good f 0) /\
    (vb = true <-> Sem.sat L bad f 0).
Proof.
  unfold Sem.verdicts.
  destruct (dict_get LTL.skeleton_formula key) as [f|]; [|discriminate].
  destruct (_make_traces key L) as [[good bad]| |]; try discriminate.
  intros E. inversion E. subst. exists f, good, bad.
  repeat split; try apply eval_sat; auto.
Qed.

(** [verdict_case]: compute the verdict of one skeleton for the atom list
    [Lp], through the atoms "a", "b", "c". *)
Ltac verdict_case L0 Lp ND :=
  change Lp with (map (to_atoms Lp) L0);
  eapply verdict_transfer;
  [ reflexivity | vm_compute; reflexivity | vm_compute; reflexivity
  | reflexivity | reflexivity | exact ND | vm_compute; reflexivity
  | vm_compute; reflexivity ].

Ltac verdict_any Lp ND HL :=
  destruct Lp as [|?p [|?q [|?r [|? ?]]]]; simpl in HL; try discriminate HL;
  match goal with
  | |- Sem.verdicts _ [?p] = _ => verdict_case ["a"] [p] ND
  | |- Sem.verdicts _ [?p; ?q] = _ => verdict_case ["a"; "b"] [p; q] ND
  | |- Sem.verdicts _ [?p; ?q; ?r] = _ => verdict_case ["a"; "b"; "c"] [p; q; r] ND
  end.

(** For every skeleton of the catalog outside [faulty_keys] and every list
    of pairwise distinct atoms of its arity, the formula is true at the
    first moment of the satisfying trace and false at the first moment of
    the violating trace. *)
Lemma sound_trace_verdicts (key : string) (need : nat) (skel : skeleton)
  (Lp : list string) :
  In (key, need, skel) LTL_TEMPLATES_STATE -> ~ In key faulty_keys ->
  NoDup Lp -> length Lp = need ->
  Sem.verdicts key Lp = Some (true, false).
Proof.
  intros HIn HF ND HL.
  unfold LTL_TEMPLATES_STATE, BASE_LTL_TEMPLATES_STATE,
    ADDITIONAL_LTL_TEMPLATES_STATE in HIn. cbn [app In] in HIn.
  repeat (destruct HIn as [E | HIn];
    [ injection E as <- <- <-;
      first [ exfalso; apply HF; vm_compute; tauto
            | verdict_any Lp ND HL ] |]).
  contradiction.
Qed.

(** [in_catalog]: an entry, given in full, is one of the catalog. *)
Ltac in_catalog :=
  unfold LTL_TEMPLATES_STATE, BASE_LTL_TEMPLATES_STATE,
    ADDITIONAL_LTL_TEMPLATES_STATE; cbn [app In];
  repeat first [ left; reflexivity | right ].

(** The same skeletons, stated with the semantics: the satisfying trace
    satisfies the formula of the skeleton and the violating trace does
    not. *)
Theorem sound_trace_pairs (key : string) (need : nat) (skel : skeleton)
  (Lp : list string) :
  In (key, need, skel) LTL_TEMPLATES_STATE -> ~ In key faulty_keys ->
  NoDup Lp -> length Lp = need ->
  exists f good bad,
    dict_get LTL.skeleton_formula key = Some f /\
    _make_traces key Lp = Ok (good, bad) /\
    Sem.sat Lp good f 0 /\ ~ Sem.sat Lp bad f 0.
Proof.
  intros HIn HF ND HL.
  destruct (verdicts_sat key Lp true false
              (sound_trace_verdicts key need skel Lp HIn HF ND HL))
    as (f & good & bad & Hf & Ht & Hg & Hb).
  exists f, good, bad. repeat split; auto.
  - now apply Hg.
  - intros Hs. apply Hb in Hs. discriminate Hs.
Qed.

Lemma sound_trace_pairs_witness :
  exists f good bad,
    dict_get LTL.skeleton_formula "G_IMPL_F" = Some f /\
    _make_traces "G_IMPL_F" ["deliver(box,shelf)"; "idle"] = Ok (good, bad) /\
    Sem.sat ["deliver(box,shelf)"; "idle"] good f 0 /\
    ~ Sem.sat ["deliver(box,shelf)"; "idle"] bad f 0.
Proof.
  apply (sound_trace_pairs "G_IMPL_F" 2
           (format_all "globally ( {} implies finally {} )")
           ["deliver(box,shelf)"; "idle"]).
  - in_catalog.
  - unfold faulty_keys. cbn [In]. intuition discriminate.
  - repeat constructor; simpl; intuition discriminate.
  - reflexivity.
Defined.

(** For the skeletons of [faulty_keys] the two traces get the same verdict,
    whatever the (pairwise distinct) atoms: one trace of the pair is
    wrong. *)
Theorem faulty_trace_verdicts (key : string) (need : nat) (skel : skeleton)
  (Lp : list string) :
  In (key, need, skel) LTL_TEMPLATES_STATE -> In key faulty_keys ->
  NoDup Lp -> length Lp = need ->
  dict_mem key _TRACE_BUILDERS = true /\
  exists v, Sem.verdicts key Lp = Some (v, v).
Proof.
  intros HIn HF ND HL.
  unfold faulty_keys in HF. cbn [In] in HF.
  unfold LTL_TEMPLATES_STATE, BASE_LTL_TEMPLATES_STATE,
    ADDITIONAL_LTL_TEMPLATES_STATE in HIn. cbn [app In] in HIn.
  repeat (destruct HIn as [E | HIn];
    [ injection E as <- <- <-;
      first [ exfalso; intuition discriminate
            | split; [reflexivity|]; eexists; verdict_any Lp ND HL ] |]).
  contradiction.
Qed.

Lemma faulty_trace_verdicts_witness :
  dict_mem "G_A_AND_G_B_IMPL_NOT_C" _TRACE_BUILDERS = true /\
  exists v, Sem.verdicts "G_A_AND_G_B_IMPL_NOT_C"
              ["pickup(box)"; "deliver(box,shelf)"; "idle"] = Some (v, v).
Proof.
  apply (faulty_trace_verdicts "G_A_AND_G_B_IMPL_NOT_C" 3
           (format_at "globally {} and globally ( {} implies not {} )" [0; 1; 2])
           ["pickup(box)"; "deliver(box,shelf)"; "idle"]).
  - in_catalog.
  - unfold faulty_keys. cbn [In]. auto.
  - repeat constructor; simpl; intuition discriminate.
  - reflexivity.
Defined.

(** C3 on concrete inputs.  Each of these seven skeletons has a
    hand-written entry in [_TRACE_BUILDERS], and for pairwise distinct
    atoms one trace of its pair gets the wrong verdict: for five of them
    the violating trace satisfies the formula, for two the satisfying trace
    violates it.  The second skeleton is spelled out: its violating trace
    is the single moment holding the first and the third atom, on which
    "globally a and globally ( b implies not c )" is true. *)
Theorem hand_written_traces_wrong :
  Forall (fun key => dict_mem key _TRACE_BUILDERS = true) faulty_keys
  /\ Sem.verdicts "X" ["a"] = Some (true, true)
  /\ Sem.verdicts "G_A_AND_G_B_IMPL_NOT_C" ["a"; "b"; "c"] = Some (true, true)
  /\ Sem.verdicts "A_RELEASES_B" ["a"; "b"] = Some (true, true)
  /\ Sem.verdicts "NOT_A_AT_MOST_TWO" ["a"] = Some (true, true)
  /\ Sem.verdicts "A_EVERY_THIRD_STEP" ["a"] = Some (true, true)
  /\ Sem.verdicts "EVERY_FIFTH_STEP" ["a"] = Some (false, false)
  /\ Sem.verdicts "STEPWISE_EQUALITY" ["a"; "b"] = Some (false, false)
  /\ format_at "globally {} and globally ( {} implies not {} )" [0; 1; 2]
       ["a"; "b"; "c"]
     = Ok ["globally"; "a"; "and"; "globally"; "("; "b"; "implies"; "not"; "c"; ")"]
  /\ _make_traces "G_A_AND_G_B_IMPL_NOT_C" ["a"; "b"; "c"]
     = Ok ([["a"]; ["a"; "b"]; ["a"]], [["a"; "c"]])
  /\ Sem.sat ["a"; "b"; "c"] [["a"; "c"]]
       (LTL.And (LTL.Globally LTL.a)
                (LTL.Globally (LTL.Paren (LTL.Implies LTL.b (LTL.Not LTL.c))))) 0.
Proof.
  split; [repeat constructor|].
  repeat (split; [vm_compute; reflexivity|]).
  apply eval_sat. vm_compute. reflexivity.
Qed.

(** ** Termination of the labelling loop *)

Section AlignmentTermination.

Context `{NLP}.

Variable g_tok labels_used : list string.
Variable seg_tokens : dict (list string).
Variable pid_map : dict nat.
Variable mapping : dict string.

Lemma first_match_found (i : nat) (labels : list string) (lbl : string)
  (tok_seq : list string) :
  first_match g_tok i seg_tokens labels = Ok (Some (lbl, tok_seq)) ->
  In lbl labels /\ dict_get seg_tokens lbl = Some tok_seq.
Proof.
  induction labels as [|l labels IH]; simpl; intros E; [discriminate E|].
  unfold dict_getitem in E.
  destruct (dict_get seg_tokens l) as [ts|] eqn:El; cbn [rbind] in E;
    [|discriminate E].
  destruct (matches_at g_tok i ts).
  - inversion E. subst. auto.
  - destruct (IH E). auto.
Qed.

Lemma first_match_returns (i : nat) (labels : list string) :
  first_match g_tok i seg_tokens labels <> Diverge.
Proof.
  induction labels as [|l labels IH]; simpl; [discriminate|].
  unfold dict_getitem. destruct (dict_get seg_tokens l) as [ts|]; cbn [rbind];
    [|discriminate].
  destruct (matches_at g_tok i ts); [discriminate | exact IH].
Qed.

(** When no proposition has an empty token sequence, the loop ends within
    one turn per sentence token left, plus the turn that sees the end. *)
Theorem align_terminates :
  (forall lbl ts, In lbl labels_used -> dict_get seg_tokens lbl = Some ts -> ts <> []) ->
  forall fuel i ids masked,
  length g_tok - i < fuel ->
  align fuel g_tok labels_used seg_tokens pid_map mapping i ids masked <> Diverge.
Proof.
  intros Hne. induction fuel as [|fuel IH]; intros i ids masked Hf; [lia|].
  cbn [align]. destruct (Nat.ltb_spec i (length g_tok)) as [Li|Li];
    [|discriminate].
  destruct (first_match g_tok i seg_tokens labels_used)
    as [[[lbl ts]|]| |] eqn:Fm; cbn [rbind]; try discriminate.
  - destruct (first_match_found _ _ _ _ Fm) as [Hin Hget].
    specialize (Hne lbl ts Hin Hget).
    destruct ts as [|t0 ts]; [contradiction|].
    cbn [length]. unfold dict_getitem.
    destruct (dict_get pid_map lbl); cbn [rbind]; try discriminate.
    destruct (dict_get mapping lbl); cbn [rbind]; try discriminate.
    apply IH. lia.
  - unfold getitem. destruct (nth_error g_tok i); cbn [rbind]; try discriminate.
    apply IH. lia.
  - exfalso. eapply first_match_returns; eauto.
Qed.

End AlignmentTermination.

Lemma align_terminates_witness :
  align (H := SimpleNLP) 3 ["avoid"; "idling."] ["prop_1"]
        [("prop_1", ["idling"])] [("prop_1", 1)] [("prop_1", "prop_1")]
        0 [0; 0] []
  = Ok ([0; 1], ["avoid"; "prop_1"])
  /\ align (H := SimpleNLP) 3 ["avoid"; "idling."] ["prop_1"]
        [("prop_1", ["idling"])] [("prop_1", 1)] [("prop_1", "prop_1")]
        0 [0; 0] []
     <> Diverge.
Proof.
  split; [reflexivity|].
  apply (align_terminates (H := SimpleNLP)).
  - intros lbl ts Hin Hget. cbn [dict_get] in Hget.
    destruct (String.eqb "prop_1" lbl); inversion Hget. discriminate.
  - simpl. lia.
Defined.

(** ** Further properties of the catalog and of the gerund update *)

(** Every skeleton of the catalog, given one token per proposition, each
    of them ASCII text, not empty and without white space, returns the
    tokens of its formula in [LTL.skeleton_formula]: the fixed words in
    their places, and each proposition token wherever the formula names
    that proposition. *)
Theorem catalog_prints_formulas (key : string) (need : nat) (skel : skeleton)
  (P : list string) :
  In (key, need, skel) LTL_TEMPLATES_STATE ->
  length P = need -> Forall ascii_word P ->
  exists f,
    dict_get LTL.skeleton_formula key = Some f /\
    skel P = Ok (map (LTL.fill P) (LTL.tokens f)).
Proof.
  intros HIn HL HP.
  destruct (skeleton_tokens key need skel HIn) as (f & Hf & _ & _ & Hs).
  exists f. split; [exact Hf|]. apply Hs; [exact HL|].
  eapply Forall_impl; [|exact HP]. intros p [_ Hw]. exact Hw.
Qed.

Lemma catalog_prints_formulas_witness :
  exists f,
    dict_get LTL.skeleton_formula "A_RELEASES_B" = Some f /\
    format_at "( {} until ( {} and not {} ) ) or globally {}" [1; 1; 0; 1]
              ["idle"; "deliver(box,shelf)"]
    = Ok (map (LTL.fill ["idle"; "deliver(box,shelf)"]) (LTL.tokens f)).
Proof.
  apply (catalog_prints_formulas "A_RELEASES_B" 2
           (format_at "( {} until ( {} and not {} ) ) or globally {}" [1; 1; 0; 1])
           ["idle"; "deliver(box,shelf)"]).
  - in_catalog.
  - reflexivity.
  - repeat constructor; discriminate.
Defined.

(** The gerund update leaves alone every proposition whose verb reference
    does not end in "e": such a verb is a substring of its own gerund, so
    the test of source line 773 cannot hold for it. *)
Theorem action_ref_kept_unless_final_e (g_raw : string) (info : PropInfo)
  (bare : string) :
  (PyStr.split (action_ref info)).[0] = Ok bare ->
  PyStr.endswith bare "e" = false ->
  update_action_ref g_raw info = Ok info.
Proof. apply update_action_ref_never. Qed.

Lemma action_ref_kept_unless_final_e_witness :
  update_action_ref "Always avoid delivering the box to the shelf."
    {| action_canon := "deliver"; action_ref := "deliver";
       args_canon := ["box"; "shelf"]; args_ref := ["box"; "shelf"] |}
  = Ok {| action_canon := "deliver"; action_ref := "deliver";
          args_canon := ["box"; "shelf"]; args_ref := ["box"; "shelf"] |}.
Proof.
  apply (action_ref_kept_unless_final_e
           "Always avoid delivering the box to the shelf."
           {| action_canon := "deliver"; action_ref := "deliver";
              args_canon := ["box"; "shelf"]; args_ref := ["box"; "shelf"] |}
           "deliver"); reflexivity.
Defined.

(* ====================================================================== *)
(** * Part III.  Further properties of the generator                       *)
(* ====================================================================== *)

(** ** The proposition sampler: it returns, and how many propositions *)

Lemma dict_set_length {V : Type} (d : dict V) (k : string) (v : V) :
  length d <= length (dict_set d k v) <= S (length d).
Proof.
  induction d as [|[k' v'] d IH]; simpl; [lia|].
  destruct (String.eqb k' k); simpl; lia.
Qed.

Lemma dict_set_nonempty {V : Type} (d : dict V) (k : string) (v : V) :
  1 <= length (dict_set d k v).
Proof. destruct d as [|[k' v'] d]; simpl; [lia|]. destruct (String.eqb k' k); simpl; lia. Qed.

Lemma random_sample_length {A : Type} (k : nat) :
  forall (pool l : list A) (g g' : rng),
  random_sample pool k g = Ok (l, g') -> length l = k.
Proof.
  induction k as [|k IH]; intros pool l g g' E.
  - apply ret_Ok in E. destruct E as [-> _]. reflexivity.
  - cbn [random_sample] in E. destruct pool as [|y pool]; [discriminate E|].
    run_bind E r g1 Rr. run_bind E x0 g2 Rx. run_bind E rest g3 Rs.
    apply ret_Ok in E. destruct E as [-> _]. simpl. f_equal. eapply IH; eauto.
Qed.

Lemma random_randint_range (a b k : nat) (g g' : rng) :
  random_randint a b g = Ok (k, g') -> a <= k <= b.
Proof.
  unfold random_randint. destruct (Nat.ltb_spec b a); [discriminate|].
  intros E. run_bind E r g1 Rr. apply ret_Ok in E. destruct E as [-> _].
  pose proof (Nat.mod_upper_bound r (b - a + 1)). lia.
Qed.

Lemma mmap_Ok {A B : Type} (f : A -> M B) (l : list A) :
  Forall (fun x => forall g, exists y g', f x g = Ok (y, g')) l ->
  forall g, exists ys g', mmap f l g = Ok (ys, g') /\ length ys = length l.
Proof.
  induction 1 as [|x l Hx Hl IH]; intros g.
  - exists [], g. split; reflexivity.
  - destruct (Hx g) as (y & g1 & Ey). destruct (IH g1) as (ys & g2 & Eys & L).
    exists (y :: ys), g2. cbn [mmap]. unfold bind at 1. rewrite Ey.
    unfold bind at 1. rewrite Eys. split; [reflexivity | simpl; congruence].
Qed.

Lemma mmap_length {A B : Type} (f : A -> M B) (l : list A) :
  forall g ys g', mmap f l g = Ok (ys, g') -> length ys = length l.
Proof.
  induction l as [|x l IH]; intros g ys g' E; cbn [mmap] in E.
  - apply ret_Ok in E. destruct E as [-> _]. reflexivity.
  - run_bind E y g1 Ry. run_bind E ys' g2 Rys.
    apply ret_Ok in E. destruct E as [-> _]. simpl. f_equal. eapply IH; eauto.
Qed.

Section SamplerSize.

Variable object_dict : dict (list string).
Variable actions_dict : dict (list string).
Variable locations : list string.
Variable actions_cfg : dict (list string).

(** One label adds at most one proposition, and exactly one when no atom
    has been used yet: the first draw is always fresh. *)
Lemma sample_prop_size (n : nat) :
  forall st lbl g st' g',
  sample_prop object_dict actions_dict locations actions_cfg n st lbl g
    = Ok (st', g') ->
  length (fst st) <= length (fst st') <= S (length (fst st))
  /\ (1 <= n -> snd st = [] -> 1 <= length (fst st')).
Proof.
  induction n as [|n IH]; intros st lbl g st' g' E.
  - apply ret_Ok in E. destruct E as [-> _]. split; [lia|]. intros L. lia.
  - cbn [sample_prop] in E.
    run_bind E verb g1 Rv. run_bind E params g2 Rp. run_lift Rp.
    run_bind E args g2 Ra.
    destruct (PyStr.mem _ (snd st)) eqn:Hmem.
    + destruct (IH _ _ _ _ _ E) as [B _]. split; [exact B|].
      intros _ Hs. rewrite Hs in Hmem. discriminate Hmem.
    + run_bind E syns g3 Rsy. run_lift Rsy. run_bind E ref g3 Rr.
      apply ret_Ok in E. destruct E as [-> _]. cbn [fst].
      split; [apply dict_set_length|]. intros _ _. apply dict_set_nonempty.
Qed.

Lemma sample_labels_size (labels : list string) :
  forall st g st' g',
  mfold (sample_prop object_dict actions_dict locations actions_cfg 50)
        labels st g = Ok (st', g') ->
  length (fst st) <= length (fst st') <= length (fst st) + length labels.
Proof.
  induction labels as [|lbl labels IH]; intros st g st' g' E; cbn [mfold] in E.
  - apply ret_Ok in E. destruct E as [-> _]. simpl. lia.
  - run_bind E st1 g1 R1. apply sample_prop_size in R1. destruct R1 as [B _].
    apply IH in E. simpl. lia.
Qed.

Lemma sample_props_size (max_props : nat) (g g' : rng) (props : dict PropInfo) :
  sample_props object_dict actions_dict locations actions_cfg max_props g
    = Ok (props, g') ->
  1 <= length props <= max_props.
Proof.
  unfold sample_props. intros E.
  run_bind E k g1 Rk. run_bind E want g2 Rw. run_bind E st g3 Rf.
  apply ret_Ok in E. destruct E as [-> _].
  apply random_randint_range in Rk. apply random_sample_length in Rw.
  destruct want as [|lbl want]; [simpl in Rw; lia|].
  cbn [mfold] in Rf. run_bind Rf st1 g4 R1.
  apply sample_prop_size in R1. destruct R1 as [B1 B2].
  specialize (B2 ltac:(lia) eq_refl).
  apply sample_labels_size in Rf. simpl in *. lia.
Qed.

End SamplerSize.

Section SamplerReturns.

Variable object_dict : dict (list string).
Variable actions_dict : dict (list string).
Variable locations : list string.
Variable actions_cfg : dict (list string).

Hypothesis verbs : actions_dict <> [].
Hypothesis synonyms : forall verb syns, In (verb, syns) actions_dict -> syns <> [].
Hypothesis params_known :
  forall verb, In verb (dict_keys actions_dict) ->
  exists params, dict_get actions_cfg verb = Some params
                 /\ Forall (fun kind => In kind recognized_kinds) params.
Hypothesis objects : object_dict <> [].
Hypothesis object_synonyms : forall k syns, In (k, syns) object_dict -> syns <> [].
Hypothesis places : locations <> [].

Lemma sample_prop_returns (n : nat) :
  forall st lbl g, exists st' g',
  sample_prop object_dict actions_dict locations actions_cfg n st lbl g
    = Ok (st', g').
Proof.
  induction n as [|n IH]; intros st lbl g.
  - exists st, g. reflexivity.
  - cbn [sample_prop].
    assert (HK : dict_keys actions_dict <> [])
      by (destruct actions_dict; [contradiction | discriminate]).
    destruct (random_choice_Ok _ g HK) as (verb & Hverb & Ev).
    unfold bind at 1. rewrite Ev.
    destruct (params_known verb Hverb) as (params & Hp & Hk).
    unfold bind at 1. unfold dict_getitem. rewrite Hp. cbn [lift].
    destruct (mmap_Ok (fun kind => _sample_argument kind object_dict locations) params)
      with (g := rng_tail g) as (args & g2 & Ea & _).
    { eapply Forall_impl; [|exact Hk]. intros kind Hkind g0. cbn beta.
      destruct (sample_argument_recognized kind object_dict locations g0 Hkind
                  objects object_synonyms places) as (c & r & g0' & E0).
      exists (c, r), g0'. exact E0. }
    unfold bind at 1. rewrite Ea.
    destruct (PyStr.mem _ (snd st)); [apply IH|].
    destruct (dict_get_key actions_dict verb Hverb) as (syns & Hs).
    unfold bind at 1. rewrite Hs. cbn [lift].
    destruct (random_choice_Ok syns g2) as (ref & _ & Er).
    { eapply synonyms, dict_get_In; eauto. }
    unfold bind at 1. rewrite Er. eexists. eexists. reflexivity.
Qed.

Lemma sample_labels_return (labels : list string) :
  forall st g, exists st' g',
  mfold (sample_prop object_dict actions_dict locations actions_cfg 50)
        labels st g = Ok (st', g').
Proof.
  induction labels as [|lbl labels IH]; intros st g; cbn [mfold].
  - exists st, g. reflexivity.
  - destruct (sample_prop_returns 50 st lbl g) as (st1 & g1 & E1).
    unfold bind at 1. rewrite E1. apply IH.
Qed.

Lemma sample_props_return (max_props : nat) (g : rng) :
  1 <= max_props ->
  exists props g',
    sample_props object_dict actions_dict locations actions_cfg max_props g
      = Ok (props, g').
Proof.
  intros HM. unfold sample_props.
  destruct (random_randint_Ok 1 max_props g HM) as (k & Hk & E1).
  unfold bind at 1. rewrite E1.
  set (pool := map _ (seq 0 max_props)).
  destruct (random_sample_Ok k pool (rng_tail g)) as (l & g1 & E2 & Hl).
  { subst pool. rewrite length_map, length_seq. lia. }
  unfold bind at 1. rewrite E2.
  destruct (sample_labels_return l ([], []) g1) as (st & g2 & E3).
  unfold bind at 1. rewrite E3. eexists. eexists. reflexivity.
Qed.

End SamplerReturns.

(** Step (a) of the driver's loop never fails on a well-formed
    configuration: when there is a verb, every verb has synonyms and a
    parameter list of recognised kinds, and the object and location tables
    are not empty, [sample_props] returns, whatever the random draws, and
    the dictionary it returns has at least one proposition and at most
    [max_props]. *)
Theorem sample_props_returns (object_dict actions_dict : dict (list string))
  (locations : list string) (actions_cfg : dict (list string))
  (max_props : nat) (g : rng) :
  actions_dict <> [] ->
  (forall verb syns, In (verb, syns) actions_dict -> syns <> []) ->
  (forall verb, In verb (dict_keys actions_dict) ->
   exists params, dict_get actions_cfg verb = Some params
                  /\ Forall (fun kind => In kind recognized_kinds) params) ->
  object_dict <> [] ->
  (forall k syns, In (k, syns) object_dict -> syns <> []) ->
  locations <> [] ->
  1 <= max_props ->
  exists props g',
    sample_props object_dict actions_dict locations actions_cfg max_props g
      = Ok (props, g')
    /\ 1 <= length props <= max_props.
Proof.
  intros H1 H2 H3 H4 H5 H6 HM.
  destruct (sample_props_return object_dict actions_dict locations actions_cfg
              H1 H2 H3 H4 H5 H6 max_props g HM) as (props & g' & E).
  exists props, g'. split; [exact E|]. eapply sample_props_size; eauto.
Qed.

Lemma sample_props_returns_witness :
  exists props g',
    sample_props [("box", ["box"; "crate"])]
                 [("move", ["move"; "carry"]); ("idle", ["idle"])]
                 ["shelf"; "dock"]
                 [("move", ["item"; "location"]); ("idle", [])] 3 (fun n => 2 * n + 1)
      = Ok (props, g')
    /\ 1 <= length props <= 3.
Proof.
  apply (sample_props_returns [("box", ["box"; "crate"])]
           [("move", ["move"; "carry"]); ("idle", ["idle"])]
           ["shelf"; "dock"]
           [("move", ["item"; "location"]); ("idle", [])] 3 (fun n => 2 * n + 1)).
  - discriminate.
  - intros verb syns [E|[E|[]]]; inversion E; discriminate.
  - intros verb [<-|[<-|[]]]; eexists; (split; [reflexivity|]);
      repeat constructor; vm_compute; tauto.
  - discriminate.
  - intros k syns [E|[]]; inversion E; discriminate.
  - discriminate.
  - lia.
Defined.

(** ** The shape of the dataset *)

Lemma set_id_same (e : Entry) : set_id (id e) e = e.
Proof. destruct e. reflexivity. Qed.

Lemma renumber_same (ds : list Entry) (a : nat) :
  map id ds = seq a (length ds) ->
  map (fun ne => set_id (fst ne) (snd ne)) (combine (seq a (length ds)) ds) = ds.
Proof.
  revert a. induction ds as [|e ds IH]; intros a E; simpl in *; [reflexivity|].
  injection E as E1 E2. f_equal.
  - rewrite <- E1. apply set_id_same.
  - apply IH. exact E2.
Qed.

Section DatasetShape.

Context `{NLP}.

Variable object_dict : dict (list string).
Variable actions_dict : dict (list string).
Variable locations : list string.
Variable actions_cfg : dict (list string).

Lemma dataset_loop_ids (fuel align_fuel num_entries max_props : nat) :
  forall (dataset ds : list Entry) (g g' : rng),
  length dataset <= num_entries ->
  map id dataset = seq 0 (length dataset) ->
  dataset_loop object_dict actions_dict locations actions_cfg
    fuel align_fuel num_entries max_props dataset g = Ok (ds, g') ->
  length ds = num_entries /\ map id ds = seq 0 num_entries.
Proof.
  induction fuel as [|fuel IH]; intros dataset ds g g' HL HI E.
  - discriminate E.
  - cbn [dataset_loop] in E.
    destruct (Nat.ltb_spec (length dataset) num_entries) as [Lt|Ge].
    + run_bind E props g1 Rs. run_bind E entry g2 Rb.
      destruct (_entry_is_valid entry).
      * eapply IH; [| |exact E].
        -- rewrite length_app. simpl. lia.
        -- rewrite map_app, length_app, HI. simpl. rewrite Nat.add_1_r, seq_S.
           simpl. do 2 f_equal.
           apply sample_props_inv in Rs. destruct Rs as (ND & _).
           destruct (build_entry_for_props_inv _ _ _ _ _ _ _ ND Rb)
             as (key & need & skel & w & p' & m & Hinv).
           cbn zeta in Hinv. apply Hinv.
      * eapply IH; eauto.
    + apply ret_Ok in E. destruct E as [-> ->].
      assert (length dataset = num_entries) by lia. subst num_entries. auto.
Qed.

End DatasetShape.

(** ** The propositions of an entry *)

Lemma updated_map {B : Type} (f : PropInfo -> B) (g_raw : string)
  (props props' : dict PropInfo) :
  (forall info info', update_action_ref g_raw info = Ok info' -> f info' = f info) ->
  updated g_raw props props' ->
  map f (dict_values props') = map f (dict_values props).
Proof.
  intros Hf. unfold dict_values.
  induction 1 as [|kv kv' l l' [_ E] F IH]; simpl; auto.
  f_equal; auto.
Qed.

Lemma updated_length (g_raw : string) (props props' : dict PropInfo) :
  updated g_raw props props' -> length props' = length props.
Proof. intros U. symmetry. eapply Forall2_length; eauto. Qed.

Lemma entry_props_shape `{NLP} (fuel idx : nat) (props : dict PropInfo)
  (actions_cfg : dict (list string)) (g g' : rng) (e : Entry) :
  NoDup (dict_keys props) ->
  build_entry_for_props fuel idx props actions_cfg g = Ok (e, g') ->
  let n := length (prop_dict e) in
  let fields := fun info => (action_canon info, args_canon info, args_ref info) in
  1 <= n <= 3 /\ n <= length props /\ (length props <= 3 -> n = length props)
  /\ dict_keys (prop_dict e) = map placeholder (seq 1 n)
  /\ map fields (dict_values (prop_dict e))
     = firstn n (map fields (dict_values props)).
Proof.
  intros ND E.
  destruct (build_entry_for_props_run _ _ _ _ _ _ _ ND E)
    as (key & need & skel & with_ego & props' & m_ltl & Hinv & Hexact & _).
  cbn zeta in Hinv.
  destruct Hinv as (HIn & Hneed & Hup & _ & _ & _ & Hpd & _).
  pose proof catalog_arities as CA. rewrite Forall_forall in CA.
  specialize (CA _ HIn). cbn [fst snd] in CA.
  assert (Lv : length (firstn need (dict_values props')) = need).
  { unfold dict_values. rewrite length_firstn, length_map.
    rewrite (updated_length _ _ _ Hup). lia. }
  assert (HN : length (prop_dict e) = need).
  { rewrite Hpd, length_combine, length_map, length_seq. lia. }
  cbn zeta. rewrite HN.
  split; [exact CA|]. split; [exact Hneed|].
  split; [intros L3; apply Hexact; lia|].
  rewrite Hpd. split.
  - unfold dict_keys. apply combine_fst. rewrite length_map, length_seq. lia.
  - unfold dict_values at 1. rewrite combine_snd
      by (rewrite length_map, length_seq; lia).
    rewrite <- firstn_map. f_equal.
    apply (updated_map _ (correct_sentence with_ego)); [|exact Hup].
    intros info info' U. apply update_action_ref_fields in U.
    destruct U as (-> & -> & ->). reflexivity.
Qed.

(** The propositions of an entry are the first [n] propositions of the
    dictionary it was built from, in their order, stored under the new
    keys [prop_1 .. prop_n] whatever their old labels were; [n] is the
    arity of the chosen skeleton: between one and three, and the size of
    the dictionary when that is at most three.  Verb and arguments are kept
    (only [action_ref] can differ). *)
Theorem entry_props_relabelled `{NLP} (fuel idx : nat) (props : dict PropInfo)
  (actions_cfg : dict (list string)) (g g' : rng) (e : Entry) :
  NoDup (dict_keys props) ->
  build_entry_for_props fuel idx props actions_cfg g = Ok (e, g') ->
  let n := length (prop_dict e) in
  let fields := fun info => (action_canon info, args_canon info, args_ref info) in
  1 <= n <= 3 /\ n <= length props /\ (length props <= 3 -> n = length props)
  /\ dict_keys (prop_dict e) = map placeholder (seq 1 n)
  /\ map fields (dict_values (prop_dict e))
     = firstn n (map fields (dict_values props)).
Proof. apply entry_props_shape. Qed.

Lemma entry_props_relabelled_witness :
  exists e g',
    build_entry_for_props (H := SimpleNLP) 40 0
      [("prop_3", {| action_canon := "deliver"; action_ref := "deliver";
                     args_canon := ["box"; "shelf"]; args_ref := ["box"; "shelf"] |});
       ("prop_1", {| action_canon := "idle"; action_ref := "wait";
                     args_canon := []; args_ref := [] |})]
      [("deliver", ["item"; "location"]); ("idle", [])] (fun _ => 5)
    = Ok (e, g')
    /\ dict_keys (prop_dict e) = ["prop_1"; "prop_2"]
    /\ map action_canon (dict_values (prop_dict e)) = ["deliver"; "idle"]
    /\ length (prop_dict e) = 2.
Proof.
  eexists. eexists. split; [vm_compute; reflexivity|].
  split; [reflexivity|]. split; [reflexivity|].
  eapply eq_trans; [|reflexivity].
  refine (proj1 (proj2 (proj2 (entry_props_relabelled (H := SimpleNLP) 40 0
      [("prop_3", {| action_canon := "deliver"; action_ref := "deliver";
                     args_canon := ["box"; "shelf"]; args_ref := ["box"; "shelf"] |});
       ("prop_1", {| action_canon := "idle"; action_ref := "wait";
                     args_canon := []; args_ref := [] |})]
      [("deliver", ["item"; "location"]); ("idle", [])] (fun _ => 5) _ _ _ _))) _).
  - repeat constructor; simpl; intuition discriminate.
  - vm_compute. reflexivity.
  - simpl. lia.
Defined.

(** [build_dataset_entries] returns exactly [num_entries] entries, with the
    ids [0 .. num_entries - 1] in order; the entries had these ids already
    when the loop accepted them, so the final renumbering changes nothing.
    Every entry has between one and three propositions, no more than
    [max_props], under the keys [prop_1 .. prop_n]. *)
Theorem dataset_shape `{NLP} (object_dict actions_dict : dict (list string))
  (locations : list string) (actions_cfg : dict (list string))
  (fuel align_fuel num_entries max_props : nat) (ds : list Entry) (g g' : rng) :
  build_dataset_entries object_dict actions_dict locations actions_cfg
    fuel align_fuel num_entries max_props g = Ok (ds, g') ->
  length ds = num_entries
  /\ map id ds = seq 0 num_entries
  /\ dataset_loop object_dict actions_dict locations actions_cfg
       fuel align_fuel num_entries max_props [] g = Ok (ds, g')
  /\ forall e, In e ds ->
       1 <= length (prop_dict e) <= 3
       /\ length (prop_dict e) <= max_props
       /\ dict_keys (prop_dict e) = map placeholder (seq 1 (length (prop_dict e))).
Proof.
  intros E.
  assert (P : Forall (fun e =>
              1 <= length (prop_dict e) <= 3
              /\ length (prop_dict e) <= max_props
              /\ dict_keys (prop_dict e)
                 = map placeholder (seq 1 (length (prop_dict e)))) ds).
  { eapply build_dataset_entries_invariant; [| |exact E].
    - intros g0 props g1 af idx e g2 Hs Hb _.
      pose proof (sample_props_size _ _ _ _ _ _ _ _ Hs) as Sz.
      apply sample_props_inv in Hs. destruct Hs as (ND & _).
      destruct (entry_props_shape _ _ _ _ _ _ _ ND Hb) as (A & B & _ & D & _).
      split; [exact A|]. split; [lia | exact D].
    - intros n e Q. exact Q. }
  unfold build_dataset_entries in E.
  run_bind E dataset g1 Rl. apply ret_Ok in E. destruct E as [E1 E2].
  subst ds g'.
  pose proof Rl as Rl'. apply dataset_loop_ids in Rl'; [|simpl; lia|reflexivity].
  destruct Rl' as [L I].
  rewrite <- L in I. rewrite (renumber_same dataset 0 I) in *.
  rewrite L in I. repeat split; auto; rewrite Forall_forall in P; apply P; auto.
Qed.

Lemma dataset_shape_witness :
  exists ds g',
    build_dataset_entries (H := SimpleNLP)
      [("box", ["box"])] [("move", ["move"])] ["shelf"; "dock"]
      [("move", ["item"; "location"])] 5 40 2 3 (fun n => n)
    = Ok (ds, g')
    /\ length ds = 2 /\ map id ds = [0; 1].
Proof.
  eexists. eexists. split; [vm_compute; reflexivity|].
  refine ((fun X => conj (proj1 X) (proj1 (proj2 X)))
    (dataset_shape (H := SimpleNLP)
      [("box", ["box"])] [("move", ["move"])] ["shelf"; "dock"]
      [("move", ["item"; "location"])] 5 40 2 3 _ (fun n => n) _ _)).
  vm_compute. reflexivity.
Defined.

(** ** The traces mention only the atoms they are given *)

Lemma nth_error_mem (L : list string) (i : nat) (x : string) :
  nth_error L i = Some x -> PyStr.mem x L = true.
Proof. intros E. apply mem_In. eapply nth_error_In; eauto. Qed.

Lemma forallb_mem_self (L : list string) :
  forallb (fun x => PyStr.mem x L) L = true.
Proof. apply forallb_forall. intros x Hx. now apply mem_In. Qed.

(** [trace_case E]: the pair of traces of the successful run [E] of a
    builder given in full. *)
Ltac trace_case L E :=
  cbv [rbind getitem _trace_for_NOT _trace_for_F_NOT _trace_for_G_NOT
       _trace_for_X _trace_for_NOT_A_UNTIL_B _trace_for_F_AND _trace_for_G_AND
       _trace_for_F_OR _trace_for_G_OR _trace_for_AND _trace_for_OR
       build_G_NOT_AND repeat app] in E;
  let E0 := fresh "E0" in let E1 := fresh "E1" in let E2 := fresh "E2" in
  (destruct (nth_error L 0) eqn:E0; [apply nth_error_mem in E0 | clear E0]);
  (destruct (nth_error L 1) eqn:E1; [apply nth_error_mem in E1 | clear E1]);
  (destruct (nth_error L 2) eqn:E2; [apply nth_error_mem in E2 | clear E2]);
  try discriminate E;
  injection E as <- <-;
  (split; [discriminate|]); (split; [discriminate|]);
  cbn [atoms_within forallb];
  repeat match goal with M : PyStr.mem _ L = true |- _ => rewrite M; clear M end;
  split; reflexivity.

Lemma make_traces_within (key : string) (L : list string) (good bad : trace) :
  _make_traces key L = Ok (good, bad) ->
  good <> [] /\ bad <> []
  /\ atoms_within L good = true /\ atoms_within L bad = true.
Proof.
  unfold _make_traces, dict_mem, dict_getitem.
  destruct (dict_get _TRACE_BUILDERS key) as [b|] eqn:D.
  - cbn [rbind]. intros E.
    unfold _TRACE_BUILDERS in D. cbn [dict_get] in D.
    repeat match type of D with
      | (if ?t then _ else _) = _ =>
          destruct t; [injection D as <-; trace_case L E|]
      end.
    discriminate D.
  - intros E. injection E as <- <-.
    split; [discriminate|]. split; [discriminate|].
    cbn [atoms_within forallb repeat]. rewrite forallb_mem_self. split; reflexivity.
Qed.

Lemma make_traces_returns (key : string) (need : nat) (skel : skeleton)
  (L : list string) :
  In (key, need, skel) LTL_TEMPLATES_STATE -> need <= length L ->
  exists good bad, _make_traces key L = Ok (good, bad).
Proof.
  intros HIn HL.
  unfold LTL_TEMPLATES_STATE, BASE_LTL_TEMPLATES_STATE,
    ADDITIONAL_LTL_TEMPLATES_STATE in HIn. cbn [app In] in HIn.
  destruct L as [|x [|y [|z L]]];
    repeat (destruct HIn as [E | HIn];
      [ injection E as <- <- <-;
        first [ exfalso; simpl in HL; lia
              | eexists; eexists; reflexivity ] |]);
    contradiction.
Qed.

Lemma make_traces_no_labels (key : string) :
  dict_mem key _TRACE_BUILDERS = true -> _make_traces key [] = Raise IndexError.
Proof.
  unfold _make_traces, dict_getitem. intros M. rewrite M.
  unfold dict_mem in M.
  destruct (dict_get _TRACE_BUILDERS key) as [b|] eqn:D; [clear M|discriminate M].
  cbn [rbind]. unfold _TRACE_BUILDERS in D. cbn [dict_get] in D.
  repeat match type of D with
    | (if ?t then _ else _) = _ =>
        destruct t; [injection D as <-; reflexivity|]
    end.
  discriminate D.
Qed.

(** The pair of traces of [_make_traces], for any key and any list of
    atoms: when a pair is returned, neither trace is empty and every atom
    of a moment is one of the atoms given.  A pair is returned for every
    skeleton of the catalog given at least as many atoms as its arity; on
    an empty atom list every hand-written builder raises [IndexError],
    while the fallback returns. *)
Theorem make_traces_atoms (key : string) (L : list string) :
  (forall good bad, _make_traces key L = Ok (good, bad) ->
     good <> [] /\ bad <> []
     /\ atoms_within L good = true /\ atoms_within L bad = true)
  /\ (forall need skel, In (key, need, skel) LTL_TEMPLATES_STATE ->
        need <= length L -> exists good bad, _make_traces key L = Ok (good, bad))
  /\ (dict_mem key _TRACE_BUILDERS = true -> _make_traces key [] = Raise IndexError)
  /\ (dict_mem key _TRACE_BUILDERS = false ->
        _make_traces key L = Ok ([L], [[]; []; []])).
Proof.
  split; [intros good bad; apply make_traces_within|].
  split; [intros need skel; apply make_traces_returns|].
  split; [apply make_traces_no_labels|].
  intros M. apply make_traces_fallback. unfold dict_mem in M.
  now destruct (dict_get _TRACE_BUILDERS key).
Qed.

(** In an entry returned by [build_entry_for_props] both traces have at
    least one moment, and every atom listed in a moment is the atom of one
    of the entry's propositions. *)
Theorem entry_traces_atoms `{NLP} (fuel idx : nat) (props : dict PropInfo)
  (actions_cfg : dict (list string)) (g g' : rng) (e : Entry) :
  NoDup (dict_keys props) ->
  build_entry_for_props fuel idx props actions_cfg g = Ok (e, g') ->
  let atoms := map _atom (dict_values (prop_dict e)) in
  good_trace e <> [] /\ bad_trace e <> []
  /\ atoms_within atoms (good_trace e) = true
  /\ atoms_within atoms (bad_trace e) = true.
Proof.
  intros ND E.
  destruct (build_entry_for_props_inv _ _ _ _ _ _ _ ND E)
    as (key & need & skel & with_ego & props' & m_ltl & Hinv).
  cbn zeta in Hinv.
  destruct Hinv as (_ & Hneed & Hup & _ & _ & _ & Hpd & _ & _ & Htr & _).
  assert (Ha : map _atom (dict_values (prop_dict e))
               = map _atom (firstn need (dict_values props))).
  { rewrite Hpd. unfold dict_values at 1. rewrite combine_snd.
    - rewrite <- !firstn_map. f_equal. eapply updated_atoms; eauto.
    - rewrite length_map, length_seq. unfold dict_values.
      rewrite length_firstn, length_map, (updated_length _ _ _ Hup). lia. }
  cbn zeta. rewrite Ha. now apply (make_traces_within key).
Qed.

Lemma entry_traces_atoms_witness :
  exists e g',
    build_entry_for_props (H := SimpleNLP) 40 0
      [("prop_2", {| action_canon := "deliver"; action_ref := "deliver";
                     args_canon := ["box"; "shelf"]; args_ref := ["box"; "shelf"] |});
       ("prop_1", {| action_canon := "idle"; action_ref := "wait";
                     args_canon := []; args_ref := [] |})]
      [("deliver", ["item"; "location"]); ("idle", [])] (fun _ => 5)
    = Ok (e, g')
    /\ good_trace e = [["deliver(box,shelf)"]; []; ["idle"]]
    /\ bad_trace e = [["deliver(box,shelf)"]; []; []]
    /\ map _atom (dict_values (prop_dict e)) = ["deliver(box,shelf)"; "idle"]
    /\ atoms_within (map _atom (dict_values (prop_dict e))) (good_trace e) = true.
Proof.
  eexists. eexists. split; [vm_compute; reflexivity|].
  split; [reflexivity|]. split; [reflexivity|]. split; [reflexivity|].
  refine (proj1 (proj2 (proj2 (entry_traces_atoms (H := SimpleNLP) 40 0
      [("prop_2", {| action_canon := "deliver"; action_ref := "deliver";
                     args_canon := ["box"; "shelf"]; args_ref := ["box"; "shelf"] |});
       ("prop_1", {| action_canon := "idle"; action_ref := "wait";
                     args_canon := []; args_ref := [] |})]
      [("deliver", ["item"; "location"]); ("idle", [])] (fun _ => 5) _ _ _ _)))).
  - repeat constructor; simpl; intuition discriminate.
  - vm_compute. reflexivity.
Defined.

(** ** The sentence templates *)

(** The keys of the additional templates are new and pairwise distinct, so
    the loop of source lines 638-639 appends them to the table. *)
Lemma semantic_templates_table :
  SEMANTIC_TEMPLATES
  = (BASE_SEMANTIC_TEMPLATES ++ ADDITIONAL_SEMANTIC_TEMPLATES)%list.
Proof. reflexivity. Qed.

Lemma prefix_self_append (a b : string) : String.prefix a (a ++ b) = true.
Proof.
  induction a as [|ch a IH]; simpl; [now destruct b|].
  destruct (ascii_dec ch ch); [exact IH | contradiction].
Qed.

Lemma contains_prefix (sub s : string) :
  String.prefix sub s = true -> PyStr.contains sub s = true.
Proof. intros P. destruct s; cbn [PyStr.contains]; now rewrite P. Qed.

Lemma contains_here (a b : string) : PyStr.contains a (a ++ b) = true.
Proof. apply contains_prefix, prefix_self_append. Qed.

Lemma contains_skip_char (x : string) (ch : ascii) (r : string) :
  PyStr.contains x r = true -> PyStr.contains x (String ch r) = true.
Proof.
  intros C. cbn [PyStr.contains]. rewrite C.
  now destruct (String.prefix x (String ch r)).
Qed.

Lemma contains_skip_app (x a b : string) :
  PyStr.contains x b = true -> PyStr.contains x (a ++ b) = true.
Proof.
  intros C. induction a as [|ch a IH]; simpl; [exact C|].
  now apply contains_skip_char.
Qed.

Lemma prefix_app_l (x a b : string) :
  String.prefix x a = true -> String.prefix x (a ++ b) = true.
Proof.
  revert a. induction x as [|ch x IH]; intros a P.
  - now destruct (a ++ b).
  - destruct a as [|ch' a]; simpl in *; [discriminate P|].
    destruct (ascii_dec ch ch'); [now apply IH | discriminate P].
Qed.

Lemma contains_app_l (x a b : string) :
  PyStr.contains x a = true -> PyStr.contains x (a ++ b) = true.
Proof.
  induction a as [|ch a IH]; cbn [PyStr.contains]; intros C.
  - destruct (String.prefix x "") eqn:P; [|discriminate C].
    apply contains_prefix. now apply (prefix_app_l x "" b).
  - destruct (String.prefix x (String ch a)) eqn:P.
    + apply contains_prefix. now apply (prefix_app_l x (String ch a) b).
    + change (String ch a ++ b) with (String ch (a ++ b)).
      apply contains_skip_char. now apply IH.
Qed.

Lemma all_chars_skip_char (p : ascii -> bool) (ch : ascii) (r : string) :
  PyStr.all_chars p r = false -> PyStr.all_chars p (String ch r) = false.
Proof. intros A. simpl. rewrite A. apply andb_false_r. Qed.

Lemma all_chars_skip_app (p : ascii -> bool) (a b : string) :
  PyStr.all_chars p b = false -> PyStr.all_chars p (a ++ b) = false.
Proof. intros A. rewrite all_chars_append, A. apply andb_false_r. Qed.

(** A string with a character that is not a blank has a word. *)
Lemma split_from_nonempty (s : string) :
  forall cur, cur <> "" \/ PyStr.all_chars PyStr.is_space s = false ->
  PyStr.split_from cur s <> [].
Proof.
  induction s as [|ch s IH]; intros cur Hc; cbn [PyStr.split_from].
  - destruct Hc as [Hc|Hc]; [|discriminate Hc]. destruct cur; [contradiction|discriminate].
  - destruct (PyStr.is_space ch) eqn:Sp.
    + destruct cur; [|discriminate]. apply IH. right.
      destruct Hc as [Hc|Hc]; [contradiction|]. simpl in Hc. now rewrite Sp in Hc.
    + apply IH. left. destruct cur; discriminate.
Qed.

Lemma split_nonempty (s : string) :
  PyStr.all_chars PyStr.is_space s = false -> PyStr.split s <> [].
Proof. intros A. apply split_from_nonempty. now right. Qed.

Lemma contains_self (x : string) : PyStr.contains x x = true.
Proof.
  rewrite <- (append_nil_r x) at 2. apply contains_here.
Qed.

(** [has_seg]: the text, written with literal characters and appended
    strings, contains the segment. *)
Ltac has_seg :=
  first [ apply contains_here
        | apply contains_self
        | apply contains_skip_char; has_seg
        | apply contains_skip_app; has_seg
        | apply contains_app_l; has_seg ].

(** [has_word]: such a text has a character that is not a blank. *)
Ltac has_word :=
  first [ reflexivity
        | apply all_chars_skip_char; has_word
        | apply all_chars_skip_app; has_word ].

Ltac template_case segs HL :=
  destruct segs as [|?s0 [|?s1 [|?s2 [|?s3 segs]]]]; try discriminate HL;
  cbv [fstr rmap getitem nth_error rbind py_format Ascii.eqb Bool.eqb
       PyStr.join String.concat];
  eexists; split; [reflexivity|];
  split; [repeat constructor; has_seg | apply split_nonempty; has_word].

(** Every skeleton of the catalog has a sentence template that fits it:
    [pick_sentence_template] returns one for its key, whatever the draw,
    and the template, applied to as many segments as the skeleton has
    propositions, returns a sentence (no index is out of range) that
    contains every segment and has at least one word, as
    [add_ego_reference] needs.  "X" and "U" have no template of their own
    and get a generic one. *)
Theorem sentence_templates_fit (key : string) (need : nat) (skel : skeleton)
  (segs : list string) (g : rng) :
  In (key, need, skel) LTL_TEMPLATES_STATE ->
  length segs = need ->
  (exists tpl g', pick_sentence_template key g = Ok (tpl, g'))
  /\ (forall tpl g', pick_sentence_template key g = Ok (tpl, g') ->
      exists raw, tpl segs = Ok raw
        /\ Forall (fun seg => PyStr.contains seg raw = true) segs
        /\ PyStr.split raw <> [])
  /\ (dict_mem key SEMANTIC_TEMPLATES = false <-> key = "X" \/ key = "U").
Proof.
  intros HIn HL.
  unfold LTL_TEMPLATES_STATE, BASE_LTL_TEMPLATES_STATE,
    ADDITIONAL_LTL_TEMPLATES_STATE in HIn. cbn [app In] in HIn.
  unfold pick_sentence_template, dict_mem. rewrite semantic_templates_table.
  repeat (destruct HIn as [E | HIn];
    [ injection E as <- <- <-;
      cbv [BASE_SEMANTIC_TEMPLATES ADDITIONAL_SEMANTIC_TEMPLATES GENERIC_TEMPLATES
           app dict_get String.eqb Ascii.eqb Bool.eqb];
      split; [|split];
      [ match goal with
        | |- exists tpl g', random_choice ?l g = _ =>
            destruct (random_choice_Ok l g ltac:(discriminate)) as (tpl & _ & Et);
            exists tpl, (rng_tail g); exact Et
        end
      | intros tpl g' Et; apply random_choice_In in Et; cbn [In] in Et;
        repeat (destruct Et as [<- | Et]; [template_case segs HL|]);
        contradiction
      | split; [intros X; first [discriminate X | auto]
               | intros [X|X]; first [discriminate X | reflexivity]] ] |]).
  contradiction.
Qed.

Lemma sentence_templates_fit_witness :
  (exists tpl g', pick_sentence_template "G_IMPL_F" (fun _ => 0) = Ok (tpl, g'))
  /\ (forall tpl g', pick_sentence_template "G_IMPL_F" (fun _ => 0) = Ok (tpl, g') ->
      exists raw, tpl ["deliver the box to the shelf"; "wait"] = Ok raw
        /\ Forall (fun seg => PyStr.contains seg raw = true)
                  ["deliver the box to the shelf"; "wait"]
        /\ PyStr.split raw <> [])
  /\ (dict_mem "G_IMPL_F" SEMANTIC_TEMPLATES = false
      <-> "G_IMPL_F" = "X" \/ "G_IMPL_F" = "U").
Proof.
  apply (sentence_templates_fit "G_IMPL_F" 2
           (format_all "globally ( {} implies finally {} )")
           ["deliver the box to the shelf"; "wait"] (fun _ => 0)).
  - in_catalog.
  - reflexivity.
Defined.

(** ** The ego reference *)

Ltac eval_mem :=
  match goal with
  | |- context [PyStr.mem ?a ?b] =>
      let v := eval vm_compute in (PyStr.mem a b) in
      change (PyStr.mem a b) with v
  end.

Lemma ego_prefix_kept (ego sentence ego' : string) :
  In ego EGO_REFS ->
  add_ego_reference (ego ++ " must " ++ sentence) ego'
  = Ok (ego ++ " must " ++ sentence).
Proof.
  intros I. unfold EGO_REFS in I. cbn [In] in I.
  unfold add_ego_reference.
  assert (W : forall w r, wordlike w ->
            PyStr.split (w ++ String " " r) = w :: PyStr.split_from "" r).
  { intros w r Hw. apply split_from_hole_mid; [exact Hw | reflexivity]. }
  repeat destruct I as [<- | I]; try contradiction.
  - change ("The robot" ++ " must " ++ sentence)
      with ("The" ++ String " " ("robot" ++ " must " ++ sentence)).
    rewrite (W "The" ("robot" ++ " must " ++ sentence))
      by (split; [discriminate | reflexivity]).
    cbn [getitem nth_error rbind]. eval_mem. reflexivity.
  - change ("You" ++ " must " ++ sentence)
      with ("You" ++ String " " ("must " ++ sentence)).
    rewrite (W "You" ("must " ++ sentence))
      by (split; [discriminate | reflexivity]).
    cbn [getitem nth_error rbind]. eval_mem. reflexivity.
  - change ("Our agent" ++ " must " ++ sentence)
      with ("Our" ++ String " " ("agent" ++ " must " ++ sentence)).
    rewrite (W "Our" ("agent" ++ " must " ++ sentence))
      by (split; [discriminate | reflexivity]).
    cbn [getitem nth_error rbind]. eval_mem. reflexivity.
  - change ("The system" ++ " must " ++ sentence)
      with ("The" ++ String " " ("system" ++ " must " ++ sentence)).
    rewrite (W "The" ("system" ++ " must " ++ sentence))
      by (split; [discriminate | reflexivity]).
    cbn [getitem nth_error rbind]. eval_mem. reflexivity.
  - change ("This controller" ++ " must " ++ sentence)
      with ("This" ++ String " " ("controller" ++ " must " ++ sentence)).
    rewrite (W "This" ("controller" ++ " must " ++ sentence))
      by (split; [discriminate | reflexivity]).
    cbn [getitem nth_error rbind]. eval_mem. reflexivity.
Qed.

Lemma split_from_nil (s cur : string) :
  PyStr.split_from cur s = []
  <-> cur = "" /\ PyStr.all_chars PyStr.is_space s = true.
Proof.
  revert cur. induction s as [|ch s IH]; intros cur; cbn [PyStr.split_from PyStr.all_chars].
  - destruct cur; split; intros E; try discriminate E; auto.
    destruct E as [E _]. discriminate E.
  - destruct (PyStr.is_space ch); cbn [andb].
    + destruct cur as [|c0 cur].
      * rewrite IH. tauto.
      * split; [discriminate|]. intros [E _]. discriminate E.
    + rewrite IH. split; [|intros [_ E]; discriminate E].
      intros [E _]. destruct cur; discriminate E.
Qed.

(** On an ASCII sentence: [add_ego_reference] raises [IndexError] when the
    sentence has no word (it is empty or all white space); otherwise it
    returns the sentence, as it is or behind the prefix "<ego> must ".
    With one of the five ego references of the generator the result is
    stable: a second call, with any ego, adds nothing. *)
Theorem ego_reference_once (sentence ego : string) :
  PyStr.isascii sentence = true ->
  (PyStr.all_chars PyStr.is_space sentence = true ->
   add_ego_reference sentence ego = Raise IndexError)
  /\ (PyStr.all_chars PyStr.is_space sentence = false ->
      exists out, add_ego_reference sentence ego = Ok out
        /\ (out = sentence \/ out = ego ++ " must " ++ sentence))
  /\ (In ego EGO_REFS ->
      forall out, add_ego_reference sentence ego = Ok out ->
      forall ego', add_ego_reference out ego' = Ok out).
Proof.
  intros _. split; [|split].
  - intros B. unfold add_ego_reference, PyStr.split.
    now rewrite (proj2 (split_from_nil sentence "") (conj eq_refl B)).
  - intros B. unfold add_ego_reference.
    destruct (PyStr.split sentence) as [|w ws] eqn:S.
    + apply split_from_nil in S. destruct S as [_ S]. congruence.
    + cbn [getitem nth_error rbind].
      destruct (PyStr.mem _ VERB_LIKE_STARTS); eexists; split; eauto.
  - intros I out E ego'. unfold add_ego_reference in E.
    destruct (PyStr.split sentence) as [|w ws] eqn:S; [discriminate E|].
    cbn [getitem nth_error rbind] in E.
    destruct (PyStr.mem _ VERB_LIKE_STARTS) eqn:M; injection E as <-.
    + now apply ego_prefix_kept.
    + unfold add_ego_reference. rewrite S. cbn [getitem nth_error rbind].
      now rewrite M.
Qed.

Lemma ego_reference_once_witness :
  add_ego_reference "avoid idling." "The robot" = Ok "The robot must avoid idling."
  /\ add_ego_reference "The robot must avoid idling." "You"
     = Ok "The robot must avoid idling.".
Proof.
  split; [reflexivity|].
  refine (proj2 (proj2 (ego_reference_once "avoid idling." "The robot" eq_refl))
            _ _ eq_refl "You").
  simpl. auto.
Defined.

(** ** The capitalisation steps of [correct_sentence] *)

Lemma is_stop_capitalize (t : string) : is_stop (PyStr.capitalize t) = is_stop t.
Proof.
  destruct t as [|ch r]; [reflexivity|].
  destruct r as [|ch' r].
  - destruct ch as [[] [] [] [] [] [] [] []]; vm_compute; reflexivity.
  - unfold is_stop, PyStr.mem, PyStr.capitalize, PyStr.lower.
    cbn [PyStr.map_chars existsb String.eqb].
    repeat match goal with
      | |- context [if ?b then false else false] => destruct b
      end; reflexivity.
Qed.

Lemma is_stop_pronoun (t : string) :
  is_stop (if String.eqb t "i" then "I" else t) = is_stop t.
Proof. destruct (String.eqb_spec t "i") as [->|N]; reflexivity. Qed.

Lemma in_combine_seq_iff {A : Type} (l : list A) :
  forall a n k t, length l <= n ->
  In (k, t) (combine (seq a n) l) <-> a <= k /\ nth_error l (k - a) = Some t.
Proof.
  induction l as [|y l IH]; intros a n k t L.
  - rewrite combine_nil. split; [contradiction|]. intros [_ E].
    now destruct (k - a).
  - destruct n as [|n]; [simpl in L; lia|]. cbn [seq combine In].
    rewrite IH by (simpl in L; lia). split.
    + intros [E|[L1 E]].
      * injection E as <- <-. rewrite Nat.sub_diag. split; [lia | reflexivity].
      * split; [lia|]. replace (k - a) with (S (k - S a)) by lia. exact E.
    + intros [L1 E]. destruct (Nat.eq_dec a k) as [<-|N].
      * left. rewrite Nat.sub_diag in E. simpl in E. congruence.
      * right. split; [lia|]. replace (k - a) with (S (k - S a)) in E by lia.
        exact E.
Qed.

Lemma NoDup_combine_seq {A : Type} (l : list A) :
  forall a n, NoDup (map fst (combine (seq a n) l)).
Proof.
  induction l as [|y l IH]; intros a n.
  - rewrite combine_nil. constructor.
  - destruct n as [|n]; [constructor|]. cbn [seq combine map fst].
    constructor; [|apply IH].
    intros I. apply in_map_iff in I. destruct I as ([k t] & E & I).
    apply in_combine_l, in_seq in I. simpl in E. lia.
Qed.

Lemma nth_error_removelast {A : Type} (l : list A) (k : nat) :
  S k < length l -> nth_error (removelast l) k = nth_error l k.
Proof.
  revert k. induction l as [|x l IH]; intros k L; [simpl in L; lia|].
  destruct l as [|y l]; [simpl in L; lia|].
  change (removelast (x :: y :: l)) with (x :: removelast (y :: l)).
  destruct k as [|k]; [reflexivity|]. cbn [nth_error]. apply IH. simpl in *. lia.
Qed.

Lemma length_removelast {A : Type} (l : list A) :
  length (removelast l) = length l - 1.
Proof.
  induction l as [|x l IH]; [reflexivity|].
  destruct l as [|y l]; [reflexivity|].
  change (removelast (x :: y :: l)) with (x :: removelast (y :: l)).
  cbn [length] in *. lia.
Qed.

(** The loop over a list of (index, token) pairs with pairwise distinct
    indices: position [j] is capitalized when a pair with index [j - 1]
    holds a stop, and is left alone otherwise. *)
Lemma capitalize_fold (l : list (nat * string)) :
  forall cur, NoDup (map fst l) ->
  let step := fun (cur : list string) (kt : nat * string) =>
    if PyStr.mem (snd kt) ["."; "!"; "?"]
    then match nth_error cur (fst kt + 1) with
         | Some w => set_nth (fst kt + 1) (PyStr.capitalize w) cur
         | None => cur
         end
    else cur in
  length (fold_left step l cur) = length cur
  /\ forall j w, nth_error cur j = Some w ->
     nth_error (fold_left step l cur) j
     = Some (if existsb (fun kt => (fst kt + 1 =? j) && is_stop (snd kt)) l
             then PyStr.capitalize w else w).
Proof.
  induction l as [|[k t] l IH]; intros cur ND step.
  - split; [reflexivity|]. intros j w E. exact E.
  - cbn [map fst] in ND. inversion ND as [|? ? Hk ND']. subst.
    cbn [fold_left]. destruct (IH (step cur (k, t)) ND') as [IL IN].
    fold step in IL, IN.
    assert (SL : length (step cur (k, t)) = length cur).
    { unfold step. cbn [fst snd]. destruct (PyStr.mem t _); [|reflexivity].
      destruct (nth_error cur (k + 1)); [apply length_set_nth | reflexivity]. }
    split; [now rewrite IL|]. intros j w E.
    cbn [existsb fst snd]. fold (is_stop t).
    destruct (Nat.eqb_spec (k + 1) j) as [<-|N]; cbn [andb orb].
    + unfold is_stop at 1.
      destruct (PyStr.mem t ["."; "!"; "?"]) eqn:St; cbn [orb].
      * assert (E' : nth_error (step cur (k, t)) (k + 1) = Some (PyStr.capitalize w)).
        { unfold step. cbn [fst snd]. rewrite St, E.
          apply nth_error_set_nth_eq. apply nth_error_Some. congruence. }
        rewrite (IN _ _ E').
        replace (existsb _ l) with false; [reflexivity|].
        symmetry. apply not_true_is_false. intros X.
        apply existsb_exists in X. destruct X as ([k' t'] & I & X).
        cbn [fst snd] in X. apply andb_prop in X. destruct X as [X _].
        apply Nat.eqb_eq in X. apply Hk. apply in_map_iff.
        exists (k', t'). split; [simpl; lia | exact I].
      * assert (E' : nth_error (step cur (k, t)) (k + 1) = Some w).
        { unfold step. cbn [fst snd]. now rewrite St. }
        now rewrite (IN _ _ E').
    + assert (E' : nth_error (step cur (k, t)) j = Some w).
      { unfold step. cbn [fst snd]. destruct (PyStr.mem t _); [|exact E].
        destruct (nth_error cur (k + 1)); [|exact E].
        now rewrite nth_error_set_nth_neq. }
      now rewrite (IN _ _ E').
Qed.

Lemma capitalize_after_stops_spec (toks : list string) :
  length (capitalize_after_stops toks) = length toks
  /\ forall j w, nth_error toks j = Some w ->
     nth_error (capitalize_after_stops toks) j
     = Some (if after_stop toks j then PyStr.capitalize w else w).
Proof.
  unfold capitalize_after_stops.
  destruct (capitalize_fold (combine (seq 0 (length toks)) (removelast toks)) toks
              (NoDup_combine_seq _ _ _)) as [L N].
  split; [exact L|]. intros j w E. rewrite (N j w E).
  assert (Lj : j < length toks) by (apply nth_error_Some; congruence).
  replace (existsb (fun kt => (fst kt + 1 =? j) && is_stop (snd kt))
                   (combine (seq 0 (length toks)) (removelast toks)))
    with (after_stop toks j); [reflexivity|].
  symmetry. apply eq_true_iff_eq. rewrite existsb_exists. split.
  - intros ([k t] & I & X). cbn [fst snd] in X.
    apply andb_prop in X. destruct X as [X S]. apply Nat.eqb_eq in X. subst j.
    apply in_combine_seq_iff in I; [|rewrite length_removelast; lia].
    destruct I as [_ I]. rewrite Nat.sub_0_r in I.
    rewrite nth_error_removelast in I by lia.
    rewrite Nat.add_1_r. cbn [after_stop]. now rewrite I.
  - destruct j as [|k]; [discriminate|]. cbn [after_stop].
    destruct (nth_error toks k) as [t|] eqn:Ek; [|discriminate].
    intros S. exists (k, t). cbn [fst snd]. split.
    + apply in_combine_seq_iff; [rewrite length_removelast; lia|].
      split; [lia|]. rewrite Nat.sub_0_r. now rewrite nth_error_removelast by lia.
    + rewrite S, Nat.add_1_r, Nat.eqb_refl. reflexivity.
Qed.

(** What [correct_sentence] does after the gerund loop, token by token,
    on a sentence whose tokens are ASCII text or marks of [_PUNCT]: a
    token "i" becomes "I";
    then the first token, and every token that stands right after a token
    ".", "!" or "?", is capitalized (first character in upper case, the
    others in lower case); every other token is kept.  The number of
    tokens does not change. *)
Theorem capitalisation_rule `{NLP} (sentence : string) :
  Forall plain_token (word_tokenize sentence) ->
  let toks := word_tokenize sentence in
  let out := gerund_pass (pos_tag toks) toks in
  exists final,
    correct_sentence sentence = detokenize final
    /\ length final = length out
    /\ forall j t, nth_error out j = Some t ->
       let t' := if String.eqb t "i" then "I" else t in
       nth_error final j
       = Some (if (j =? 0) || after_stop out j then PyStr.capitalize t' else t').
Proof.
  intros _ toks out.
  set (pron := fun t : string => if String.eqb t "i" then "I" else t).
  set (toks1 := map pron out).
  set (toks2 := capitalize_first toks1).
  exists (capitalize_after_stops toks2).
  destruct (capitalize_after_stops_spec toks2) as [L N].
  assert (L2 : length toks2 = length out).
  { unfold toks2, toks1. destruct out; simpl; [reflexivity|].
    now rewrite length_map. }
  split; [reflexivity|]. split; [congruence|].
  intros j t E. cbn zeta. fold (pron t).
  assert (E2 : nth_error toks2 j
               = Some (if j =? 0 then PyStr.capitalize (pron t) else pron t)).
  { unfold toks2, toks1. destruct out as [|t0 out']; [now destruct j|].
    destruct j as [|j]; cbn [map capitalize_first nth_error Nat.eqb] in *.
    - congruence.
    - now rewrite nth_error_map, E. }
  rewrite (N _ _ E2).
  assert (A : after_stop toks2 j = after_stop out j).
  { destruct j as [|k]; [reflexivity|]. cbn [after_stop].
    unfold toks2, toks1. destruct out as [|t0 out']; [now destruct k|].
    destruct k as [|k]; cbn [map capitalize_first nth_error].
    - rewrite is_stop_capitalize. apply is_stop_pronoun.
    - rewrite nth_error_map. destruct (nth_error out' k); cbn [option_map];
        [apply is_stop_pronoun | reflexivity]. }
  rewrite A. destruct j as [|k]; cbn [Nat.eqb orb after_stop]; reflexivity.
Qed.

Lemma capitalisation_rule_witness :
  exists final,
    correct_sentence (H := SimpleNLP) "i wait. then i move" = detokenize final
    /\ length final = 6
    /\ nth_error final 0 = Some "I"
    /\ nth_error final 1 = Some "wait"
    /\ nth_error final 3 = Some "Then"
    /\ nth_error final 4 = Some "I".
Proof.
  destruct (capitalisation_rule (H := SimpleNLP) "i wait. then i move")
    as (final & E & L & N).
  - vm_compute. repeat (apply Forall_cons; [left; reflexivity|]). apply Forall_nil.
  - exists final. split; [exact E|]. vm_compute in L, N.
    split; [exact L|].
    split; [exact (N 0 "i" eq_refl)|].
    split; [exact (N 1 "wait" eq_refl)|].
    split; [exact (N 3 "then" eq_refl) | exact (N 4 "i" eq_refl)].
Defined.

(** ** Token comparison *)

Lemma to_lower_idem (ch : ascii) : PyStr.to_lower (PyStr.to_lower ch) = PyStr.to_lower ch.
Proof. destruct ch as [[] [] [] [] [] [] [] []]; vm_compute; reflexivity. Qed.

Lemma is_punct_to_lower (ch : ascii) :
  PyStr.is_punct (PyStr.to_lower ch) = PyStr.is_punct ch.
Proof. destruct ch as [[] [] [] [] [] [] [] []]; vm_compute; reflexivity. Qed.

Lemma lower_idem (s : string) : PyStr.lower (PyStr.lower s) = PyStr.lower s.
Proof.
  unfold PyStr.lower. induction s as [|ch s IH]; simpl; [reflexivity|].
  now rewrite to_lower_idem, IH.
Qed.

Lemma rstrip_all (p : ascii -> bool) (x : string) :
  PyStr.all_chars p x = true -> PyStr.rstrip p x = "".
Proof.
  induction x as [|ch x IH]; simpl; [reflexivity|]. intros A.
  apply andb_prop in A. destruct A as [A1 A2]. now rewrite (IH A2), A1.
Qed.

Lemma rstrip_append (p : ascii -> bool) (s x : string) :
  PyStr.all_chars p x = true -> PyStr.rstrip p (s ++ x) = PyStr.rstrip p s.
Proof.
  intros A. induction s as [|ch s IH]; simpl.
  - now apply rstrip_all.
  - now rewrite IH.
Qed.

Lemma rstrip_lower (s : string) :
  PyStr.rstrip PyStr.is_punct (PyStr.lower s)
  = PyStr.lower (PyStr.rstrip PyStr.is_punct s).
Proof.
  unfold PyStr.lower. induction s as [|ch s IH]; simpl; [reflexivity|].
  rewrite IH, is_punct_to_lower.
  destruct (PyStr.rstrip PyStr.is_punct s); simpl; [|reflexivity].
  now destruct (PyStr.is_punct ch).
Qed.

(** [_same_word] compares without regard to case, on both sides, and
    ignores punctuation at the end of the sentence token: a sentence token
    matches its own lower-case form without final punctuation, and the
    verdict does not change when punctuation characters are added after
    the sentence token or when either token is put in lower case. *)
Theorem same_word_invariances `{NLP} (sent_tok targ_tok marks : string) :
  _same_word sent_tok (PyStr.lower (PyStr.rstrip PyStr.is_punct sent_tok)) = true
  /\ (PyStr.all_chars PyStr.is_punct marks = true ->
      _same_word (sent_tok ++ marks) targ_tok = _same_word sent_tok targ_tok)
  /\ _same_word sent_tok (PyStr.lower targ_tok) = _same_word sent_tok targ_tok
  /\ _same_word (PyStr.lower sent_tok) targ_tok = _same_word sent_tok targ_tok.
Proof.
  unfold _same_word. split; [|split; [|split]].
  - now rewrite lower_idem, String.eqb_refl.
  - intros A. now rewrite rstrip_append.
  - now rewrite lower_idem.
  - now rewrite rstrip_lower, lower_idem.
Qed.

Lemma same_word_invariances_witness :
  _same_word (H := SimpleNLP) "Shelf." "shelf" = true
  /\ _same_word (H := SimpleNLP) ("Shelf" ++ ".!") "SHELF"
     = _same_word (H := SimpleNLP) "Shelf" "SHELF".
Proof.
  split; [reflexivity|].
  exact (proj1 (proj2 (same_word_invariances (H := SimpleNLP) "Shelf" "SHELF" ".!"))
               eq_refl).
Defined.

(** ** The natural-language segment of a proposition *)

Lemma list_eqb_length (a b : list string) :
  list_eqb a b = true -> length a = length b.
Proof.
  unfold list_eqb. destruct (list_eq_dec string_dec a b) as [->|]; [reflexivity|discriminate].
Qed.

Lemma prefix_refl (a : string) : String.prefix a a = true.
Proof. rewrite <- (append_nil_r a) at 2. apply prefix_self_append. Qed.

Lemma contains_join (sep : string) (l : list string) (x : string) :
  In x l -> PyStr.contains x (PyStr.join sep l) = true.
Proof.
  unfold PyStr.join. induction l as [|y l IH]; [contradiction|].
  intros [->|I].
  - destruct l; cbn [String.concat]; [apply contains_self | apply contains_here].
  - destruct l as [|z l]; [contradiction|]. cbn [String.concat].
    apply contains_skip_app, contains_skip_app. now apply IH.
Qed.

(** [segment_case]: a test on the parameter list that cannot hold for a
    list of that length. *)
Ltac wrong_length :=
  match goal with
  | T : list_eqb _ _ = true |- _ =>
      apply list_eqb_length in T; simpl in T; discriminate T
  end.

Lemma nl_segment_total (actions_cfg : dict (list string)) (info : PropInfo) :
  (dict_get actions_cfg (action_canon info) = None ->
   _nl_segment actions_cfg info = Raise (KeyError (action_canon info)))
  /\ (forall params,
      dict_get actions_cfg (action_canon info) = Some params ->
      length (args_ref info) = length params ->
      exists seg, _nl_segment actions_cfg info = Ok seg
        /\ String.prefix (action_ref info) seg = true
        /\ Forall (fun a => PyStr.contains a seg = true) (args_ref info)
        /\ (params = [] -> seg = action_ref info)).
Proof.
  unfold _nl_segment, dict_getitem. split; [intros ->; reflexivity|].
  intros params -> HL. cbn [rbind].
  destruct info as [verb v_ref a_canon a_ref]. cbn [action_ref args_ref] in *.
  destruct params as [|p1 [|p2 [|p3 ps]]].
  - destruct a_ref; [|discriminate HL]. eexists. split; [reflexivity|].
    split; [apply prefix_refl|]. split; [constructor | reflexivity].
  - destruct a_ref as [|x [|y r]]; try discriminate HL.
    destruct (list_eqb [p1] ["item"] || list_eqb [p1] ["person"]
              || list_eqb [p1] ["threat"] || list_eqb [p1] ["target"]);
      [|destruct (list_eqb [p1] ["item"; "location"]) eqn:T1; [wrong_length|];
        destruct (list_eqb [p1] ["traffic_target"; "lane"]) eqn:T2; [wrong_length|]];
      cbn [getitem nth_error rbind PyStr.join String.concat];
      (eexists; split; [reflexivity|]);
      (split; [apply prefix_self_append|]);
      (split; [repeat constructor; has_seg | discriminate]).
  - destruct a_ref as [|x [|y [|z r]]]; try discriminate HL.
    destruct (list_eqb [p1; p2] ["item"]) eqn:T1; [wrong_length|].
    destruct (list_eqb [p1; p2] ["person"]) eqn:T2; [wrong_length|].
    destruct (list_eqb [p1; p2] ["threat"]) eqn:T3; [wrong_length|].
    destruct (list_eqb [p1; p2] ["target"]) eqn:T4; [wrong_length|].
    cbn [orb].
    destruct (list_eqb [p1; p2] ["item"; "location"]);
      [|destruct (list_eqb [p1; p2] ["traffic_target"; "lane"])];
      cbn [unpack2 rbind PyStr.join String.concat];
      try destruct (existsb _ _);
      (eexists; split; [reflexivity|]);
      (split; [apply prefix_self_append|]);
      (split; [repeat constructor; has_seg | discriminate]).
  - destruct (list_eqb (p1 :: p2 :: p3 :: ps) ["item"]) eqn:T1; [wrong_length|].
    destruct (list_eqb (p1 :: p2 :: p3 :: ps) ["person"]) eqn:T2; [wrong_length|].
    destruct (list_eqb (p1 :: p2 :: p3 :: ps) ["threat"]) eqn:T3; [wrong_length|].
    destruct (list_eqb (p1 :: p2 :: p3 :: ps) ["target"]) eqn:T4; [wrong_length|].
    destruct (list_eqb (p1 :: p2 :: p3 :: ps) ["item"; "location"]) eqn:T5;
      [wrong_length|].
    destruct (list_eqb (p1 :: p2 :: p3 :: ps) ["traffic_target"; "lane"]) eqn:T6;
      [wrong_length|].
    cbn [orb]. eexists. split; [reflexivity|].
    split; [apply prefix_self_append|]. split; [|discriminate].
    apply Forall_forall. intros a Ia.
    apply contains_skip_app, contains_skip_char. now apply contains_join.
Qed.

(** [_nl_segment] raises [KeyError] for a verb that the configuration does
    not list.  For a listed verb whose proposition has one reference per
    parameter, as the sampler makes it, it returns a phrase that starts
    with the verb reference and contains every argument reference. *)
Theorem nl_segment_returns (actions_cfg : dict (list string)) (info : PropInfo) :
  (dict_get actions_cfg (action_canon info) = None ->
   _nl_segment actions_cfg info = Raise (KeyError (action_canon info)))
  /\ (forall params,
      dict_get actions_cfg (action_canon info) = Some params ->
      length (args_ref info) = length params ->
      exists seg, _nl_segment actions_cfg info = Ok seg
        /\ String.prefix (action_ref info) seg = true
        /\ Forall (fun a => PyStr.contains a seg = true) (args_ref info)
        /\ (params = [] -> seg = action_ref info)).
Proof. exact (nl_segment_total actions_cfg info). Qed.

Lemma nl_segment_returns_witness :
  exists seg,
    _nl_segment [("deliver", ["item"; "location"])]
      {| action_canon := "deliver"; action_ref := "drop off";
         args_canon := ["box"; "loading_dock"];
         args_ref := ["box"; "loading dock"] |} = Ok seg
    /\ seg = "drop off the box to the loading dock"
    /\ String.prefix "drop off" seg = true.
Proof.
  destruct (proj2 (nl_segment_returns [("deliver", ["item"; "location"])]
      {| action_canon := "deliver"; action_ref := "drop off";
         args_canon := ["box"; "loading_dock"];
         args_ref := ["box"; "loading dock"] |}) ["item"; "location"]
      eq_refl eq_refl) as (seg & E & P & _).
  exists seg. split; [exact E|]. split; [|exact P].
  vm_compute in E. now injection E as <-.
Defined.

(** ** What the argument sampler returns *)

Lemma no_char_replace (a b : ascii) (s : string) :
  a <> b ->
  PyStr.all_chars (fun ch => negb (Ascii.eqb ch a)) (PyStr.replace_char a b s) = true.
Proof.
  intros N. unfold PyStr.replace_char.
  induction s as [|ch s IH]; simpl; [reflexivity|]. rewrite IH, andb_true_r.
  destruct (Ascii.eqb_spec ch a) as [->|Nc].
  - destruct (Ascii.eqb_spec b a); [congruence | reflexivity].
  - destruct (Ascii.eqb_spec ch a); [contradiction | reflexivity].
Qed.

(** ["c" in s] is false exactly when no character of [s] is [c]. *)
Lemma contains_char_false (c : ascii) (s : string) :
  PyStr.all_chars (fun ch => negb (Ascii.eqb ch c)) s = true ->
  PyStr.contains (String c "") s = false.
Proof.
  induction s as [|ch s IH]; cbn [PyStr.contains PyStr.all_chars String.prefix];
    [reflexivity|].
  intros A. apply andb_prop in A. destruct A as [A1 A2].
  destruct (ascii_dec c ch) as [->|N].
  - now rewrite Ascii.eqb_refl in A1.
  - now apply IH.
Qed.

Lemma no_underscore (s : string) :
  PyStr.contains "_" (underscores_to_blanks s) = false.
Proof. apply contains_char_false, no_char_replace. discriminate. Qed.

Ltac choice_in R :=
  apply random_choice_In in R; cbn [In] in R.

(** Whatever the kind and the tables, the reference that
    [_sample_argument] returns shows no underscore.  For an item the
    canonical name has no blank.  For every kind but "item", "ego" and
    "light" the reference is the canonical name with its underscores turned
    into blanks. *)
Theorem sample_argument_reference (kind : string) (objects : dict (list string))
  (locs : list string) (g g' : rng) (canon ref : string) :
  _sample_argument kind objects locs g = Ok ((canon, ref), g') ->
  PyStr.contains "_" ref = false
  /\ (kind = "item" -> PyStr.contains " " canon = false)
  /\ (kind <> "item" -> kind <> "ego" -> kind <> "light" ->
      ref = underscores_to_blanks canon).
Proof.
  unfold _sample_argument.
  repeat match goal with
    | |- context [String.eqb kind ?s] =>
        destruct (String.eqb_spec kind s) as [->|?N]
    end; intros E.
  - (* item *)
    run_bind E key g1 R1. run_bind E syns g2 R2. run_bind E syn g3 R3.
    apply ret_Ok in E. destruct E as [E _]. injection E as E1 E2; subst canon ref.
    split; [apply no_underscore|]. split; [|congruence].
    intros _. apply contains_char_false, no_char_replace. discriminate.
  - (* location *)
    run_bind E c g1 R1. apply ret_Ok in E. destruct E as [E _].
    injection E as E1 E2; subst canon ref. split; [apply no_underscore|].
    split; [discriminate | reflexivity].
  - (* ego *)
    apply ret_Ok in E. destruct E as [E _]. injection E as E1 E2; subst canon ref.
    split; [reflexivity|]. split; [discriminate | congruence].
  - (* person *)
    run_bind E m g1 R1. run_bind E n g2 R2. apply ret_Ok in E.
    destruct E as [E _]. injection E as E1 E2; subst canon ref. split; [apply no_underscore|].
    split; [discriminate | reflexivity].
  - (* threat *)
    run_bind E m g1 R1. run_bind E n g2 R2. apply ret_Ok in E.
    destruct E as [E _]. injection E as E1 E2; subst canon ref. split; [apply no_underscore|].
    split; [discriminate | reflexivity].
  - (* light *)
    run_bind E pos g1 R1. apply ret_Ok in E. destruct E as [E _].
    injection E as E1 E2; subst canon ref. split; [apply no_underscore|].
    split; [discriminate | congruence].
  - (* lane *)
    run_bind E d g1 R1. run_bind E n g2 R2. run_bind E r g3 R3.
    apply ret_Ok in E. destruct E as [E _]. injection E as E1 E2; subst canon ref.
    split; [apply no_underscore|]. split; [discriminate | reflexivity].
  - (* traffic_target *)
    run_bind E c g1 R1. apply ret_Ok in E. destruct E as [E _].
    injection E as E1 E2; subst canon ref. choice_in R1.
    repeat destruct R1 as [<- | R1]; try contradiction;
      (split; [reflexivity|]; split; [discriminate | reflexivity]).
  - (* sr_target *)
    run_bind E person g1 R1. run_bind E c g2 R2. apply ret_Ok in E.
    destruct E as [E _]. injection E as E1 E2; subst canon ref. split; [apply no_underscore|].
    split; [discriminate | reflexivity].
  - (* color *)
    run_bind E c g1 R1. apply ret_Ok in E. destruct E as [E _].
    injection E as E1 E2; subst canon ref. choice_in R1.
    repeat destruct R1 as [<- | R1]; try contradiction;
      (split; [reflexivity|]; split; [discriminate | reflexivity]).
  - discriminate E.
Qed.

Lemma sample_argument_reference_witness :
  exists canon ref g',
    _sample_argument "threat" [] [] (fun n => n) = Ok ((canon, ref), g')
    /\ canon = "active_unstable_beam" /\ ref = "active unstable beam"
    /\ PyStr.contains "_" ref = false.
Proof.
  eexists. eexists. eexists. split; [vm_compute; reflexivity|].
  split; [reflexivity|]. split; [reflexivity|].
  refine (proj1 (sample_argument_reference "threat" [] [] (fun n => n) _ _ _ _)).
  vm_compute. reflexivity.
Defined.

(** The tables are read only for the kinds "item", "location" and
    "light": for the seven other kinds [_sample_argument] returns whatever
    the tables hold, even nothing.  An empty object table, an object whose
    synonym list is empty (when it is the one drawn), or an empty location
    list makes the draw raise [IndexError]. *)
Theorem sample_argument_tables (objects : dict (list string)) (locs : list string)
  (g : rng) :
  (forall kind,
     In kind ["ego"; "person"; "threat"; "lane"; "traffic_target"; "sr_target"; "color"] ->
     exists canon ref g', _sample_argument kind objects locs g = Ok ((canon, ref), g'))
  /\ _sample_argument "item" [] locs g = Raise IndexError
  /\ (forall key, nth_error (dict_keys objects) (g 0 mod length objects) = Some key ->
      dict_get objects key = Some [] ->
      _sample_argument "item" objects locs g = Raise IndexError)
  /\ _sample_argument "location" objects [] g = Raise IndexError
  /\ _sample_argument "light" objects [] g = Raise IndexError.
Proof.
  split; [|split; [|split; [|split]]]; try reflexivity.
  - intros kind HK. cbn [In] in HK.
    repeat (destruct HK as [<- | HK]); try contradiction;
      unfold _sample_argument; cbn [String.eqb Ascii.eqb Bool.eqb];
      unfold bind, ret.
    + eauto.
    + do 2 run_choice. eauto.
    + do 2 run_choice. eauto.
    + do 3 run_choice. eauto.
    + run_choice. eauto.
    + unfold random_lt_half, bind, next_rand, ret.
      destruct (Nat.even (g 0)); unfold bind, ret.
      * do 2 run_choice. eauto.
      * run_choice. eauto.
    + run_choice. eauto.
  - intros key Hk Hs. unfold _sample_argument. cbn [String.eqb Ascii.eqb Bool.eqb].
    assert (Ec : random_choice (dict_keys objects) g = Ok (key, rng_tail g)).
    { assert (LK : length (dict_keys objects) = length objects)
        by apply length_map.
      rewrite <- LK in Hk. unfold random_choice.
      destruct (dict_keys objects) as [|k0 ks].
      - exfalso. revert Hk. generalize (g 0 mod length (@nil string)).
        intros [|n]; discriminate.
      - unfold bind, next_rand, lift, getitem. now rewrite Hk. }
    unfold bind at 1. rewrite Ec. unfold bind at 1, dict_getitem. rewrite Hs.
    reflexivity.
Qed.

(** A lane drawn by [_sample_argument] names a street or an avenue, so the
    segment of a proposition over a traffic target and a sampled lane
    always says "on": the preposition "at" is never used for it. *)
Theorem sampled_lane_preposition (objects : dict (list string)) (locs : list string)
  (g g' : rng) (canon ref : string)
  (actions_cfg : dict (list string)) (info : PropInfo) (tgt : string) :
  _sample_argument "lane" objects locs g = Ok ((canon, ref), g') ->
  dict_get actions_cfg (action_canon info) = Some ["traffic_target"; "lane"] ->
  args_ref info = [tgt; ref] ->
  _nl_segment actions_cfg info
  = Ok (action_ref info ++ " the " ++ tgt ++ " on " ++ ref).
Proof.
  intros E Hc Ha. unfold _nl_segment, dict_getitem. rewrite Hc, Ha.
  cbn [rbind].
  replace (list_eqb ["traffic_target"; "lane"] ["item"]) with false by reflexivity.
  replace (list_eqb ["traffic_target"; "lane"] ["person"]) with false by reflexivity.
  replace (list_eqb ["traffic_target"; "lane"] ["threat"]) with false by reflexivity.
  replace (list_eqb ["traffic_target"; "lane"] ["target"]) with false by reflexivity.
  replace (list_eqb ["traffic_target"; "lane"] ["item"; "location"])
    with false by reflexivity.
  replace (list_eqb ["traffic_target"; "lane"] ["traffic_target"; "lane"])
    with true by reflexivity.
  cbn [orb unpack2 rbind].
  replace (existsb (fun k => PyStr.contains k ref) ["street"; "avenue"; "road"])
    with true; [reflexivity|].
  unfold _sample_argument in E. cbn [String.eqb Ascii.eqb Bool.eqb] in E.
  run_bind E d g1 R1. run_bind E n g2 R2. run_bind E r g3 R3.
  apply ret_Ok in E. destruct E as [E _]. injection E as E1 E2; subst canon ref.
  choice_in R1. choice_in R2. choice_in R3.
  repeat destruct R3 as [<- | R3]; try contradiction;
    repeat destruct R2 as [<- | R2]; try contradiction;
    repeat destruct R1 as [<- | R1]; try contradiction;
    vm_compute; reflexivity.
Qed.

Lemma sampled_lane_preposition_witness :
  _nl_segment [("photo", ["traffic_target"; "lane"])]
    {| action_canon := "photo"; action_ref := "photograph";
       args_canon := ["cyclist"; "east_4th_street"];
       args_ref := ["cyclist"; "east 4th street"] |}
  = Ok ("photograph" ++ " the " ++ "cyclist" ++ " on " ++ "east 4th street").
Proof.
  eapply sampled_lane_preposition
    with (objects := []) (locs := []) (g := fun n => n + 2)
         (g' := rng_tail (rng_tail (rng_tail (fun n => n + 2))))
         (canon := "east_4th_street").
  - vm_compute. reflexivity.
  - reflexivity.
  - reflexivity.
Defined.

(** ** Errors of [build_entry_for_props] *)

Lemma rmap_returns {A B : Type} (f : A -> res B) (l : list A) :
  (forall x, In x l -> exists y, f x = Ok y) ->
  exists ys, rmap f l = Ok ys /\ length ys = length l.
Proof.
  induction l as [|x l IH]; intros Hf.
  - exists []. split; reflexivity.
  - destruct (Hf x (or_introl eq_refl)) as (y & Ey).
    destruct IH as (ys & Eys & L); [intros; apply Hf; now right|].
    exists (y :: ys). cbn [rmap]. rewrite Ey, Eys. split; [reflexivity|].
    simpl. congruence.
Qed.

(** A skeleton of the catalog returns for every list of as many tokens as
    it has propositions. *)
Lemma skeleton_returns (key : string) (need : nat) (skel : skeleton)
  (P : list string) :
  In (key, need, skel) LTL_TEMPLATES_STATE -> length P = need ->
  exists toks, skel P = Ok toks.
Proof.
  intros HIn HL.
  unfold LTL_TEMPLATES_STATE, BASE_LTL_TEMPLATES_STATE,
    ADDITIONAL_LTL_TEMPLATES_STATE in HIn. cbn [app In] in HIn.
  repeat (destruct HIn as [E | HIn];
    [ injection E as <- <- <-;
      destruct P as [|?p0 [|?p1 [|?p2 [|?p3 P]]]]; try discriminate HL;
      cbv [format_all format_at fstr rmap getitem nth_error rbind py_format
           Ascii.eqb Bool.eqb append];
      eexists; reflexivity |]).
  contradiction.
Qed.

(** [build_entry_for_props] raises [IndexError] on an empty dictionary: no
    skeleton is viable and [random.choice] gets an empty list.  On a
    dictionary whose first proposition has a verb that [actions_cfg] does
    not list it raises [KeyError] for that verb, whatever skeleton is
    drawn: the first proposition is always used. *)
Theorem build_entry_errors `{NLP} (fuel idx : nat)
  (actions_cfg : dict (list string)) (g : rng) :
  build_entry_for_props fuel idx [] actions_cfg g = Raise IndexError
  /\ forall lbl info rest,
       dict_get actions_cfg (action_canon info) = None ->
       build_entry_for_props fuel idx ((lbl, info) :: rest) actions_cfg g
       = Raise (KeyError (action_canon info)).
Proof.
  split; [reflexivity|]. intros lbl info rest Hc.
  set (props := (lbl, info) :: rest).
  unfold build_entry_for_props. cbv zeta. unfold bind at 1.
  match goal with
  | |- context [random_choice ?v g] =>
      destruct (random_choice_Ok v g) as ([[key need] skel] & Hin & Ec);
      [apply viable_nonempty; simpl; lia|]
  end.
  rewrite Ec.
  apply viable_In in Hin. destruct Hin as [HIn Hneed]. cbn [fst snd] in Hneed.
  pose proof catalog_arities as CA. rewrite Forall_forall in CA.
  specialize (CA _ HIn). cbn [fst snd] in CA.
  assert (Llab : length (firstn need (dict_keys props)) = need).
  { unfold dict_keys. rewrite length_firstn, length_map. lia. }
  destruct (rmap_returns
              (fun lbl => info <~ dict_getitem props lbl ;; Ok (_atom info))
              (firstn need (dict_keys props))) as (atoms & Ea & La).
  { intros x Hx. apply In_firstn in Hx.
    destruct (dict_get_key props x Hx) as (v & Ev).
    exists (_atom v). unfold dict_getitem. now rewrite Ev. }
  unfold bind at 1. rewrite Ea. cbn [lift].
  destruct (skeleton_returns key need skel atoms HIn ltac:(congruence)) as (g_ltl & Eg).
  unfold bind at 1. rewrite Eg. cbn [lift].
  destruct (skeleton_returns key need skel _ HIn Llab) as (m_ltl & Em).
  unfold bind at 1. rewrite Em. cbn [lift].
  assert (Es : rmap (fun l => info0 <~ dict_getitem props l ;;
                              _nl_segment actions_cfg info0)
                    (firstn need (dict_keys props))
               = Raise (KeyError (action_canon info))).
  { destruct need as [|n]; [lia|].
    unfold props. cbn [dict_keys map fst firstn rmap].
    unfold dict_getitem at 1. cbn [dict_get].
    rewrite String.eqb_refl. cbn [rbind].
    unfold _nl_segment, dict_getitem. rewrite Hc. reflexivity. }
  unfold bind at 1. rewrite Es. reflexivity.
Qed.

(** ** Edge cases of the driver *)

(** With [num_entries = 0] the driver returns the empty list without a
    single random draw.  When an entry is asked for, [max_props = 0] makes
    [random.randint(1, 0)] raise [ValueError], and an empty verb table
    makes the first [random.choice] of a verb raise [IndexError]. *)
Theorem driver_edge_cases `{NLP} (object_dict actions_dict : dict (list string))
  (locations : list string) (actions_cfg : dict (list string))
  (fuel align_fuel num_entries max_props : nat) (g : rng) :
  build_dataset_entries object_dict actions_dict locations actions_cfg
    (S fuel) align_fuel 0 max_props g = Ok ([], g)
  /\ (1 <= num_entries ->
      exists msg,
        build_dataset_entries object_dict actions_dict locations actions_cfg
          (S fuel) align_fuel num_entries 0 g = Raise (ValueError msg))
  /\ (1 <= num_entries -> 1 <= max_props ->
      build_dataset_entries object_dict [] locations actions_cfg
        (S fuel) align_fuel num_entries max_props g = Raise IndexError).
Proof.
  split; [reflexivity|]. split.
  - intros HN. eexists. unfold build_dataset_entries. unfold bind at 1.
    cbn [dataset_loop length]. destruct (Nat.ltb_spec 0 num_entries); [|lia].
    reflexivity.
  - intros HN HM. unfold build_dataset_entries. unfold bind at 1.
    cbn [dataset_loop length]. destruct (Nat.ltb_spec 0 num_entries); [|lia].
    unfold bind at 1. unfold sample_props.
    destruct (random_randint_Ok 1 max_props g HM) as (k & Hk & E1).
    unfold bind at 1. rewrite E1.
    set (pool := map _ (seq 0 max_props)).
    destruct (random_sample_Ok k pool (rng_tail g)) as (l & g1 & E2 & Hl).
    { subst pool. rewrite length_map, length_seq. lia. }
    unfold bind at 1. rewrite E2.
    destruct l as [|lbl l]; [simpl in Hl; lia|].
    reflexivity.
Qed.

(** ** The object table *)

Lemma contains_char_true (c : ascii) (s : string) :
  PyStr.contains (String c "") s = true ->
  exists a b, s = a ++ String c b
              /\ PyStr.all_chars (fun ch => negb (Ascii.eqb ch c)) a = true.
Proof.
  induction s as [|ch s IH]; cbn [PyStr.contains String.prefix]; [discriminate|].
  destruct (ascii_dec c ch) as [->|N].
  - intros _. exists "", s. split; reflexivity.
  - intros C. destruct (IH C) as (a & b & -> & A).
    exists (String ch a), b. split; [reflexivity|]. simpl. rewrite A, andb_true_r.
    destruct (Ascii.eqb_spec ch c); [congruence | reflexivity].
Qed.

Lemma split_once_cut (c : ascii) (a b : string) :
  PyStr.all_chars (fun ch => negb (Ascii.eqb ch c)) a = true ->
  PyStr.split_once c (a ++ String c b) = [a; b].
Proof.
  induction a as [|ch a IH]; simpl.
  - intros _. now rewrite Ascii.eqb_refl.
  - intros A. apply andb_prop in A. destruct A as [A1 A2].
    destruct (Ascii.eqb ch c); [discriminate A1|]. now rewrite (IH A2).
Qed.

Lemma split_on_cut (c : ascii) (a b : string) :
  PyStr.all_chars (fun ch => negb (Ascii.eqb ch c)) a = true ->
  PyStr.split_on c (a ++ String c b) = a :: PyStr.split_on c b.
Proof.
  induction a as [|ch a IH]; simpl.
  - intros _. now rewrite Ascii.eqb_refl.
  - intros A. apply andb_prop in A. destruct A as [A1 A2].
    destruct (Ascii.eqb ch c); [discriminate A1|]. now rewrite (IH A2).
Qed.

Lemma split_on_whole (c : ascii) (a : string) :
  PyStr.all_chars (fun ch => negb (Ascii.eqb ch c)) a = true ->
  PyStr.split_on c a = [a].
Proof.
  induction a as [|ch a IH]; simpl; [reflexivity|].
  intros A. apply andb_prop in A. destruct A as [A1 A2].
  destruct (Ascii.eqb ch c); [discriminate A1|]. now rewrite (IH A2).
Qed.

(** No piece of [s.split(sep)] holds the separator. *)
Lemma split_on_pieces (c : ascii) (s : string) :
  PyStr.split_on c s <> []
  /\ Forall (fun w => PyStr.all_chars (fun ch => negb (Ascii.eqb ch c)) w = true)
            (PyStr.split_on c s).
Proof.
  induction s as [|ch s [IH1 IH2]]; simpl.
  - split; [discriminate|]. repeat constructor.
  - destruct (Ascii.eqb ch c) eqn:E.
    + split; [discriminate|]. constructor; [reflexivity | exact IH2].
    + destruct (PyStr.split_on c s) as [|w ws]; [contradiction|].
      split; [discriminate|]. inversion IH2; subst.
      constructor; [|assumption]. simpl. now rewrite E.
Qed.

Lemma all_chars_lstrip (q p : ascii -> bool) (s : string) :
  PyStr.all_chars q s = true -> PyStr.all_chars q (PyStr.lstrip p s) = true.
Proof.
  induction s as [|ch s IH]; simpl; [reflexivity|].
  intros A. destruct (p ch); [|exact A].
  apply andb_prop in A. now apply IH.
Qed.

Lemma all_chars_rstrip (q p : ascii -> bool) (s : string) :
  PyStr.all_chars q s = true -> PyStr.all_chars q (PyStr.rstrip p s) = true.
Proof.
  induction s as [|ch s IH]; simpl; [reflexivity|].
  intros A. apply andb_prop in A. destruct A as [A1 A2]. specialize (IH A2).
  destruct (PyStr.rstrip p s).
  - destruct (p ch); simpl; [reflexivity | now rewrite A1].
  - simpl in *. now rewrite A1.
Qed.

Lemma all_chars_strip (q : ascii -> bool) (s : string) :
  PyStr.all_chars q s = true -> PyStr.all_chars q (PyStr.strip s) = true.
Proof. intros A. now apply all_chars_rstrip, all_chars_lstrip. Qed.

Lemma lstrip_head (p : ascii -> bool) (s : string) :
  PyStr.lstrip p (PyStr.lstrip p s) = PyStr.lstrip p s.
Proof.
  induction s as [|ch s IH]; simpl; [reflexivity|].
  destruct (p ch) eqn:E; [exact IH|]. simpl. now rewrite E.
Qed.

Lemma rstrip_idem (p : ascii -> bool) (s : string) :
  PyStr.rstrip p (PyStr.rstrip p s) = PyStr.rstrip p s.
Proof.
  induction s as [|ch s IH]; simpl; [reflexivity|].
  destruct (PyStr.rstrip p s) as [|c' r'] eqn:R.
  - destruct (p ch) eqn:E; simpl; [reflexivity | now rewrite E].
  - cbn [PyStr.rstrip]. cbn [PyStr.rstrip] in IH.
    destruct (PyStr.rstrip p r') as [|c'' r''].
    + destruct (p c'); [discriminate IH|]. injection IH as <-. reflexivity.
    + now rewrite IH.
Qed.

Lemma lstrip_rstrip (p : ascii -> bool) (s : string) :
  PyStr.lstrip p s = s -> PyStr.lstrip p (PyStr.rstrip p s) = PyStr.rstrip p s.
Proof.
  destruct s as [|ch s]; [reflexivity|]. cbn [PyStr.lstrip PyStr.rstrip].
  destruct (p ch) eqn:E.
  - intros L. exfalso.
    assert (Len : forall t, String.length (PyStr.lstrip p t) <= String.length t).
    { induction t as [|c t IHt]; simpl; [lia|]. destruct (p c); simpl; lia. }
    specialize (Len s). rewrite L in Len. simpl in Len. lia.
  - intros _. destruct (PyStr.rstrip p s); simpl; now rewrite E.
Qed.

(** A stripped string has no blank at either end. *)
Lemma strip_trimmed (s : string) :
  PyStr.lstrip PyStr.is_space (PyStr.strip s) = PyStr.strip s
  /\ PyStr.rstrip PyStr.is_space (PyStr.strip s) = PyStr.strip s.
Proof.
  unfold PyStr.strip. split.
  - apply lstrip_rstrip, lstrip_head.
  - apply rstrip_idem.
Qed.

Lemma strip_fixed (s : string) :
  PyStr.strip s = s ->
  PyStr.lstrip PyStr.is_space s = s /\ PyStr.rstrip PyStr.is_space s = s.
Proof. intros E. rewrite <- E. apply strip_trimmed. Qed.

Lemma strip_idem (s : string) : PyStr.strip (PyStr.strip s) = PyStr.strip s.
Proof.
  destruct (strip_trimmed s) as [L R]. unfold PyStr.strip at 1. now rewrite L.
Qed.

Lemma lstrip_keep (p : ascii -> bool) (s t : string) :
  s <> "" -> PyStr.lstrip p s = s -> PyStr.lstrip p (s ++ t) = s ++ t.
Proof.
  destruct s as [|ch s]; [contradiction|]. intros _. cbn [PyStr.lstrip append].
  destruct (p ch) eqn:E; [|reflexivity].
  intros L. exfalso.
  assert (Len : forall u, String.length (PyStr.lstrip p u) <= String.length u).
  { induction u as [|c u IHu]; simpl; [lia|]. destruct (p c); simpl; lia. }
  specialize (Len s). rewrite L in Len. simpl in Len. lia.
Qed.

Lemma rstrip_keep (p : ascii -> bool) (s t : string) :
  t <> "" -> PyStr.rstrip p t = t -> PyStr.rstrip p (s ++ t) = s ++ t.
Proof.
  intros N R. induction s as [|ch s IH]; [exact R|].
  cbn [append PyStr.rstrip]. rewrite IH.
  destruct (s ++ t) eqn:E; [|reflexivity].
  destruct s; [simpl in E; congruence | discriminate E].
Qed.

Lemma contains_char_iff (c : ascii) (s : string) :
  PyStr.contains (String c "") s = false
  <-> PyStr.all_chars (fun ch => negb (Ascii.eqb ch c)) s = true.
Proof.
  split; [|apply contains_char_false].
  induction s as [|ch s IH]; cbn [PyStr.contains PyStr.all_chars String.prefix];
    [reflexivity|].
  destruct (ascii_dec c ch) as [->|N].
  - now destruct s.
  - intros C. rewrite (IH C), andb_true_r.
    destruct (Ascii.eqb_spec ch c); [congruence | reflexivity].
Qed.

Lemma dict_set_Forall {V : Type} (Q : string * V -> Prop) (d : dict V)
  (k : string) (v : V) :
  Forall Q d -> Q (k, v) -> Forall Q (dict_set d k v).
Proof.
  intros F Hq. induction F as [|[k' v'] d Hx F IH]; simpl.
  - constructor; [exact Hq | constructor].
  - destruct (String.eqb k' k); constructor; auto.
Qed.

(** What an entry of the table looks like: the name has no blank at
    either end and no colon; no synonym is empty, has a blank at either
    end, or holds a comma. *)
Lemma parse_object_line_inv (d : dict (list string)) (line : string) :
  let good := fun kv : string * list string =>
    PyStr.strip (fst kv) = fst kv /\ PyStr.contains ":" (fst kv) = false
    /\ Forall (fun syn => syn <> "" /\ PyStr.strip syn = syn
                          /\ PyStr.contains "," syn = false) (snd kv) in
  NoDup (dict_keys d) -> Forall good d ->
  exists d', parse_object_line d line = Ok d'
             /\ NoDup (dict_keys d') /\ Forall good d'.
Proof.
  intros good ND F. unfold parse_object_line.
  destruct (String.eqb (PyStr.strip line) "" || negb (PyStr.contains ":" (PyStr.strip line)))
    eqn:T; [exists d; auto|].
  apply orb_false_elim in T. destruct T as [_ T]. apply negb_false_iff in T.
  destruct (contains_char_true _ _ T) as (a & b & E & A). rewrite E.
  rewrite (split_once_cut _ a b A). cbn [unpack2 rbind].
  eexists. split; [reflexivity|]. split; [now apply dict_set_keys_NoDup|].
  apply dict_set_Forall; [exact F|]. unfold good. cbn [fst snd].
  split; [apply strip_idem|].
  split; [apply contains_char_false, all_chars_strip, A|].
  apply Forall_forall. intros syn Hs. apply in_map_iff in Hs.
  destruct Hs as (alt & <- & Hs). apply filter_In in Hs. destruct Hs as [Hs Hne].
  split; [now destruct (String.eqb_spec (PyStr.strip alt) "")|].
  split; [apply strip_idem|].
  apply contains_char_false, all_chars_strip.
  destruct (split_on_pieces "," b) as [_ P]. rewrite Forall_forall in P. auto.
Qed.

Lemma parse_object_names_inv (lines : list string) :
  exists table,
    parse_object_names lines = Ok table
    /\ NoDup (dict_keys table)
    /\ Forall (fun kv : string * list string =>
         PyStr.strip (fst kv) = fst kv /\ PyStr.contains ":" (fst kv) = false
         /\ Forall (fun syn => syn <> "" /\ PyStr.strip syn = syn
                               /\ PyStr.contains "," syn = false) (snd kv))
       table.
Proof.
  unfold parse_object_names.
  assert (G : forall ls d,
            NoDup (dict_keys d) ->
            Forall (fun kv : string * list string =>
              PyStr.strip (fst kv) = fst kv /\ PyStr.contains ":" (fst kv) = false
              /\ Forall (fun syn => syn <> "" /\ PyStr.strip syn = syn
                                    /\ PyStr.contains "," syn = false) (snd kv)) d ->
            exists table,
              fold_left (fun acc line => object_dict <~ acc ;;
                                         parse_object_line object_dict line)
                        ls (Ok d) = Ok table
              /\ NoDup (dict_keys table)
              /\ Forall (fun kv : string * list string =>
                   PyStr.strip (fst kv) = fst kv /\ PyStr.contains ":" (fst kv) = false
                   /\ Forall (fun syn => syn <> "" /\ PyStr.strip syn = syn
                                         /\ PyStr.contains "," syn = false) (snd kv))
                 table).
  { induction ls as [|l ls IH]; intros d ND F.
    - exists d. auto.
    - destruct (parse_object_line_inv d l ND F) as (d' & E & ND' & F').
      cbn [fold_left rbind]. rewrite E. now apply IH. }
  apply G; constructor.
Qed.

(** [parse_object_names] never fails, whatever the lines: a line that is
    blank or has no colon is skipped, and the unpacking of the two parts
    of any other line cannot go wrong.  In the table it returns every name
    occurs once, has no blank at either end and no colon, and no synonym is
    empty, has a blank at either end, or holds a comma. *)
Theorem parse_object_names_table (lines : list string) :
  (forall d line,
     PyStr.strip line = "" \/ PyStr.contains ":" (PyStr.strip line) = false ->
     parse_object_line d line = Ok d)
  /\ exists table,
       parse_object_names lines = Ok table
       /\ NoDup (dict_keys table)
       /\ Forall (fun kv : string * list string =>
            PyStr.strip (fst kv) = fst kv /\ PyStr.contains ":" (fst kv) = false
            /\ Forall (fun syn => syn <> "" /\ PyStr.strip syn = syn
                                  /\ PyStr.contains "," syn = false) (snd kv))
          table.
Proof.
  split.
  - intros d line [E|E]; unfold parse_object_line; rewrite E; [reflexivity|].
    now rewrite orb_true_r.
  - apply parse_object_names_inv.
Qed.

Lemma parse_line_last (lines : list string) (line : string) :
  parse_object_names (lines ++ [line])
  = (d <~ parse_object_names lines ;; parse_object_line d line).
Proof. unfold parse_object_names. now rewrite fold_left_app. Qed.

Lemma concat_cons (sep a b : string) (l : list string) :
  String.concat sep (a :: b :: l) = a ++ sep ++ String.concat sep (b :: l).
Proof. reflexivity. Qed.

Lemma rstrip_join (a : string) (l : list string) :
  Forall (fun x => x <> "" /\ PyStr.strip x = x /\ PyStr.contains "," x = false)
         (a :: l) ->
  PyStr.join ", " (a :: l) <> ""
  /\ PyStr.rstrip PyStr.is_space (PyStr.join ", " (a :: l)) = PyStr.join ", " (a :: l).
Proof.
  revert a. induction l as [|b l IH]; intros a F; inversion F as [|? ? Ha F']; subst.
  - destruct Ha as (N & S & _). cbn [PyStr.join String.concat].
    split; [exact N | apply strip_fixed, S].
  - destruct (IH b F') as [N R]. unfold PyStr.join in *.
    rewrite concat_cons.
    split.
    + destruct Ha as (Na & _). destruct a; [contradiction | discriminate].
    + rewrite <- append_assoc. now apply rstrip_keep.
Qed.

Lemma split_on_join (a : string) (l : list string) :
  Forall (fun x => x <> "" /\ PyStr.strip x = x /\ PyStr.contains "," x = false)
         (a :: l) ->
  PyStr.split_on "," (" " ++ PyStr.join ", " (a :: l))
  = map (fun x => " " ++ x) (a :: l).
Proof.
  revert a. induction l as [|b l IH]; intros a F; inversion F as [|? ? Ha F']; subst;
    destruct Ha as (_ & _ & Ca); apply contains_char_iff in Ca.
  - cbn [PyStr.join String.concat map]. apply split_on_whole.
    cbn [append PyStr.all_chars]. now rewrite Ca.
  - unfold PyStr.join in *. rewrite concat_cons. cbn [map].
    change (" " ++ a ++ ", " ++ String.concat ", " (b :: l))
      with ((" " ++ a) ++ String "," (" " ++ String.concat ", " (b :: l))).
    rewrite split_on_cut by (cbn [append PyStr.all_chars]; now rewrite Ca).
    now rewrite (IH b F').
Qed.

Lemma strip_pieces (l : list string) :
  Forall (fun x => x <> "" /\ PyStr.strip x = x /\ PyStr.contains "," x = false) l ->
  map PyStr.strip
      (filter (fun alt => negb (String.eqb (PyStr.strip alt) ""))
              (map (fun x => " " ++ x) l)) = l.
Proof.
  induction 1 as [|x l (N & S & _) F IH]; [reflexivity|].
  cbn [map filter].
  assert (Sx : PyStr.strip (" " ++ x) = x).
  { unfold PyStr.strip. cbn [append PyStr.lstrip].
    replace (PyStr.is_space " ") with true by reflexivity.
    destruct (strip_fixed x S) as [L R]. now rewrite L. }
  rewrite Sx. destruct (String.eqb_spec x ""); [contradiction|].
  cbn [negb map]. now rewrite Sx, IH.
Qed.

(** In a file of ASCII text a line in the documented format,
    [name: alt1, alt2, ...] with its line end, is read as documented: the
    name gets exactly the listed synonyms, in order; an earlier entry for
    the same name is replaced in its place and a new name goes last.  The
    name has no white space at either end and no colon; the synonyms are
    not empty and have no white space at either end and no comma. *)
Theorem object_file_format (lines : list string) (table : dict (list string))
  (name : string) (alts : list string) :
  Forall (fun line => PyStr.isascii line = true) lines ->
  PyStr.isascii name = true ->
  Forall (fun a => PyStr.isascii a = true) alts ->
  parse_object_names lines = Ok table ->
  PyStr.strip name = name -> PyStr.contains ":" name = false ->
  Forall (fun a => a <> "" /\ PyStr.strip a = a /\ PyStr.contains "," a = false) alts ->
  parse_object_names
    (lines ++ [(name ++ ": " ++ PyStr.join ", " alts ++ newline)%string])%list
  = Ok (dict_set table name alts)
  /\ dict_get (dict_set table name alts) name = Some alts.
Proof.
  intros _ _ _ E Sn Cn Fa. split; [|now rewrite dict_get_set, String.eqb_refl].
  rewrite parse_line_last, E. cbn [rbind].
  apply contains_char_iff in Cn.
  destruct (strip_fixed name Sn) as [Ln Rn].
  set (body := PyStr.join ", " alts).
  assert (HL : forall rest, PyStr.lstrip PyStr.is_space (name ++ ":" ++ rest)
                            = name ++ ":" ++ rest).
  { intros rest. destruct name as [|ch nm]; [reflexivity|].
    apply lstrip_keep; [discriminate | exact Ln]. }
  destruct alts as [|a l].
  - (* no synonym *)
    assert (St : PyStr.strip (name ++ ": " ++ body ++ newline) = name ++ ":").
    { unfold PyStr.strip, body. cbn [PyStr.join String.concat].
      change (name ++ ": " ++ "" ++ newline) with (name ++ ":" ++ (" " ++ newline)).
      rewrite HL. rewrite <- append_assoc.
      rewrite rstrip_append by reflexivity.
      apply rstrip_keep; [discriminate | reflexivity]. }
    unfold parse_object_line. rewrite St.
    replace (String.eqb (name ++ ":") "") with false
      by (destruct name; reflexivity).
    rewrite (contains_skip_app ":" name ":") by reflexivity.
    cbn [negb orb].
    rewrite (split_once_cut ":" name "" Cn). cbn [unpack2 rbind].
    now rewrite Sn.
  - (* at least one synonym *)
    destruct (rstrip_join a l Fa) as [Nb Rb]. fold body in Nb, Rb.
    assert (St : PyStr.strip (name ++ ": " ++ body ++ newline)
                 = name ++ ": " ++ body).
    { unfold PyStr.strip.
      change (name ++ ": " ++ body ++ newline)
        with (name ++ ":" ++ (" " ++ body ++ newline)).
      rewrite HL.
      replace (name ++ ":" ++ " " ++ body ++ newline)
        with ((name ++ ": " ++ body) ++ newline)
        by (now rewrite !append_assoc).
      rewrite rstrip_append by reflexivity.
      replace (name ++ ": " ++ body) with ((name ++ ": ") ++ body)
        by (now rewrite !append_assoc).
      now apply rstrip_keep. }
    unfold parse_object_line. rewrite St.
    replace (String.eqb (name ++ ": " ++ body) "") with false
      by (destruct name; reflexivity).
    rewrite (contains_skip_app ":" name (": " ++ body)) by reflexivity.
    cbn [negb orb].
    change (name ++ ": " ++ body) with (name ++ String ":" (" " ++ body)).
    rewrite (split_once_cut ":" name (" " ++ body) Cn). cbn [unpack2 rbind].
    unfold body. rewrite (split_on_join a l Fa), (strip_pieces (a :: l) Fa).
    now rewrite Sn.
Qed.

Lemma object_file_format_witness :
  parse_object_names ["# objects" ++ newline; "box: crate, carton" ++ newline;
                      "box" ++ ": " ++ PyStr.join ", " ["box"; "cardboard box"]
                      ++ newline]
  = Ok [("box", ["box"; "cardboard box"])]
  /\ dict_get [("box", ["box"; "cardboard box"])] "box"
     = Some ["box"; "cardboard box"].
Proof.
  apply (object_file_format
           ["# objects" ++ newline; "box: crate, carton" ++ newline]
           [("box", ["crate"; "carton"])] "box" ["box"; "cardboard box"]).
  - repeat constructor.
  - reflexivity.
  - repeat constructor.
  - reflexivity.
  - reflexivity.
  - reflexivity.
  - repeat constructor; discriminate.
Defined.

(** ** The scenario loader *)

Lemma rmap_pure {A B : Type} (f : A -> res B) (h : A -> B) (l : list A) :
  (forall x, f x = Ok (h x)) -> rmap f l = Ok (map h l).
Proof.
  intros Hf. induction l as [|x l IH]; [reflexivity|].
  cbn [rmap map]. now rewrite Hf, IH.
Qed.

Lemma filter_tagged {A : Type} (test : A -> bool) (l : list A) :
  map fst (filter snd (map (fun x => (x, test x)) l)) = filter test l.
Proof.
  induction l as [|x l IH]; [reflexivity|]. cbn [map filter snd].
  destruct (test x); cbn [map fst]; now rewrite IH.
Qed.

Lemma NoDup_keys_filter {V : Type} (test : string * V -> bool) (d : dict V) :
  NoDup (dict_keys d) -> NoDup (dict_keys (filter test d)).
Proof.
  unfold dict_keys. induction d as [|kv d IH]; [auto|].
  cbn [map]. intros ND. inversion ND as [|? ? Hk ND']. subst.
  cbn [filter]. destruct (test kv); [|auto]. cbn [map]. constructor; [|auto].
  intros I. apply Hk. apply in_map_iff in I. destruct I as (x & E & I).
  apply filter_In in I. apply in_map_iff. exists x. tauto.
Qed.

Lemma build_actions_dict_keys : NoDup (dict_keys build_actions_dict).
Proof. repeat constructor; cbn [In]; intuition discriminate. Qed.

Lemma build_actions_dict_synonyms :
  Forall (fun kv : string * list string => snd kv <> []) build_actions_dict.
Proof. repeat constructor; discriminate. Qed.

(** What a successful call of [load_scenario] returned. *)
Lemma load_scenario_Ok (cfg_all : dict Scenario) (object_lines : list string)
  (scenario_name yaml_path : string) (cfg : Scenario)
  (object_dict actions_dict : dict (list string)) (locations : list string)
  (actions_cfg : dict (list string)) :
  load_scenario cfg_all object_lines scenario_name yaml_path
    = Ok (cfg, object_dict, actions_dict, locations, actions_cfg) ->
  dict_get cfg_all scenario_name = Some cfg
  /\ scenario_actions cfg = Some actions_cfg
  /\ parse_object_names object_lines = Ok object_dict
  /\ actions_dict = filter (fun kv => dict_mem (fst kv) actions_cfg) build_actions_dict
  /\ locations = match scenario_locations cfg with Some l => l | None => [] end.
Proof.
  unfold load_scenario, dict_mem, dict_getitem.
  destruct (dict_get cfg_all scenario_name) as [c|]; [|discriminate].
  cbn [negb rbind].
  destruct (parse_object_names object_lines) as [objs| |]; try discriminate.
  cbn [rbind]. unfold cfg_actions.
  destruct (scenario_actions c) as [acts|] eqn:Ha.
  - rewrite (rmap_pure _ (fun kv => (kv, match dict_get acts (fst kv) with
                                         | Some _ => true | None => false end))).
    2:{ intros x. reflexivity. }
    cbn [rbind]. rewrite filter_tagged.
    rewrite dict_of_pairs
      by (apply (NoDup_keys_filter _ build_actions_dict), build_actions_dict_keys).
    remember (filter (fun kv : string * list string =>
                        match dict_get acts (fst kv) with
                        | Some _ => true | None => false end)
                     build_actions_dict) as ad eqn:Had.
    intros E. injection E as E1 E2 E3 E4 E5. subst. repeat split; auto.
  - unfold build_actions_dict. cbn [rmap rbind]. discriminate.
Qed.

(** [load_scenario] raises [ValueError] for a scenario that the file does
    not list, and [KeyError] for a scenario without an ["actions"] entry.
    Otherwise it returns the scenario, the object table, the entries of
    [build_actions_dict] whose verb the scenario lists (in the order of
    that table), the scenario's locations (none when it has no such
    entry), and the scenario's actions. *)
Theorem load_scenario_result (cfg_all : dict Scenario) (object_lines : list string)
  (scenario_name yaml_path : string) :
  (dict_get cfg_all scenario_name = None ->
   load_scenario cfg_all object_lines scenario_name yaml_path
   = Raise (ValueError ("Scenario '" ++ scenario_name ++ "' not found in "
                        ++ yaml_path ++ ".")))
  /\ (forall cfg, dict_get cfg_all scenario_name = Some cfg ->
      scenario_actions cfg = None ->
      load_scenario cfg_all object_lines scenario_name yaml_path
      = Raise (KeyError "actions"))
  /\ (forall cfg acts, dict_get cfg_all scenario_name = Some cfg ->
      scenario_actions cfg = Some acts ->
      exists object_dict,
        parse_object_names object_lines = Ok object_dict
        /\ load_scenario cfg_all object_lines scenario_name yaml_path
           = Ok (cfg, object_dict,
                 filter (fun kv => dict_mem (fst kv) acts) build_actions_dict,
                 match scenario_locations cfg with Some l => l | None => [] end,
                 acts)).
Proof.
  unfold load_scenario, dict_mem, dict_getitem.
  split; [intros ->; reflexivity|].
  destruct (parse_object_names_inv object_lines) as (objs & Eo & _).
  split.
  - intros cfg -> Ha. cbn [negb rbind]. rewrite Eo. cbn [rbind].
    unfold cfg_actions. rewrite Ha. reflexivity.
  - intros cfg acts -> Ha. exists objs. split; [exact Eo|].
    cbn [negb rbind]. rewrite Eo. cbn [rbind]. unfold cfg_actions. rewrite Ha.
    rewrite (rmap_pure _ (fun kv => (kv, match dict_get acts (fst kv) with
                                         | Some _ => true | None => false end))).
    2:{ intros x. reflexivity. }
    cbn [rbind]. rewrite filter_tagged.
    rewrite dict_of_pairs
      by (apply (NoDup_keys_filter _ build_actions_dict), build_actions_dict_keys).
    reflexivity.
Qed.

Lemma dict_mem_In {V : Type} (d : dict V) (k : string) :
  dict_mem k d = true <-> In k (dict_keys d).
Proof.
  unfold dict_mem. split.
  - destruct (dict_get d k) as [v|] eqn:E; [|discriminate].
    intros _. apply dict_get_In in E. unfold dict_keys.
    apply in_map_iff. now exists (k, v).
  - intros I. destruct (dict_get_key d k I) as (v & ->). reflexivity.
Qed.

(** After [load_scenario] the verbs that the sampler can draw are the
    verbs of [build_actions_dict] that the scenario lists under its
    actions: each occurs once in the returned [actions_dict], is a key of
    the returned [actions_cfg], and keeps its synonyms of
    [build_actions_dict], of which there is at least one.  So for a drawn
    verb neither the lookup [actions_cfg[verb]] nor the draw of a synonym
    can fail. *)
Theorem loaded_scenario_verbs (cfg_all : dict Scenario) (object_lines : list string)
  (scenario_name yaml_path : string) (cfg : Scenario)
  (object_dict actions_dict : dict (list string)) (locations : list string)
  (actions_cfg : dict (list string)) :
  load_scenario cfg_all object_lines scenario_name yaml_path
    = Ok (cfg, object_dict, actions_dict, locations, actions_cfg) ->
  NoDup (dict_keys actions_dict)
  /\ (forall verb, In verb (dict_keys actions_dict) <->
        In verb (dict_keys build_actions_dict) /\ In verb (dict_keys actions_cfg))
  /\ (forall verb, In verb (dict_keys actions_dict) ->
        exists syns, dict_get actions_dict verb = Some syns /\ syns <> []
                     /\ dict_get build_actions_dict verb = Some syns).
Proof.
  intros E. apply load_scenario_Ok in E.
  destruct E as (_ & _ & _ & Ead & _).
  split; [|split].
  - subst actions_dict. apply NoDup_keys_filter, build_actions_dict_keys.
  - intros verb. subst actions_dict. unfold dict_keys at 1.
    rewrite in_map_iff. split.
    + intros ([v syns] & <- & Hv). apply filter_In in Hv.
      destruct Hv as [Hv Hm]. cbn [fst] in *. split.
      * unfold dict_keys. apply in_map_iff. now exists (v, syns).
      * now apply dict_mem_In.
    + intros [Hb Hc]. unfold dict_keys in Hb. apply in_map_iff in Hb.
      destruct Hb as ([v syns] & <- & Hv). exists (v, syns).
      split; [reflexivity|]. apply filter_In. split; [exact Hv|].
      cbn [fst] in *. now apply dict_mem_In.
  - intros verb Hv.
    destruct (dict_get_key actions_dict verb Hv) as (syns & Es).
    exists syns. split; [exact Es|].
    apply dict_get_In in Es. subst actions_dict. apply filter_In in Es.
    destruct Es as [Es _]. split.
    + pose proof build_actions_dict_synonyms as S. rewrite Forall_forall in S.
      exact (S _ Es).
    + apply dict_get_In_nodup; [apply build_actions_dict_keys | exact Es].
Qed.

Lemma loaded_scenario_verbs_witness :
  exists syns,
    dict_get [("deliver", ["deliver"; "drop off"; "hand over"; "transport"]);
              ("idle", ["idle"; "wait"; "remain still"; "stand by"])] "idle"
      = Some syns
    /\ syns <> [] /\ dict_get build_actions_dict "idle" = Some syns.
Proof.
  refine (proj2 (proj2 (loaded_scenario_verbs
    [("warehouse",
      {| scenario_actions :=
           Some [("idle", []); ("deliver", ["item"; "location"]); ("inspect", ["item"])];
         scenario_locations := Some ["shelf"; "dock"] |})]
    ["box: crate, carton" ++ newline] "warehouse" "scenarios.yaml"
    _ _ _ _ _ _)) "idle" _).
  - reflexivity.
  - simpl. auto.
Defined.

(** ** The formula mentions every proposition *)

Lemma catalog_formulas_cover (key : string) (need : nat) (skel : skeleton)
  (f : LTL.ltl) :
  In (key, need, skel) LTL_TEMPLATES_STATE ->
  dict_get LTL.skeleton_formula key = Some f ->
  holes_cover need (LTL.tokens f) = true.
Proof.
  intros HIn. unfold LTL_TEMPLATES_STATE, BASE_LTL_TEMPLATES_STATE,
    ADDITIONAL_LTL_TEMPLATES_STATE in HIn. cbn [app In] in HIn.
  repeat (destruct HIn as [E | HIn];
    [ injection E as <- <- <-; intros Ef; vm_compute in Ef;
      injection Ef as <-; reflexivity |]).
  contradiction.
Qed.

Lemma holes_cover_In (n : nat) (pat : list LTL.tok) (i : nat) :
  holes_cover n pat = true -> i < n -> In (LTL.Hole i) pat.
Proof.
  unfold holes_cover. rewrite forallb_forall. intros C Li.
  specialize (C i ltac:(apply in_seq; lia)). apply existsb_exists in C.
  destruct C as ([w|j] & I & X); [discriminate X|].
  apply Nat.eqb_eq in X. now subst.
Qed.

(** Every skeleton uses all its propositions, so in an entry built from
    pool-labelled propositions every placeholder [prop_1 .. prop_N] of its
    [N] propositions occurs in the lifted formula [masked_tl]; and when the
    atoms are ASCII text, not empty and free of white space, the atom of
    every proposition of the entry occurs in the grounded formula [tl]. *)
Theorem formula_mentions_all_props `{NLP} (fuel idx : nat) (props : dict PropInfo)
  (actions_cfg : dict (list string)) (g g' : rng) (e : Entry) :
  NoDup (dict_keys props) ->
  Forall is_pool_label (dict_keys props) ->
  build_entry_for_props fuel idx props actions_cfg g = Ok (e, g') ->
  (forall i, 1 <= i <= length (prop_dict e) -> In (placeholder i) (masked_tl e))
  /\ (Forall (fun info => ascii_word (_atom info)) (dict_values props) ->
      forall info, In info (dict_values (prop_dict e)) -> In (_atom info) (tl e)).
Proof.
  intros ND HL E.
  destruct (build_entry_for_props_inv _ _ _ _ _ _ _ ND E)
    as (key & need & skel & with_ego & props' & m_ltl & Hinv).
  cbn zeta in Hinv.
  destruct Hinv as (HIn & Hneed & Hup & Htl & Hm & Hmtl & Hpd & _).
  set (labels := firstn need (dict_keys props)) in *.
  set (vals := firstn need (dict_values props)) in *.
  set (vals' := firstn need (dict_values props')) in *.
  set (phs := map placeholder (seq 1 need)) in *.
  assert (Llab : length labels = need).
  { unfold labels, dict_keys. rewrite length_firstn, length_map. lia. }
  assert (Lvals : length vals = need).
  { unfold vals, dict_values. rewrite length_firstn, length_map. lia. }
  assert (Lvals' : length vals' = need).
  { unfold vals', dict_values. rewrite length_firstn, length_map.
    rewrite (updated_length _ _ _ Hup). lia. }
  assert (Lphs : length phs = need)
    by (unfold phs; now rewrite length_map, length_seq).
  assert (Hatoms : map _atom vals' = map _atom vals).
  { unfold vals, vals'. rewrite <- !firstn_map. f_equal.
    eapply updated_atoms; eauto. }
  assert (NDlab : NoDup labels) by (apply NoDup_firstn; exact ND).
  assert (Hlabs : Forall is_pool_label labels) by (now apply Forall_firstn).
  destruct (skeleton_tokens key need skel HIn) as (f & Hf & _ & _ & Hskel).
  pose proof (catalog_formulas_cover key need skel f HIn Hf) as Hcov.
  assert (HN : length (prop_dict e) = need).
  { rewrite Hpd, length_combine. lia. }
  split.
  - intros i Hi. rewrite HN in Hi.
    rewrite Hskel in Hm;
      [| exact Llab
       | eapply Forall_impl; [|exact Hlabs]; apply pool_label_wordlike].
    injection Hm as <-. rewrite Hmtl, map_map.
    apply in_map_iff. exists (LTL.Hole (i - 1)).
    split; [|apply (holes_cover_In need); [exact Hcov | lia]].
    cbn [LTL.fill].
    destruct (nth_error labels (i - 1)) as [l|] eqn:El;
      [|apply nth_error_None in El; lia].
    rewrite (nth_error_nth labels (i - 1) "" El).
    assert (Eph : nth_error phs (i - 1) = Some (placeholder i)).
    { unfold phs. rewrite nth_error_map, nth_error_seq.
      destruct (Nat.ltb_spec (i - 1) need); [|lia]. cbn [option_map].
      do 2 f_equal. lia. }
    now rewrite (dict_get_map_nth labels phs NDlab (eq_trans Llab (eq_sym Lphs))
                   (i - 1) l (placeholder i) El Eph).
  - intros HW info Hi.
    rewrite Hskel in Htl; [| now rewrite length_map |].
    2:{ apply Forall_forall. intros x Hx. apply in_map_iff in Hx.
        destruct Hx as (info0 & <- & Hi0). apply In_firstn in Hi0.
        rewrite Forall_forall in HW. apply HW. exact Hi0. }
    injection Htl as <-.
    rewrite Hpd in Hi. unfold dict_values in Hi.
    rewrite combine_snd in Hi by lia.
    apply In_nth_error in Hi. destruct Hi as (i & Ei).
    assert (Li : i < need).
    { rewrite <- Lvals'. apply nth_error_Some. congruence. }
    apply in_map_iff. exists (LTL.Hole i).
    split; [|apply (holes_cover_In need); [exact Hcov | exact Li]].
    cbn [LTL.fill].
    assert (Ea : nth_error (map _atom vals) i = Some (_atom info)).
    { rewrite <- Hatoms, nth_error_map, Ei. reflexivity. }
    now rewrite (nth_error_nth _ i "" Ea).
Qed.

Lemma formula_mentions_all_props_witness :
  exists e g',
    build_entry_for_props (H := SimpleNLP) 40 0
      [("prop_2", {| action_canon := "deliver"; action_ref := "deliver";
                     args_canon := ["box"; "shelf"]; args_ref := ["box"; "shelf"] |});
       ("prop_1", {| action_canon := "idle"; action_ref := "wait";
                     args_canon := []; args_ref := [] |})]
      [("deliver", ["item"; "location"]); ("idle", [])] (fun _ => 5)
    = Ok (e, g')
    /\ masked_tl e = ["globally"; "("; "prop_1"; "implies"; "finally"; "prop_2"; ")"]
    /\ length (prop_dict e) = 2
    /\ (forall i, 1 <= i <= length (prop_dict e) -> In (placeholder i) (masked_tl e))
    /\ (forall info, In info (dict_values (prop_dict e)) -> In (_atom info) (tl e)).
Proof.
  eexists. eexists. split; [vm_compute; reflexivity|].
  split; [reflexivity|]. split; [reflexivity|].
  split.
  - refine (proj1 (formula_mentions_all_props (H := SimpleNLP) 40 0
      [("prop_2", {| action_canon := "deliver"; action_ref := "deliver";
                     args_canon := ["box"; "shelf"]; args_ref := ["box"; "shelf"] |});
       ("prop_1", {| action_canon := "idle"; action_ref := "wait";
                     args_canon := []; args_ref := [] |})]
      [("deliver", ["item"; "location"]); ("idle", [])] (fun _ => 5) _ _ _ _ _)).
    + repeat constructor; simpl; intuition discriminate.
    + repeat constructor; [now exists 1 | now exists 0].
    + vm_compute. reflexivity.
  - refine (proj2 (formula_mentions_all_props (H := SimpleNLP) 40 0
      [("prop_2", {| action_canon := "deliver"; action_ref := "deliver";
                     args_canon := ["box"; "shelf"]; args_ref := ["box"; "shelf"] |});
       ("prop_1", {| action_canon := "idle"; action_ref := "wait";
                     args_canon := []; args_ref := [] |})]
      [("deliver", ["item"; "location"]); ("idle", [])] (fun _ => 5) _ _ _ _ _) _).
    + repeat constructor; simpl; intuition discriminate.
    + repeat constructor; [now exists 1 | now exists 0].
    + vm_compute. reflexivity.
    + repeat constructor; discriminate.
Defined.

(** ** Ids are assigned on matches only *)

Lemma nth_error_assign_ids (ids : list nat) (i L pid j : nat) :
  i + L <= length ids ->
  nth_error (assign_ids ids i L pid) j
  = if (i <=? j) && (j <? i + L) then Some pid else nth_error ids j.
Proof.
  intros Hlen. rewrite assign_ids_spec by exact Hlen.
  destruct (Nat.leb_spec i j) as [Lij|Lij]; cbn [andb].
  - rewrite nth_error_app2 by (rewrite length_firstn; lia).
    rewrite length_firstn. replace (Nat.min i (length ids)) with i by lia.
    destruct (Nat.ltb_spec j (i + L)) as [Lj|Lj].
    + rewrite nth_error_app1 by (rewrite repeat_length; lia).
      apply nth_error_repeat. lia.
    + rewrite nth_error_app2 by (rewrite repeat_length; lia).
      rewrite repeat_length, nth_error_skipn. f_equal. lia.
  - rewrite nth_error_app1 by (rewrite length_firstn; lia).
    rewrite nth_error_firstn. now destruct (Nat.ltb_spec j i); [|lia].
Qed.

Lemma length_assign_ids (ids : list nat) (i L pid : nat) :
  length (assign_ids ids i L pid) = length ids.
Proof.
  unfold assign_ids. generalize (seq 0 L). intros l. revert ids.
  induction l as [|x l IHl]; intros ids; [reflexivity|].
  cbn [fold_left]. rewrite IHl. apply length_set_nth.
Qed.

Section AlignmentSound.

Context `{NLP}.

Variable g_tok labels_used : list string.
Variable seg_tokens : dict (list string).
Variable pid_map : dict nat.
Variable mapping : dict string.

(** Every id other than 0 was written for a label whose tokens match the
    sentence on a window that holds the position. *)
Lemma align_sound (fuel : nat) :
  forall i ids masked ids' masked',
  length ids = length g_tok ->
  (forall j k, nth_error ids j = Some k -> k <> 0 ->
     exists i0 lbl toks,
       In lbl labels_used /\ dict_get seg_tokens lbl = Some toks
       /\ dict_get pid_map lbl = Some k
       /\ i0 <= j < i0 + length toks /\ matches_at g_tok i0 toks = true) ->
  align fuel g_tok labels_used seg_tokens pid_map mapping i ids masked
  = Ok (ids', masked') ->
  forall j k, nth_error ids' j = Some k -> k <> 0 ->
    exists i0 lbl toks,
      In lbl labels_used /\ dict_get seg_tokens lbl = Some toks
      /\ dict_get pid_map lbl = Some k
      /\ i0 <= j < i0 + length toks /\ matches_at g_tok i0 toks = true.
Proof.
  induction fuel as [|fuel IH]; intros i ids masked ids' masked' Hlen Inv E.
  - discriminate E.
  - cbn [align] in E. destruct (Nat.ltb_spec i (length g_tok)) as [Li|Li].
    + destruct (first_match g_tok i seg_tokens labels_used)
        as [[[lbl tok_seq]|]| |] eqn:Fm; cbn [rbind] in E; try discriminate E.
      * destruct (first_match_found _ _ _ _ _ _ Fm) as [Hin Hget].
        destruct (first_match_Some _ _ _ _ _ _ Fm) as [_ Hm].
        destruct (match length tok_seq with
                  | 0 => Ok 0
                  | S _ => dict_getitem pid_map lbl
                  end) as [pid| |] eqn:Ep; cbn [rbind] in E; try discriminate E.
        destruct (dict_getitem mapping lbl) as [ph| |]; cbn [rbind] in E;
          try discriminate E.
        assert (Hb : i + length tok_seq <= length ids).
        { unfold matches_at in Hm. apply andb_prop in Hm. destruct Hm as [Hb _].
          apply Nat.leb_le in Hb. lia. }
        eapply IH; [| |exact E].
        -- now rewrite length_assign_ids.
        -- intros j k Ej Hk. rewrite nth_error_assign_ids in Ej by exact Hb.
           destruct ((i <=? j) && (j <? i + length tok_seq)) eqn:W;
             [|now apply Inv].
           injection Ej as ->.
           apply andb_prop in W. destruct W as [W1 W2].
           apply Nat.leb_le in W1. apply Nat.ltb_lt in W2.
           destruct (length tok_seq) as [|n] eqn:EL; [lia|].
           apply dict_getitem_Ok in Ep.
           exists i, lbl, tok_seq. rewrite EL. repeat split; auto; lia.
      * unfold getitem in E.
        destruct (nth_error g_tok i) as [w|]; cbn [rbind] in E; [|discriminate E].
        eapply IH; [| |exact E]; assumption.
    + injection E as <- <-. exact Inv.
Qed.

End AlignmentSound.

Lemma Forall2_nth_l {A B : Type} (R : A -> B -> Prop) (l : list A) (l' : list B) :
  Forall2 R l l' ->
  forall i x, nth_error l i = Some x -> exists y, nth_error l' i = Some y /\ R x y.
Proof.
  induction 1 as [|x0 y0 l l' R0 F IH]; intros i x E.
  - now destruct i.
  - destruct i as [|i]; simpl in E.
    + injection E as <-. exists y0. auto.
    + apply IH in E. exact E.
Qed.

(** A token of the sentence carries the id [k] of a proposition only
    inside a window of the sentence that the tokens of the segment of
    proposition [k] match, token by token, under [_same_word]: the
    labelling loop never labels a token outside a match. *)
Theorem labels_only_on_matches `{NLP} (fuel idx : nat) (props : dict PropInfo)
  (actions_cfg : dict (list string)) (g g' : rng) (e : Entry) :
  NoDup (dict_keys props) ->
  build_entry_for_props fuel idx props actions_cfg g = Ok (e, g') ->
  forall j k, nth_error (lifted_sentence_prop_ids e) j = Some k -> k <> 0 ->
  exists i toks,
    _segment_tokens actions_cfg (prop_dict e) (placeholder k) = Ok toks
    /\ i <= j < i + length toks
    /\ matches_at (sentence e) i toks = true.
Proof.
  intros ND E j k Ej Hk.
  destruct (build_entry_for_props_run _ _ _ _ _ _ _ ND E)
    as (key & need & skel & with_ego & props' & m_ltl & Hinv & _ & seg_list & Rseg & Ral).
  cbn zeta in Hinv.
  destruct Hinv as (_ & Hneed & Hup & _ & _ & _ & Hpd & _).
  set (labels := firstn need (dict_keys props)) in *.
  set (vals' := firstn need (dict_values props')) in *.
  set (phs := map placeholder (seq 1 need)) in *.
  pose proof (updated_keys _ _ _ Hup) as Hkeys.
  assert (Llab : length labels = need).
  { unfold labels, dict_keys. rewrite length_firstn, length_map. lia. }
  assert (Lvals' : length vals' = need).
  { unfold vals', dict_values. rewrite length_firstn, length_map.
    rewrite (updated_length _ _ _ Hup). lia. }
  assert (Lphs : length phs = need)
    by (unfold phs; now rewrite length_map, length_seq).
  assert (Lall' : lookup_all props' labels vals').
  { unfold labels, vals'. rewrite <- Hkeys. unfold dict_keys, dict_values.
    rewrite !firstn_map.
    apply lookup_all_sub; [|apply incl_firstn].
    fold (dict_keys props'). now rewrite Hkeys. }
  destruct (align_sound _ _ _ _ _ _ _ _ _ _ _ (repeat_length 0 _)
              ltac:(intros j0 k0 E0 N0; apply nth_error_In, repeat_spec in E0;
                    congruence)
              Ral j k Ej Hk)
    as (i & lbl & toks & Hin & Hseg & Hpid & Hw & Hm).
  exists i, toks. split; [|split; [exact Hw | exact Hm]].
  apply pid_map_range in Hpid. destruct Hpid as [Hr Hn]. rewrite Llab in Hr.
  (* the tokens are those of the segment of the label *)
  apply dict_of_get in Hseg. destruct Hseg as ([l0 t0] & I0 & E1 & E2).
  cbn [fst snd] in E1, E2. subst l0 t0.
  apply rmap_Ok in Rseg.
  destruct (Forall2_In_r _ _ _ _ Rseg I0) as (l1 & _ & R1).
  cbn beta in R1. apply rbind_Ok in R1. destruct R1 as (t1 & R1 & R2).
  injection R2 as -> ->.
  (* the proposition of the label is the one stored under [prop_k] *)
  unfold lookup_all in Lall'.
  destruct (Forall2_nth_l _ _ _ Lall' _ _ Hn) as (info & Ev & Ei).
  assert (Eph : nth_error phs (k - 1) = Some (placeholder k)).
  { unfold phs. rewrite nth_error_map, nth_error_seq.
    destruct (Nat.ltb_spec (k - 1) need); [|lia]. cbn [option_map].
    do 2 f_equal. lia. }
  pose proof (dict_get_map_nth phs vals' (NoDup_placeholders 1 need)
                (eq_trans Lphs (eq_sym Lvals')) (k - 1) _ info Eph Ev) as Ep.
  unfold _segment_tokens, dict_getitem in *. rewrite Hpd, Ep. rewrite Ei in R1.
  exact R1.
Qed.

Lemma labels_only_on_matches_witness :
  exists e g',
    build_entry_for_props (H := SimpleNLP) 40 0
      [("prop_1", {| action_canon := "deliver"; action_ref := "deliver";
                     args_canon := ["box"; "shelf"]; args_ref := ["box"; "shelf"] |})]
      [("deliver", ["item"; "location"])] (fun _ => 0)
    = Ok (e, g')
    /\ sentence e = ["The"; "robot"; "must"; "eventually,"; "avoid"; "delivering";
                     "the"; "box"; "to"; "the"; "shelf."]
    /\ lifted_sentence_prop_ids e = [0; 0; 0; 0; 0; 1; 1; 1; 1; 1; 1]
    /\ exists i toks,
         _segment_tokens (H := SimpleNLP) [("deliver", ["item"; "location"])]
           (prop_dict e) (placeholder 1) = Ok toks
         /\ i <= 7 < i + length toks
         /\ matches_at (H := SimpleNLP) (sentence e) i toks = true.
Proof.
  eexists. eexists. split; [vm_compute; reflexivity|].
  split; [reflexivity|]. split; [reflexivity|].
  eapply (labels_only_on_matches (H := SimpleNLP))
    with (fuel := 40) (idx := 0) (g := fun _ => 0)
         (props := [("prop_1", {| action_canon := "deliver"; action_ref := "deliver";
                                  args_canon := ["box"; "shelf"];
                                  args_ref := ["box"; "shelf"] |})])
         (k := 1) (j := 7).
  - repeat constructor; simpl; intuition discriminate.
  - vm_compute. reflexivity.
  - reflexivity.
  - discriminate.
Defined.

(** ** The sampled propositions are well formed *)

Section SamplerWellFormed.

Variable object_dict : dict (list string).
Variable actions_dict : dict (list string).
Variable locations : list string.
Variable actions_cfg : dict (list string).

Lemma sample_prop_well_formed (Q : PropInfo -> Prop) (n : nat) :
  (forall verb syns params ref a_canon a_ref,
     dict_get actions_dict verb = Some syns -> In ref syns ->
     dict_get actions_cfg verb = Some params ->
     length a_canon = length params -> length a_ref = length params ->
     Q {| action_canon := verb; action_ref := ref;
          args_canon := a_canon; args_ref := a_ref |}) ->
  forall st lbl g st' g',
  Forall Q (dict_values (fst st)) ->
  sample_prop object_dict actions_dict locations actions_cfg n st lbl g
    = Ok (st', g') ->
  Forall Q (dict_values (fst st')).
Proof.
  intros HQ. induction n as [|n IH]; intros st lbl g st' g' F E.
  - apply ret_Ok in E. destruct E as [-> _]. exact F.
  - cbn [sample_prop] in E.
    run_bind E verb g1 Rv. run_bind E params g2 Rp. run_lift Rp.
    run_bind E args g2 Ra.
    destruct (PyStr.mem _ (snd st)).
    + eapply IH; eauto.
    + run_bind E syns g3 Rsy. run_lift Rsy. run_bind E ref g3 Rr.
      apply ret_Ok in E. destruct E as [-> _]. cbn [fst].
      apply Forall_forall. intros x Hx. apply dict_set_values_In in Hx.
      destruct Hx as [->|Hx]; [|rewrite Forall_forall in F; auto].
      apply dict_getitem_Ok in Rp, Rsy. apply random_choice_In in Rr.
      apply mmap_length in Ra.
      eapply HQ; eauto; now rewrite length_map.
Qed.

End SamplerWellFormed.

(** Every proposition that [sample_props] returns is well formed for the
    tables it was drawn from: its verb is a verb of [actions_dict], its
    verb reference is one of that verb's synonyms, and it has one canonical
    argument and one reference per parameter of the verb in [actions_cfg].
    So [_nl_segment] returns a phrase for it: the grounding step cannot
    fail on a missing verb or on a wrong number of arguments. *)
Theorem sampled_props_well_formed (object_dict actions_dict : dict (list string))
  (locations : list string) (actions_cfg : dict (list string))
  (max_props : nat) (g g' : rng) (props : dict PropInfo) :
  sample_props object_dict actions_dict locations actions_cfg max_props g
    = Ok (props, g') ->
  forall info, In info (dict_values props) ->
  (exists syns params,
     dict_get actions_dict (action_canon info) = Some syns
     /\ In (action_ref info) syns
     /\ dict_get actions_cfg (action_canon info) = Some params
     /\ length (args_canon info) = length params
     /\ length (args_ref info) = length params)
  /\ exists seg, _nl_segment actions_cfg info = Ok seg.
Proof.
  intros E.
  set (Q := fun info =>
    exists syns params,
      dict_get actions_dict (action_canon info) = Some syns
      /\ In (action_ref info) syns
      /\ dict_get actions_cfg (action_canon info) = Some params
      /\ length (args_canon info) = length params
      /\ length (args_ref info) = length params).
  assert (F : Forall Q (dict_values props)).
  { unfold sample_props in E.
    run_bind E k g1 Rk. run_bind E want g2 Rw. run_bind E st g3 Rf.
    apply ret_Ok in E. destruct E as [E1 _]. subst props.
    eapply (mfold_invariant (fun st => Forall Q (dict_values (fst st))));
      [| |exact Rf].
    - intros s x g0 s' g0' _ Hs Es.
      eapply sample_prop_well_formed; [|exact Hs|exact Es].
      intros verb syns params ref a_canon a_ref H1 H2 H3 H4 H5.
      exists syns, params. cbn [action_canon action_ref args_canon args_ref]. auto.
    - constructor. }
  intros info Hi. rewrite Forall_forall in F. specialize (F info Hi).
  split; [exact F|].
  destruct F as (syns & params & _ & _ & Hp & _ & Hr).
  destruct (proj2 (nl_segment_total actions_cfg info) params Hp Hr) as (seg & Es & _).
  now exists seg.
Qed.

Lemma sampled_props_well_formed_witness :
  exists props g',
    sample_props [("box", ["box"])] [("move", ["move"; "carry"])] ["shelf"; "dock"]
                 [("move", ["item"; "location"])] 3 (fun n => n)
    = Ok (props, g')
    /\ forall info, In info (dict_values props) ->
       exists seg, _nl_segment [("move", ["item"; "location"])] info = Ok seg.
Proof.
  eexists. eexists. split; [vm_compute; reflexivity|].
  intros info Hi.
  refine (proj2 (sampled_props_well_formed [("box", ["box"])]
           [("move", ["move"; "carry"])] ["shelf"; "dock"]
           [("move", ["item"; "location"])] 3 (fun n => n) _ _ _ info Hi)).
  vm_compute. reflexivity.
Defined.
